(** * Contextual hold-tap engine (ZMK module) and alt-repeat resolver (QMK)

    A shallow embedding of
    [zmk/config/modules/dario/contextual-hold-tap/src/contextual_hold_tap.c],
    [.../contextual_hold_tap_listener.c], [qmk/users/dario/magic.c],
    [qmk/users/dario/dario.c] and the hooks of the Lulu keymap, followed by
    the properties of the engine that the specification states and by further
    properties of the code: its error paths, its round trips, and what it
    keeps over every run.

    Conventions.
    - The module-wide C globals ([undecided_hold_tap], [active_hold_taps],
      [captured_events], [last_tapped], [last_key]) are the fields of one
      record, [engine], threaded through every function.  The two arrays are
      lists; their lengths are CHT_MAX_HELD and CHT_MAX_CAPTURED_EVENTS.
    - A pointer into [active_hold_taps] is the index of the slot; a function
      that only reads the record it points to is given the record.
    - Positions, keycodes and timestamps are integers in the range of their C
      type; [int64_t] sums and differences are written with their
      two's-complement wrap-around, and the theorems that depend on a sum
      assume it is in range.  The conversion of an event's position to the
      [int32_t] field [position_of_first_other_key_pressed], whose -1 reads
      as no key, is written out as well.
    - The action sink ([zmk_behavior_invoke_binding]) is an output: every call
      is appended to [sink]; its return code is given by the environment.
      [LOG_ERR] lines are an output too; [LOG_DBG] compiles to nothing.
    - Re-raising a captured event ([ZMK_EVENT_RAISE_AT]) re-enters the event
      pipeline, which may call back into the module.  The functions of the
      module take it as a parameter; the pipeline (event manager and keymap,
      which are ZMK's) is modelled after them and closed over itself. *)

From Stdlib Require Import ZArith Lia Bool.
From stdpp Require Import base list strings.

Local Open Scope Z_scope.

(** ** Machine integers *)

Definition INT32_MIN : Z := -2147483648.
Definition INT32_MAX : Z := 2147483647.

Definition wrap_int64 (z : Z) : Z := (z + 2 ^ 63) mod 2 ^ 64 - 2 ^ 63.
Definition wrap_int32 (z : Z) : Z := (z + 2 ^ 31) mod 2 ^ 32 - 2 ^ 31.

Definition in_int64 (z : Z) : Prop := - 2 ^ 63 <= z < 2 ^ 63.
Definition in_int32 (z : Z) : Prop := - 2 ^ 31 <= z < 2 ^ 31.

Definition add64 (a b : Z) : Z := wrap_int64 (a + b).
Definition sub64 (a b : Z) : Z := wrap_int64 (a - b).

Module CHT.

(** ** Data model (contextual_hold_tap.c, lines 36-138) *)

Definition CHT_POSITION_NOT_USED : Z := 9999.

(** errno values of Zephyr's errno.h. *)
Definition ENOMEM : Z := 12.
Definition EINPROGRESS : Z := 119.

Inductive flavor := FLAVOR_BALANCED | FLAVOR_TAP_PREFERRED | FLAVOR_HOLD_PREFERRED.

Inductive status :=
  STATUS_UNDECIDED | STATUS_TAP | STATUS_HOLD_INTERRUPT | STATUS_HOLD_TIMER.

Inductive decision_moment :=
  | HT_KEY_DOWN
  | HT_KEY_UP
  | HT_OTHER_KEY_DOWN
  | HT_OTHER_KEY_UP
  | HT_TIMER_EVENT
  | HT_QUICK_TAP.

#[global] Instance flavor_eq_dec : EqDecision flavor.
Proof. solve_decision. Defined.
#[global] Instance status_eq_dec : EqDecision status.
Proof. solve_decision. Defined.
#[global] Instance decision_moment_eq_dec : EqDecision decision_moment.
Proof. solve_decision. Defined.

(** [struct zmk_behavior_binding] (zmk/behavior.h). *)
Record zmk_behavior_binding := mk_binding {
  behavior_dev : string;
  param1 : Z;
  param2 : Z;
}.

(** [struct zmk_behavior_binding_event] (zmk/behavior.h). *)
Record zmk_behavior_binding_event := mk_binding_event {
  be_position : Z;
  be_timestamp : Z;
  be_source : Z;
}.

Record behavior_contextual_hold_tap_config := mk_config {
  tapping_term_ms : Z;
  quick_tap_ms : Z;
  require_prior_idle_ms : Z;
  normal_flavor : flavor;
  after_flavor : flavor;
  hold_while_undecided : bool;
  hold_while_undecided_linger : bool;
  retro_tap : bool;
  hold_trigger_on_release : bool;
  (* the array together with its length field *)
  hold_trigger_key_positions : list Z;
  tap_bindings : list zmk_behavior_binding;
  hold_bindings : list zmk_behavior_binding;
  prior_keycodes : list Z;
  prior_timeout_ms : Z;
}.

Definition hold_trigger_key_positions_len (cfg : behavior_contextual_hold_tap_config) : Z :=
  Z.of_nat (length (hold_trigger_key_positions cfg)).

Definition prior_keycodes_len (cfg : behavior_contextual_hold_tap_config) : Z :=
  Z.of_nat (length (prior_keycodes cfg)).

(** [struct active_hold_tap].  [work] is the delayable work item: [Some d]
    while it is scheduled to run after [d] milliseconds. *)
Record active_hold_tap := mk_hold_tap {
  (* int32_t in the source; it holds the uint32_t position of the event,
     kept here as the event has it *)
  position : Z;
  source : Z;
  timestamp : Z;
  status_of : status;
  selected_flavor : flavor;
  config : behavior_contextual_hold_tap_config;
  work : option Z;
  work_is_cancelled : bool;
  position_of_first_other_key_pressed : Z;
}.

(** [struct zmk_position_state_changed] and [struct zmk_keycode_state_changed]
    (zmk/events). *)
Record zmk_position_state_changed := mk_position_event {
  ps_source : Z;
  ps_position : Z;
  ps_state : bool;
  ps_timestamp : Z;
}.

Record zmk_keycode_state_changed := mk_keycode_event {
  kc_usage_page : Z;
  kc_keycode : Z;
  kc_implicit_modifiers : Z;
  kc_explicit_modifiers : Z;
  kc_state : bool;
  kc_timestamp : Z;
}.

(** [struct captured_event]: the tag and the union it discriminates. *)
Inductive captured_event :=
  | ET_NONE
  | ET_POS_CHANGED (data : zmk_position_state_changed)
  | ET_CODE_CHANGED (data : zmk_keycode_state_changed).

Definition is_ET_NONE (e : captured_event) : bool :=
  match e with ET_NONE => true | _ => false end.

Record last_tapped_t := mk_last_tapped {
  lt_position : Z;
  lt_timestamp : Z;
}.

(** [struct cht_last_key_info] (contextual_hold_tap_internal.h). *)
Record cht_last_key_info := mk_last_key {
  lk_keycode : Z;
  lk_timestamp : Z;
  lk_valid : bool;
}.

(** One call of [zmk_behavior_invoke_binding]. *)
Record invocation := mk_invocation {
  inv_binding : zmk_behavior_binding;
  inv_event : zmk_behavior_binding_event;
  inv_pressed : bool;
}.

(** Return values of listeners and behaviours. *)
Inductive zmk_ev_result := ZMK_EV_EVENT_BUBBLE | ZMK_EV_EVENT_CAPTURED.
Inductive zmk_behavior_result := ZMK_BEHAVIOR_OPAQUE.

(** The module state, and what it has sent out so far. *)
Record engine := mk_engine {
  undecided_hold_tap : option nat;
  active_hold_taps : list active_hold_tap;
  captured_events : list captured_event;
  last_tapped : last_tapped_t;
  last_key : cht_last_key_info;
  (* outputs *)
  sink : list invocation;          (* calls of zmk_behavior_invoke_binding *)
  bubbled : list captured_event;   (* events the listener let through *)
  err_log : list string;           (* LOG_ERR lines *)
  slept_ms : Z;                    (* total of k_msleep *)
}.

(** *** Field updates *)

Definition set_status (s : status) (ht : active_hold_tap) : active_hold_tap :=
  mk_hold_tap (position ht) (source ht) (timestamp ht) s (selected_flavor ht)
    (config ht) (work ht) (work_is_cancelled ht)
    (position_of_first_other_key_pressed ht).

Definition set_selected_flavor (f : flavor) (ht : active_hold_tap) : active_hold_tap :=
  mk_hold_tap (position ht) (source ht) (timestamp ht) (status_of ht) f
    (config ht) (work ht) (work_is_cancelled ht)
    (position_of_first_other_key_pressed ht).

Definition set_work (w : option Z) (ht : active_hold_tap) : active_hold_tap :=
  mk_hold_tap (position ht) (source ht) (timestamp ht) (status_of ht)
    (selected_flavor ht) (config ht) w (work_is_cancelled ht)
    (position_of_first_other_key_pressed ht).

Definition set_work_is_cancelled (b : bool) (ht : active_hold_tap) : active_hold_tap :=
  mk_hold_tap (position ht) (source ht) (timestamp ht) (status_of ht)
    (selected_flavor ht) (config ht) (work ht) b
    (position_of_first_other_key_pressed ht).

Definition set_first_other (p : Z) (ht : active_hold_tap) : active_hold_tap :=
  mk_hold_tap (position ht) (source ht) (timestamp ht) (status_of ht)
    (selected_flavor ht) (config ht) (work ht) (work_is_cancelled ht) p.

Definition with_undecided (u : option nat) (st : engine) : engine :=
  mk_engine u (active_hold_taps st) (captured_events st) (last_tapped st)
    (last_key st) (sink st) (bubbled st) (err_log st) (slept_ms st).

Definition with_hold_taps (l : list active_hold_tap) (st : engine) : engine :=
  mk_engine (undecided_hold_tap st) l (captured_events st) (last_tapped st)
    (last_key st) (sink st) (bubbled st) (err_log st) (slept_ms st).

Definition with_captured (l : list captured_event) (st : engine) : engine :=
  mk_engine (undecided_hold_tap st) (active_hold_taps st) l (last_tapped st)
    (last_key st) (sink st) (bubbled st) (err_log st) (slept_ms st).

Definition with_last_tapped (lt : last_tapped_t) (st : engine) : engine :=
  mk_engine (undecided_hold_tap st) (active_hold_taps st) (captured_events st) lt
    (last_key st) (sink st) (bubbled st) (err_log st) (slept_ms st).

Definition with_last_key (lk : cht_last_key_info) (st : engine) : engine :=
  mk_engine (undecided_hold_tap st) (active_hold_taps st) (captured_events st)
    (last_tapped st) lk (sink st) (bubbled st) (err_log st) (slept_ms st).

Definition with_sink (s : list invocation) (st : engine) : engine :=
  mk_engine (undecided_hold_tap st) (active_hold_taps st) (captured_events st)
    (last_tapped st) (last_key st) s (bubbled st) (err_log st) (slept_ms st).

Definition with_bubbled (b : list captured_event) (st : engine) : engine :=
  mk_engine (undecided_hold_tap st) (active_hold_taps st) (captured_events st)
    (last_tapped st) (last_key st) (sink st) b (err_log st) (slept_ms st).

Definition LOG_ERR (msg : string) (st : engine) : engine :=
  mk_engine (undecided_hold_tap st) (active_hold_taps st) (captured_events st)
    (last_tapped st) (last_key st) (sink st) (bubbled st) (err_log st ++ [msg]) (slept_ms st).

Definition k_msleep (ms : Z) (st : engine) : engine :=
  mk_engine (undecided_hold_tap st) (active_hold_taps st) (captured_events st)
    (last_tapped st) (last_key st) (sink st) (bubbled st) (err_log st) (slept_ms st + ms).

(** [active_hold_taps[i] = ht] *)
Definition set_hold_tap (i : nat) (ht : active_hold_tap) (st : engine) : engine :=
  with_hold_taps (<[i := ht]> (active_hold_taps st)) st.

(** ** Last-tapped tracking (lines 129-159) *)

Definition last_tapped_init : last_tapped_t := mk_last_tapped INT32_MIN INT32_MIN.

Definition store_last_tapped (ts : Z) (st : engine) : engine :=
  if ts >? lt_timestamp (last_tapped st)
  then with_last_tapped (mk_last_tapped INT32_MIN ts) st
  else st.

Definition store_last_hold_tapped (hold_tap : active_hold_tap) (st : engine) : engine :=
  with_last_tapped (mk_last_tapped (position hold_tap) (timestamp hold_tap)) st.

Definition is_quick_tap (hold_tap : active_hold_tap) (st : engine) : bool :=
  if add64 (lt_timestamp (last_tapped st)) (require_prior_idle_ms (config hold_tap))
       >? timestamp hold_tap
  then true
  else (lt_position (last_tapped st) =? position hold_tap)
       && (add64 (lt_timestamp (last_tapped st)) (quick_tap_ms (config hold_tap))
             >? timestamp hold_tap).

(** ** The capture buffer (lines 161-187) *)

(** The loop of [capture_event] over [captured_events]: the first slot whose
    tag is [ET_NONE] receives the event. *)
Fixpoint capture_in (slots : list captured_event) (data : captured_event)
  : option (list captured_event) :=
  match slots with
  | [] => None
  | ET_NONE :: rest => Some (data :: rest)
  | e :: rest => cons e <$> capture_in rest data
  end.

Definition capture_event (data : captured_event) (st : engine) : Z * engine :=
  match capture_in (captured_events st) data with
  | Some slots => (0, with_captured slots st)
  | None => (- ENOMEM, st)
  end.

Fixpoint have_captured_keydown_event_in (slots : list captured_event) (pos : Z) : bool :=
  match slots with
  | [] => false
  | ET_NONE :: _ => false
  | ET_POS_CHANGED d :: rest =>
      if (ps_position d =? pos) && ps_state d then true
      else have_captured_keydown_event_in rest pos
  | ET_CODE_CHANGED _ :: rest => have_captured_keydown_event_in rest pos
  end.

Definition have_captured_keydown_event (pos : Z) (st : engine) : bool :=
  have_captured_keydown_event_in (captured_events st) pos.

(** [is_mod] of zmk/keys.h: a keyboard-page usage between LEFT_CONTROL and
    RIGHT_GUI. *)
Definition HID_USAGE_KEY : Z := 7.
Definition is_mod (usage_page keycode : Z) : bool :=
  (224 <=? keycode) && (keycode <=? 231) && (usage_page =? HID_USAGE_KEY).

(** ** Slots of [active_hold_taps] (lines 478-512) *)

Fixpoint find_hold_tap_from (slots : list active_hold_tap) (i : nat) (pos : Z)
  : option nat :=
  match slots with
  | [] => None
  | ht :: rest =>
      if position ht =? pos then Some i else find_hold_tap_from rest (S i) pos
  end.

Definition find_hold_tap (pos : Z) (st : engine) : option nat :=
  find_hold_tap_from (active_hold_taps st) 0 pos.

Definition store_hold_tap (event : zmk_behavior_binding_event)
    (cfg : behavior_contextual_hold_tap_config) (st : engine) : option nat * engine :=
  match find_hold_tap_from (active_hold_taps st) 0 CHT_POSITION_NOT_USED with
  | None => (None, st)
  | Some i =>
      match active_hold_taps st !! i with
      | None => (None, st)
      | Some old =>
          let ht := mk_hold_tap (be_position event) (be_source event)
                      (be_timestamp event) STATUS_UNDECIDED (normal_flavor cfg) cfg
                      (work old) (work_is_cancelled old) (-1) in
          (Some i, set_hold_tap i ht st)
      end
  end.

Definition clear_hold_tap (i : nat) (st : engine) : engine :=
  match active_hold_taps st !! i with
  | None => st
  | Some ht =>
      set_hold_tap i
        (mk_hold_tap CHT_POSITION_NOT_USED (source ht) (timestamp ht)
           STATUS_UNDECIDED FLAVOR_BALANCED (config ht) (work ht) false
           (position_of_first_other_key_pressed ht)) st
  end.

(** ** Flavor selection (lines 514-536) and the last-key tracker
    (contextual_hold_tap_listener.c) *)

Definition cht_get_last_key_info (st : engine) : cht_last_key_info := last_key st.

Definition cht_record_last_key (keycode ts : Z) (st : engine) : engine :=
  if ts <? lk_timestamp (last_key st) then st
  else with_last_key (mk_last_key keycode ts true) st.

Definition contextual_hold_tap_listener (ev : zmk_keycode_state_changed) (st : engine)
  : zmk_ev_result * engine :=
  if negb (kc_state ev) then (ZMK_EV_EVENT_BUBBLE, st)
  else if is_mod (kc_usage_page ev) (kc_keycode ev) then (ZMK_EV_EVENT_BUBBLE, st)
  else (ZMK_EV_EVENT_BUBBLE, cht_record_last_key (kc_keycode ev) (kc_timestamp ev) st).

Definition select_flavor (cfg : behavior_contextual_hold_tap_config) (now : Z)
    (st : engine) : flavor :=
  if prior_keycodes_len cfg =? 0 then normal_flavor cfg
  else
    let last := cht_get_last_key_info st in
    if negb (lk_valid last) then normal_flavor cfg
    else if sub64 now (lk_timestamp last) >? prior_timeout_ms cfg then normal_flavor cfg
    else if existsb (fun k => k =? lk_keycode last) (prior_keycodes cfg)
         then after_flavor cfg
         else normal_flavor cfg.

(** ** The decision switch and the positional override (lines 332-434) *)

Definition is_first_other_key_pressed_trigger_key (hold_tap : active_hold_tap) : bool :=
  existsb (fun p => p =? position_of_first_other_key_pressed hold_tap)
    (hold_trigger_key_positions (config hold_tap)).

Definition decide_positional_hold (hold_tap : active_hold_tap) : active_hold_tap :=
  if negb (hold_trigger_key_positions_len (config hold_tap) >? 0) then hold_tap
  else if position_of_first_other_key_pressed hold_tap =? -1 then hold_tap
  else if is_first_other_key_pressed_trigger_key hold_tap then hold_tap
  else set_status STATUS_TAP hold_tap.

(** The nested [switch] of [decide_hold_tap] (lines 382-434): the status the
    flavor assigns at a decision moment; [s] where no case assigns. *)
Definition flavor_switch (f : flavor) (dm : decision_moment) (s : status) : status :=
  match f with
  | FLAVOR_HOLD_PREFERRED =>
      match dm with
      | HT_KEY_UP => STATUS_TAP
      | HT_OTHER_KEY_DOWN => STATUS_HOLD_INTERRUPT
      | HT_TIMER_EVENT => STATUS_HOLD_TIMER
      | HT_QUICK_TAP => STATUS_TAP
      | _ => s
      end
  | FLAVOR_BALANCED =>
      match dm with
      | HT_KEY_UP => STATUS_TAP
      | HT_OTHER_KEY_UP => STATUS_HOLD_INTERRUPT
      | HT_TIMER_EVENT => STATUS_HOLD_TIMER
      | HT_QUICK_TAP => STATUS_TAP
      | _ => s
      end
  | FLAVOR_TAP_PREFERRED =>
      match dm with
      | HT_KEY_UP => STATUS_TAP
      | HT_TIMER_EVENT => STATUS_HOLD_TIMER
      | HT_QUICK_TAP => STATUS_TAP
      | _ => s
      end
  end.

Section Engine.

(** The return code of the behaviour invoked by [zmk_behavior_invoke_binding]. *)
Variable zmk_behavior_invoke_binding :
  zmk_behavior_binding -> zmk_behavior_binding_event -> bool -> Z.

(** [ZMK_EVENT_RAISE_AT (ev, contextual_hold_tap)]: hand a captured event back
    to the event manager, which runs the listeners on it before returning. *)
Variable ZMK_EVENT_RAISE_AT : captured_event -> engine -> engine.

(** ** Invoking bindings (lines 234-330) *)

Fixpoint invoke_binding_set (bindings : list zmk_behavior_binding)
    (event : zmk_behavior_binding_event) (pressed : bool) (st : engine) : Z * engine :=
  match bindings with
  | [] => (0, st)
  | b :: rest =>
      let st' := with_sink (sink st ++ [mk_invocation b event pressed]) st in
      let ret := zmk_behavior_invoke_binding b event pressed in
      if ret =? 0 then invoke_binding_set rest event pressed st' else (ret, st')
  end.

Definition binding_event_of (hold_tap : active_hold_tap) : zmk_behavior_binding_event :=
  mk_binding_event (position hold_tap) (timestamp hold_tap) (source hold_tap).

Definition press_hold_binding (hold_tap : active_hold_tap) (st : engine) : Z * engine :=
  invoke_binding_set (hold_bindings (config hold_tap)) (binding_event_of hold_tap) true st.

Definition press_tap_binding (hold_tap : active_hold_tap) (st : engine) : Z * engine :=
  invoke_binding_set (tap_bindings (config hold_tap)) (binding_event_of hold_tap) true
    (store_last_hold_tapped hold_tap st).

Definition release_hold_binding (hold_tap : active_hold_tap) (st : engine) : Z * engine :=
  invoke_binding_set (hold_bindings (config hold_tap)) (binding_event_of hold_tap) false st.

Definition release_tap_binding (hold_tap : active_hold_tap) (st : engine) : Z * engine :=
  invoke_binding_set (tap_bindings (config hold_tap)) (binding_event_of hold_tap) false st.

Definition is_hold_status (s : status) : bool :=
  bool_decide (s = STATUS_HOLD_TIMER) || bool_decide (s = STATUS_HOLD_INTERRUPT).

Definition press_binding (hold_tap : active_hold_tap) (st : engine) : Z * engine :=
  if retro_tap (config hold_tap) && bool_decide (status_of hold_tap = STATUS_HOLD_TIMER)
  then (0, st)
  else if is_hold_status (status_of hold_tap) then
    if hold_while_undecided (config hold_tap) then (0, st)
    else press_hold_binding hold_tap st
  else
    let st' :=
      if hold_while_undecided (config hold_tap)
         && negb (hold_while_undecided_linger (config hold_tap))
      then snd (release_hold_binding hold_tap st)
      else st in
    press_tap_binding hold_tap st'.

Definition release_binding (hold_tap : active_hold_tap) (st : engine) : Z * engine :=
  if retro_tap (config hold_tap) && bool_decide (status_of hold_tap = STATUS_HOLD_TIMER)
  then (0, st)
  else if is_hold_status (status_of hold_tap) then release_hold_binding hold_tap st
  else release_tap_binding hold_tap st.

(** ** Draining the capture buffer (lines 538-575) *)

(** Iterations [i], [i+1], ... of the [for] loop, [n] of them left. *)
Fixpoint release_captured_events_from (n i : nat) (st : engine) : engine :=
  match n with
  | O => st
  | S n' =>
      match captured_events st !! i with
      | None => st
      | Some ET_NONE => st
      | Some ev =>
          let st1 := with_captured (<[i := ET_NONE]> (captured_events st)) st in
          let st2 := match undecided_hold_tap st1 with
                     | Some _ => k_msleep 10 st1
                     | None => st1
                     end in
          release_captured_events_from n' (S i) (ZMK_EVENT_RAISE_AT ev st2)
      end
  end.

Definition release_captured_events (st : engine) : engine :=
  match undecided_hold_tap st with
  | Some _ => st
  | None => release_captured_events_from (length (captured_events st)) 0 st
  end.

(** ** [decide_hold_tap] (lines 365-448) *)

(** Lines 445-447, once the record [decided] of slot [i] carries its final
    status: forget the undecided hold-tap, press the binding, replay the
    captured events. *)
Definition commit_decision (i : nat) (decided : active_hold_tap) (st : engine) : engine :=
  let st1 := with_undecided None (set_hold_tap i decided st) in
  release_captured_events (snd (press_binding decided st1)).

Definition decide_hold_tap (i : nat) (dm : decision_moment) (st : engine) : engine :=
  match active_hold_taps st !! i with
  | None => st
  | Some hold_tap =>
      if negb (bool_decide (status_of hold_tap = STATUS_UNDECIDED)) then st
      else if negb (bool_decide (undecided_hold_tap st = Some i)) then st
      else if hold_while_undecided (config hold_tap) && bool_decide (dm = HT_KEY_DOWN)
      then snd (press_hold_binding hold_tap st)
      else
        let s := flavor_switch (selected_flavor hold_tap) dm (status_of hold_tap) in
        if bool_decide (s = STATUS_UNDECIDED) then st
        else commit_decision i (decide_positional_hold (set_status s hold_tap)) st
  end.

(** ** Retro-tap (lines 450-476) *)

Definition decide_retro_tap (i : nat) (st : engine) : engine :=
  match active_hold_taps st !! i with
  | None => st
  | Some hold_tap =>
      if negb (retro_tap (config hold_tap)) then st
      else if bool_decide (status_of hold_tap = STATUS_HOLD_TIMER) then
        let st1 := snd (release_binding hold_tap st) in
        let tapped := set_status STATUS_TAP hold_tap in
        snd (press_binding tapped (set_hold_tap i tapped st1))
      else st
  end.

Fixpoint update_hold_status_for_retro_tap_from (n i : nat) (ignore_position : Z)
    (st : engine) : engine :=
  match n with
  | O => st
  | S n' =>
      let st' :=
        match active_hold_taps st !! i with
        | None => st
        | Some hold_tap =>
            if (position hold_tap =? ignore_position)
               || (position hold_tap =? CHT_POSITION_NOT_USED)
               || negb (retro_tap (config hold_tap))
            then st
            else if bool_decide (status_of hold_tap = STATUS_HOLD_TIMER) then
              let upgraded := set_status STATUS_HOLD_INTERRUPT hold_tap in
              snd (press_binding upgraded (set_hold_tap i upgraded st))
            else st
        end in
      update_hold_status_for_retro_tap_from n' (S i) ignore_position st'
  end.

Definition update_hold_status_for_retro_tap (ignore_position : Z) (st : engine) : engine :=
  update_hold_status_for_retro_tap_from (length (active_hold_taps st)) 0
    ignore_position st.

(** ** The behaviour driver (lines 577-651) *)

(** [k_work_schedule]: an item that is already scheduled keeps its delay. *)
Definition k_work_schedule (i : nat) (delay : Z) (st : engine) : engine :=
  match active_hold_taps st !! i with
  | None => st
  | Some ht =>
      match work ht with
      | Some _ => st
      | None => set_hold_tap i (set_work (Some delay) ht) st
      end
  end.

(** [k_work_cancel_delayable]: the item is no longer scheduled; the value it
    returns is the environment's. *)
Definition k_work_cancel_delayable (i : nat) (st : engine) : engine :=
  match active_hold_taps st !! i with
  | None => st
  | Some ht => set_hold_tap i (set_work None ht) st
  end.

(** Lines 612-616: schedule the work item of slot [i] for what is left of the
    tapping term at time [now]. *)
Definition schedule_tapping_term_timer (i : nat)
    (cfg : behavior_contextual_hold_tap_config) (now : Z) (st : engine) : engine :=
  match active_hold_taps st !! i with
  | None => st
  | Some ht =>
      let tapping_term_ms_left :=
        wrap_int32 (sub64 (add64 (timestamp ht) (tapping_term_ms cfg)) now) in
      let tapping_term_ms_left :=
        if tapping_term_ms_left <? 0 then 0 else tapping_term_ms_left in
      k_work_schedule i tapping_term_ms_left st
  end.

(** [cfg] is the configuration of the device the binding names; [now] is the
    value of [k_uptime_get ()]. *)
Definition on_hold_tap_binding_pressed (cfg : behavior_contextual_hold_tap_config)
    (event : zmk_behavior_binding_event) (now : Z) (st : engine)
  : zmk_behavior_result * engine :=
  match undecided_hold_tap st with
  | Some _ => (ZMK_BEHAVIOR_OPAQUE, st)
  | None =>
      match store_hold_tap event cfg st with
      | (None, st0) =>
          (ZMK_BEHAVIOR_OPAQUE, LOG_ERR "unable to store hold-tap info" st0)
      | (Some i, st0) =>
          let st1 :=
            match active_hold_taps st0 !! i with
            | None => st0
            | Some ht =>
                set_hold_tap i
                  (set_selected_flavor (select_flavor cfg (be_timestamp event) st0) ht) st0
            end in
          let st2 := with_undecided (Some i) st1 in
          let st3 :=
            match active_hold_taps st2 !! i with
            | None => st2
            | Some ht =>
                if is_quick_tap ht st2 then decide_hold_tap i HT_QUICK_TAP st2 else st2
            end in
          let st4 := decide_hold_tap i HT_KEY_DOWN st3 in
          let st5 := schedule_tapping_term_timer i cfg now st4 in
          (ZMK_BEHAVIOR_OPAQUE, st5)
      end
  end.

(** [work_cancel_result] is what [k_work_cancel_delayable] returned. *)
Definition on_hold_tap_binding_released (event : zmk_behavior_binding_event)
    (work_cancel_result : Z) (st : engine) : zmk_behavior_result * engine :=
  match find_hold_tap (be_position event) st with
  | None => (ZMK_BEHAVIOR_OPAQUE, LOG_ERR "ACTIVE_HOLD_TAP_CLEANED_UP_TOO_EARLY" st)
  | Some i =>
      let st0 := k_work_cancel_delayable i st in
      let st1 :=
        match active_hold_taps st0 !! i with
        | None => st0
        | Some ht =>
            if be_timestamp event
                 >? add64 (timestamp ht) (tapping_term_ms (config ht))
            then decide_hold_tap i HT_TIMER_EVENT st0
            else st0
        end in
      let st2 := decide_hold_tap i HT_KEY_UP st1 in
      let st3 := decide_retro_tap i st2 in
      let st4 :=
        match active_hold_taps st3 !! i with
        | None => st3
        | Some ht => snd (release_binding ht st3)
        end in
      let st5 :=
        match active_hold_taps st4 !! i with
        | None => st4
        | Some ht =>
            if hold_while_undecided (config ht)
               && hold_while_undecided_linger (config ht)
            then snd (release_hold_binding ht st4)
            else st4
        end in
      let st6 :=
        if work_cancel_result =? - EINPROGRESS then
          match active_hold_taps st5 !! i with
          | None => st5
          | Some ht => set_hold_tap i (set_work_is_cancelled true ht) st5
          end
        else clear_hold_tap i st5 in
      (ZMK_BEHAVIOR_OPAQUE, st6)
  end.

(** ** The listeners (lines 653-739) *)

Definition position_state_changed_listener (ev : zmk_position_state_changed)
    (st : engine) : zmk_ev_result * engine :=
  let st0 := update_hold_status_for_retro_tap (ps_position ev) st in
  match undecided_hold_tap st0 with
  | None => (ZMK_EV_EVENT_BUBBLE, st0)
  | Some u =>
      match active_hold_taps st0 !! u with
      | None => (ZMK_EV_EVENT_BUBBLE, st0)
      | Some ht0 =>
          let first_other_unset :=
            position_of_first_other_key_pressed ht0 =? -1 in
          (* line 665: the uint32_t position of the event goes into an
             int32_t field *)
          let st1 :=
            if negb (Bool.eqb (hold_trigger_on_release (config ht0)) (ps_state ev))
               && first_other_unset
            then set_hold_tap u (set_first_other (wrap_int32 (ps_position ev)) ht0) st0
            else st0 in
          if position ht0 =? ps_position ev then
            if ps_state ev
            then (ZMK_EV_EVENT_BUBBLE,
                  LOG_ERR "hold-tap listener should be called before most other listeners!" st1)
            else (ZMK_EV_EVENT_BUBBLE, st1)
          else
            let st2 :=
              if ps_timestamp ev
                   >? add64 (timestamp ht0) (tapping_term_ms (config ht0))
              then decide_hold_tap u HT_TIMER_EVENT st1
              else st1 in
            match undecided_hold_tap st2 with
            | None => (ZMK_EV_EVENT_BUBBLE, st2)
            | Some u' =>
                if negb (ps_state ev)
                   && negb (have_captured_keydown_event (ps_position ev) st2)
                then (ZMK_EV_EVENT_BUBBLE, st2)
                else
                  let st3 := snd (capture_event (ET_POS_CHANGED ev) st2) in
                  let dm := if ps_state ev then HT_OTHER_KEY_DOWN else HT_OTHER_KEY_UP in
                  (ZMK_EV_EVENT_CAPTURED, decide_hold_tap u' dm st3)
            end
      end
  end.

Definition keycode_state_changed_listener (ev : zmk_keycode_state_changed)
    (st : engine) : zmk_ev_result * engine :=
  let st0 :=
    if kc_state ev && negb (is_mod (kc_usage_page ev) (kc_keycode ev))
    then store_last_tapped (kc_timestamp ev) st
    else st in
  match undecided_hold_tap st0 with
  | None => (ZMK_EV_EVENT_BUBBLE, st0)
  | Some u =>
      if negb (is_mod (kc_usage_page ev) (kc_keycode ev)) then (ZMK_EV_EVENT_BUBBLE, st0)
      else
        match active_hold_taps st0 !! u with
        | None => (ZMK_EV_EVENT_BUBBLE, st0)
        | Some ht =>
            if hold_while_undecided (config ht)
               && bool_decide (status_of ht = STATUS_UNDECIDED)
            then (ZMK_EV_EVENT_BUBBLE, st0)
            else (ZMK_EV_EVENT_CAPTURED, snd (capture_event (ET_CODE_CHANGED ev) st0))
        end
  end.

(** One event as the event manager hands it to the listener; the events the
    module subscribes to are the two above. *)
Definition behavior_contextual_hold_tap_listener (eh : captured_event) (st : engine)
  : zmk_ev_result * engine :=
  match eh with
  | ET_POS_CHANGED ev => position_state_changed_listener ev st
  | ET_CODE_CHANGED ev => keycode_state_changed_listener ev st
  | ET_NONE => (ZMK_EV_EVENT_BUBBLE, st)
  end.

(** ** The timer (lines 745-768) *)

Definition behavior_contextual_hold_tap_timer_work_handler (i : nat) (st : engine)
  : engine :=
  match active_hold_taps st !! i with
  | None => st
  | Some ht =>
      let st0 := set_hold_tap i (set_work None ht) st in
      if work_is_cancelled ht then clear_hold_tap i st0
      else decide_hold_tap i HT_TIMER_EVENT st0
  end.

End Engine.

(** The state after [behavior_contextual_hold_tap_init]: [held] free slots of
    [active_hold_taps], [cap] empty slots of [captured_events]. *)
Definition null_config : behavior_contextual_hold_tap_config :=
  mk_config 0 0 0 FLAVOR_BALANCED FLAVOR_BALANCED false false false false [] [] [] [] 0.

Definition free_slot : active_hold_tap :=
  mk_hold_tap CHT_POSITION_NOT_USED 0 0 STATUS_UNDECIDED FLAVOR_BALANCED null_config
    None false 0.

Definition engine_init (held cap : nat) : engine :=
  mk_engine None (replicate held free_slot) (replicate cap ET_NONE)
    last_tapped_init (mk_last_key 0 0 false) [] [] [] 0.

(** ** Initialisation (lines 105-106, 125, 756-768) *)

(** A slot of [active_hold_taps] as C's static initialisation leaves it: every
    field zero, the configuration pointer null. *)
Definition zeroed_slot : active_hold_tap :=
  mk_hold_tap 0 0 0 STATUS_UNDECIDED FLAVOR_BALANCED null_config None false 0.

(** The module state when the firmware starts, before any device instance is
    initialised. *)
Definition engine_boot (held cap : nat) : engine :=
  mk_engine None (replicate held zeroed_slot) (replicate cap ET_NONE)
    last_tapped_init (mk_last_key 0 0 false) [] [] [] 0.

(** The body of the loop of [behavior_contextual_hold_tap_init]:
    [k_work_init_delayable] and the position. *)
Definition init_slot (ht : active_hold_tap) : active_hold_tap :=
  mk_hold_tap CHT_POSITION_NOT_USED (source ht) (timestamp ht) (status_of ht)
    (selected_flavor ht) (config ht) None (work_is_cancelled ht)
    (position_of_first_other_key_pressed ht).

(** [init_first_run] is the function's static flag; the function returns 0. *)
Definition behavior_contextual_hold_tap_init (init_first_run : bool) (st : engine)
  : Z * (bool * engine) :=
  let st' :=
    if init_first_run then with_hold_taps (init_slot <$> active_hold_taps st) st
    else st in
  (0, (false, st')).

(** The init function called once per device instance, [n] instances. *)
Fixpoint init_instances (n : nat) (init_first_run : bool) (st : engine) : bool * engine :=
  match n with
  | O => (init_first_run, st)
  | S n' =>
      let '(_, (flag, st')) := behavior_contextual_hold_tap_init init_first_run st in
      init_instances n' flag st'
  end.

End CHT.

Import CHT.

(** ** The event pipeline around the module

    ZMK's event manager and keymap are not part of the repository.  What the
    module relies on: a raised event is handed to its listener; an event the
    listener lets through goes on to the later listeners, the last-key
    tracker among them, and a position event finally reaches the keymap, which
    invokes the hold-tap behaviour bound at that position, if there is one.
    An event raised by [ZMK_EVENT_RAISE_AT] starts at the module's listener.
    Keycode events that other behaviours raise are inputs of their own. *)

Record environment := mk_environment {
  (* the contextual hold-tap bound at a position *)
  keymap : Z -> option behavior_contextual_hold_tap_config;
  (* the return code of every other behaviour *)
  invoke_result : zmk_behavior_binding -> zmk_behavior_binding_event -> bool -> Z;
  (* what k_work_cancel_delayable returns *)
  work_cancel_result : Z;
}.

Section Pipeline.

Variable env : environment.
Variable raise : captured_event -> engine -> engine.
(** The value of [k_uptime_get ()] while the event is processed. *)
Variable now : Z.

Definition keymap_apply (ev : zmk_position_state_changed) (st : engine) : engine :=
  match keymap env (ps_position ev) with
  | None => st
  | Some cfg =>
      let event := mk_binding_event (ps_position ev) (ps_timestamp ev) (ps_source ev) in
      if ps_state ev
      then snd (on_hold_tap_binding_pressed (invoke_result env) raise cfg event now st)
      else snd (on_hold_tap_binding_released (invoke_result env) raise event
                  (work_cancel_result env) st)
  end.

Definition event_manager_handle (eh : captured_event) (st : engine) : engine :=
  match behavior_contextual_hold_tap_listener (invoke_result env) raise eh st with
  | (ZMK_EV_EVENT_CAPTURED, st') => st'
  | (ZMK_EV_EVENT_BUBBLE, st') =>
      let st'' := with_bubbled (bubbled st' ++ [eh]) st' in
      match eh with
      | ET_POS_CHANGED ev => keymap_apply ev st''
      | ET_CODE_CHANGED ev => snd (contextual_hold_tap_listener ev st'')
      | ET_NONE => st''
      end
  end.

End Pipeline.

(** Events raised from within the handling of an event are handled in the
    same way, to a nesting depth of [depth]; beyond it nothing is done. *)
Fixpoint zmk_event_raise (env : environment) (now : Z) (depth : nat)
    (eh : captured_event) (st : engine) : engine :=
  match depth with
  | O => st
  | S d => event_manager_handle env (zmk_event_raise env now d) now eh st
  end.

(** How much is left to decide and to replay: two for every waiting event,
    one for an undecided hold-tap.  Raising an event from a drain happens at a
    smaller weight than the event that led to the drain was handled at, so
    the nesting of raises is bounded by the weight. *)
Fixpoint count_occupied (slots : list captured_event) : nat :=
  match slots with
  | [] => 0
  | ET_NONE :: rest => count_occupied rest
  | _ :: rest => S (count_occupied rest)
  end.

Definition weight (st : engine) : nat :=
  2 * count_occupied (captured_events st)
  + match undecided_hold_tap st with Some _ => 1 | None => 0 end.

(** An event enters the pipeline: the depth allowed is above the weight of
    the state, which the nesting never reaches. *)
Definition zmk_event_manager_raise (env : environment) (now : Z)
    (eh : captured_event) (st : engine) : engine :=
  zmk_event_raise env now (S (weight st)) eh st.

(** The delayed work item of slot [i] runs. *)
Definition timer_fires (env : environment) (now : Z) (i : nat) (st : engine) : engine :=
  behavior_contextual_hold_tap_timer_work_handler (invoke_result env)
    (zmk_event_raise env now (weight st)) i st.

(** A run of the engine on a list of timestamped inputs. *)
Inductive input :=
  | Event (now : Z) (eh : captured_event)
  | Timer (now : Z) (slot : nat).

Definition run_input (env : environment) (inp : input) (st : engine) : engine :=
  match inp with
  | Event now eh => zmk_event_manager_raise env now eh st
  | Timer now i => timer_fires env now i st
  end.

Definition run (env : environment) (inputs : list input) (st : engine) : engine :=
  fold_left (fun s inp => run_input env inp s) inputs st.

(** The events of a drain, as the buffer held them when the drain began: slot
    after slot, vacate it and raise its event. *)
Fixpoint replay (raise : captured_event -> engine -> engine)
    (events : list captured_event) (i : nat) (st : engine) : engine :=
  match events with
  | [] => st
  | e :: rest =>
      let st1 := with_captured (<[i := ET_NONE]> (captured_events st)) st in
      let st2 := match undecided_hold_tap st1 with
                 | Some _ => k_msleep 10 st1
                 | None => st1
                 end in
      replay raise rest (S i) (raise e st2)
  end.

Definition occupied (e : captured_event) : Prop := e <> ET_NONE.

(** ** Sample configurations *)

Definition kp (keycode : Z) : zmk_behavior_binding := mk_binding "key_press" keycode 0.

Definition key_down (pos ts : Z) : captured_event :=
  ET_POS_CHANGED (mk_position_event 0 pos true ts).
Definition key_up (pos ts : Z) : captured_event :=
  ET_POS_CHANGED (mk_position_event 0 pos false ts).

(** A hold-tap of the given flavor: tapping term 200 ms, tap = A, hold = left
    shift. *)
Definition sample_config (f : flavor) : behavior_contextual_hold_tap_config :=
  mk_config 200 0 0 f f false false false false [] [kp 4] [kp 225] [] 0.

Definition accept_all : zmk_behavior_binding -> zmk_behavior_binding_event -> bool -> Z :=
  fun _ _ _ => 0.

(** A keyboard whose position 10 (and 30) carries a hold-tap configured by
    [cfg]. *)
Definition sample_env (cfg : behavior_contextual_hold_tap_config) : environment :=
  mk_environment
    (fun pos => if (pos =? 10) || (pos =? 30) then Some cfg else None)
    accept_all 0.

(** * The alt-repeat ("magic") key of the QMK userspace (qmk/users/dario/magic.c) *)

Module Magic.

(** ** QMK keycodes (quantum/keycodes.h) *)

Definition QK_REP : Z := 0x7C79.
Definition QK_AREP : Z := 0x7C7A.
Definition SAFE_RANGE : Z := 0x7E40.

Definition KC_A : Z := 0x04.
Definition KC_C : Z := 0x06.
Definition KC_E : Z := 0x08.
Definition KC_G : Z := 0x0A.
Definition KC_L : Z := 0x0F.
Definition KC_P : Z := 0x13.
Definition KC_Y : Z := 0x1C.
Definition KC_SPC : Z := 0x2C.
Definition KC_MINS : Z := 0x2D.
Definition KC_COMM : Z := 0x36.
Definition KC_DOT : Z := 0x37.
Definition KC_SLSH : Z := 0x38.
Definition KC_GT : Z := 0x0237.
Definition MOD_BIT_LSHIFT : Z := 0x02.

Definition IS_QK_MOD_TAP (keycode : Z) : bool :=
  (0x2000 <=? keycode) && (keycode <=? 0x3FFF).
Definition QK_MOD_TAP_GET_TAP_KEYCODE (keycode : Z) : Z := Z.land keycode 0xFF.
Definition IS_QK_LAYER_TAP (keycode : Z) : bool :=
  (0x4000 <=? keycode) && (keycode <=? 0x4FFF).
Definition QK_LAYER_TAP_GET_TAP_KEYCODE (keycode : Z) : Z := Z.land keycode 0xFF.

(** ** State and output *)

(** The fields of [keyrecord_t] that magic.c reads. *)
Record keyrecord_t := mk_keyrecord {
  event_pressed : bool;
  tap_count : Z;
  tap_interrupted : bool;
}.

(** What reaches the host: a key tapped under a modifier state, or a string. *)
Inductive emission :=
  | Tapped (keycode : Z) (mods : Z)
  | Typed (text : string).

(** What QMK holds when the handler runs, and what has been sent. *)
Record qmk := mk_qmk {
  last_keycode : Z;      (* get_last_keycode () *)
  last_mods : Z;         (* get_last_mods (): the modifiers remembered with it *)
  active_mods : Z;       (* the modifiers that are down now *)
  current_base_layer : Z;(* get_current_base_layer () *)
  sent : list emission;
}.

Definition send (e : emission) (q : qmk) : qmk :=
  mk_qmk (last_keycode q) (last_mods q) (active_mods q) (current_base_layer q)
    (sent q ++ [e]).

(** [tap_code16] is QMK's: it registers and unregisters the keycode on top of
    the modifier state of the moment ("rely on current mods already active",
    magic.c line 68); it is not given the remembered modifiers. *)
Definition tap_code16 (keycode : Z) (q : qmk) : qmk :=
  send (Tapped keycode (active_mods q)) q.

Definition SEND_STRING (text : string) (q : qmk) : qmk := send (Typed text) q.

(** ** magic.c *)

Definition unwrap_tap_keycode (keycode : Z) : Z :=
  if IS_QK_MOD_TAP keycode then
    let tap := QK_MOD_TAP_GET_TAP_KEYCODE keycode in
    if tap =? 0x7A then QK_AREP else tap
  else if IS_QK_LAYER_TAP keycode then QK_LAYER_TAP_GET_TAP_KEYCODE keycode
  else keycode.

Section Handler.

(** The two hooks the keymap supplies (generated into keymap.c). *)
Variable get_alt_repeat_key_keycode_user : Z -> Z -> qmk -> Z.
Variable process_magic_record : Z -> keyrecord_t -> qmk -> bool * qmk.

Definition handle_magic_tap (keycode : Z) (record : keyrecord_t) (q : qmk)
  : bool * qmk :=
  let last_key := unwrap_tap_keycode (last_keycode q) in
  let last_mods := last_mods q in
  let alt := get_alt_repeat_key_keycode_user last_key last_mods q in
  let fake := mk_keyrecord true (tap_count record) (tap_interrupted record) in
  let (passed, q1) := process_magic_record alt fake q in
  if negb passed then (false, q1)
  else if alt =? QK_REP then (false, tap_code16 last_key q1)
  else (false, tap_code16 alt q1).

Definition get_repeat_key_eligible_user (keycode : Z) : bool :=
  let tap := unwrap_tap_keycode keycode in
  if (keycode =? QK_REP) || (keycode =? QK_AREP) then false
  else if tap =? QK_AREP then false
  else true.

Definition remember_last_key_user (keycode : Z) : bool :=
  negb (unwrap_tap_keycode keycode =? QK_AREP).

Definition magic_process_record (keycode : Z) (record : keyrecord_t) (q : qmk)
  : bool * qmk :=
  let tap := unwrap_tap_keycode keycode in
  let is_magic_mod_tap := IS_QK_MOD_TAP keycode && (tap =? QK_AREP) in
  if is_magic_mod_tap then
    if event_pressed record then (true, q)
    else if (tap_count record =? 0) || tap_interrupted record then (true, q)
    else handle_magic_tap keycode record q
  else if event_pressed record && (tap =? QK_AREP) then handle_magic_tap keycode record q
  else (true, q).

End Handler.

(** ** The hooks of the Lulu keymap
    (qmk/keyboards/boardsource/lulu/rp2040/keymaps/dario/keymap.c) *)

Definition BASE_PRIMARY : Z := 0.
Definition BASE_ALT : Z := 1.
Definition BASE_ALT2 : Z := 2.

Definition MACRO_GITHUB_URL : Z := SAFE_RANGE.
Definition MAGIC_ALT2_CHR_32 : Z := MACRO_GITHUB_URL + 1.
Definition MAGIC_ALT2_CHR_44 : Z := MACRO_GITHUB_URL + 2.
Definition MAGIC_ALT_CHR_32 : Z := MACRO_GITHUB_URL + 3.
Definition MAGIC_ALT_CHR_44 : Z := MACRO_GITHUB_URL + 4.
Definition MAGIC_PRIMARY_CHR_32 : Z := MACRO_GITHUB_URL + 5.
Definition MAGIC_PRIMARY_CHR_44 : Z := MACRO_GITHUB_URL + 6.

(** The [switch] shared by the three base layers; [chr_32] and [chr_44] are
    the layer's two text expansions, [None] is "no case matches". *)
Definition alt_of (chr_32 chr_44 keycode : Z) : option Z :=
  if keycode =? KC_SPC then Some chr_32
  else if keycode =? KC_COMM then Some chr_44
  else if keycode =? KC_MINS then Some KC_GT
  else if keycode =? KC_DOT then Some KC_SLSH
  else if keycode =? KC_P then Some KC_L
  else if keycode =? KC_L then Some KC_P
  else if keycode =? KC_E then Some KC_Y
  else if keycode =? KC_C then Some KC_Y
  else if keycode =? KC_G then Some KC_Y
  else None.

Definition get_alt_repeat_key_keycode_user (keycode mods : Z) (q : qmk) : Z :=
  let base_layer := current_base_layer q in
  let primary :=
    if base_layer =? BASE_PRIMARY
    then alt_of MAGIC_PRIMARY_CHR_32 MAGIC_PRIMARY_CHR_44 keycode else None in
  let alt :=
    if base_layer =? BASE_ALT
    then alt_of MAGIC_ALT_CHR_32 MAGIC_ALT_CHR_44 keycode else None in
  let alt2 :=
    if base_layer =? BASE_ALT2
    then alt_of MAGIC_ALT2_CHR_32 MAGIC_ALT2_CHR_44 keycode else None in
  match primary, alt, alt2 with
  | Some k, _, _ => k
  | None, Some k, _ => k
  | None, None, Some k => k
  | None, None, None => QK_REP
  end.

Definition process_magic_record (keycode : Z) (record : keyrecord_t) (q : qmk)
  : bool * qmk :=
  if negb (event_pressed record) then (true, q)
  else if (keycode =? MAGIC_ALT2_CHR_32) || (keycode =? MAGIC_ALT_CHR_32)
          || (keycode =? MAGIC_PRIMARY_CHR_32)
  then (false, SEND_STRING "the" q)
  else if (keycode =? MAGIC_ALT2_CHR_44) || (keycode =? MAGIC_ALT_CHR_44)
          || (keycode =? MAGIC_PRIMARY_CHR_44)
  then (false, SEND_STRING " but" q)
  else (true, q).

(** The letter A typed with left shift held, shift released since, on the
    primary base layer. *)
Definition after_capital_a : qmk := mk_qmk KC_A MOD_BIT_LSHIFT 0 BASE_PRIMARY [].

End Magic.

(** * The rest of the QMK userspace (qmk/users/dario/dario.c, config.h) and of
    the Lulu keymap *)

Module Userspace.

Import Magic.

(** ** QMK's keycode constructors (quantum/quantum_keycodes.h, modifiers.h) *)

Definition QK_MOD_TAP : Z := 0x2000.
Definition QK_LAYER_TAP : Z := 0x4000.

Definition MT (mods kc : Z) : Z :=
  Z.lor QK_MOD_TAP (Z.lor (Z.shiftl (Z.land mods 0x1F) 8) (Z.land kc 0xFF)).
Definition LT (layer kc : Z) : Z :=
  Z.lor QK_LAYER_TAP (Z.lor (Z.shiftl (Z.land layer 0xF) 8) (Z.land kc 0xFF)).

Definition MOD_LCTL : Z := 0x01.
Definition MOD_LSFT : Z := 0x02.
Definition MOD_LALT : Z := 0x04.
Definition MOD_LGUI : Z := 0x08.
Definition MOD_RCTL : Z := 0x11.
Definition MOD_RSFT : Z := 0x12.
Definition MOD_RALT : Z := 0x14.
Definition MOD_RGUI : Z := 0x18.

Definition LCTL_T (kc : Z) : Z := MT MOD_LCTL kc.
Definition LSFT_T (kc : Z) : Z := MT MOD_LSFT kc.
Definition LALT_T (kc : Z) : Z := MT MOD_LALT kc.
Definition LGUI_T (kc : Z) : Z := MT MOD_LGUI kc.
Definition RCTL_T (kc : Z) : Z := MT MOD_RCTL kc.
Definition RSFT_T (kc : Z) : Z := MT MOD_RSFT kc.
Definition RALT_T (kc : Z) : Z := MT MOD_RALT kc.
Definition RGUI_T (kc : Z) : Z := MT MOD_RGUI kc.

Definition KC_NO : Z := 0x00.
Definition KC_H : Z := 0x0B.
Definition KC_I : Z := 0x0C.
Definition KC_N : Z := 0x11.
Definition KC_O : Z := 0x12.
Definition KC_R : Z := 0x15.
Definition KC_S : Z := 0x16.
Definition KC_T : Z := 0x17.
Definition KC_Z : Z := 0x1D.
Definition KC_ENT : Z := 0x28.
Definition KC_BSPC : Z := 0x2A.
Definition KC_TAB : Z := 0x2B.
Definition KC_DEL : Z := 0x4C.

(** ** Layers (dario.h) and tapping terms (config.h) *)

Definition NUM : Z := 3.
Definition SYM : Z := 4.
Definition NAV : Z := 5.
Definition MEDIA : Z := 6.

Definition TAPPING_TERM : Z := 200.
Definition TAPPING_TERM_HRM : Z := 280.

(** ** dario.c *)

(** The case labels the two [switch] statements share: the home row mods of
    both base layouts. *)
Definition home_row_mods : list Z :=
  [ LGUI_T KC_A; LALT_T KC_R; LCTL_T KC_S; LSFT_T KC_T;
    RSFT_T KC_N; RCTL_T KC_E; RALT_T KC_I; RGUI_T KC_O;
    LGUI_T KC_N; LALT_T KC_S; LCTL_T KC_H;
    RSFT_T KC_C; RCTL_T KC_A; RALT_T KC_E; RGUI_T KC_I ].

Definition case_of (labels : list Z) (keycode : Z) : bool :=
  existsb (fun label => keycode =? label) labels.

Section Layers.

(** The layers of the second layout, which [get_tapping_term] names and the
    header does not define. *)
Variables NAV_NIGHT NUM_NIGHT SYM_NIGHT MEDIA_NIGHT : Z.

Definition get_tapping_term (keycode : Z) : Z :=
  if case_of home_row_mods keycode then TAPPING_TERM_HRM
  else if case_of
            [ LT NAV KC_SPC; LT NUM KC_BSPC; LT SYM KC_DEL; LT MEDIA KC_ENT;
              LT NAV_NIGHT KC_SPC; LT NUM_NIGHT KC_BSPC; LT SYM_NIGHT KC_DEL;
              LT MEDIA_NIGHT KC_ENT ] keycode
  then 200
  else TAPPING_TERM.

End Layers.

Definition get_hold_on_other_key_press (keycode : Z) : bool :=
  if case_of home_row_mods keycode then true
  else if case_of [ LSFT_T KC_TAB; LSFT_T KC_DEL ] keycode then false
  else false.

(** ** keymap.c of the Lulu, continued *)

Definition magic_macros : list Z :=
  [ MAGIC_ALT2_CHR_32; MAGIC_ALT2_CHR_44; MAGIC_ALT_CHR_32; MAGIC_ALT_CHR_44;
    MAGIC_PRIMARY_CHR_32; MAGIC_PRIMARY_CHR_44 ].

Definition magic_training_first_keycode (keycode : Z) : Z :=
  if case_of magic_macros keycode then KC_NO else keycode.

End Userspace.

(** A keyboard with one hold-tap, at position 10, and the state of the pure-tap
    scenario after its keydown at time 0. *)
Definition one_hold_tap_env (cfg : behavior_contextual_hold_tap_config) : environment :=
  mk_environment (fun pos => if pos =? 10 then Some cfg else None) accept_all 0.

Definition after_keydown (cfg : behavior_contextual_hold_tap_config) : engine :=
  mk_engine (Some 0%nat)
    (mk_hold_tap 10 0 0 STATUS_UNDECIDED (normal_flavor cfg) cfg (Some 200) false (-1)
       :: replicate 9 free_slot)
    (replicate 40 ET_NONE) last_tapped_init (mk_last_key 0 0 false)
    [] [key_down 10 0] [] 0.

(** A capture buffer of two slots, both taken, under a TAP_PREFERRED hold-tap
    at position 10 that is still undecided. *)
Definition full_buffer_state : engine :=
  mk_engine (Some 0%nat)
    [mk_hold_tap 10 0 0 STATUS_UNDECIDED FLAVOR_TAP_PREFERRED
       (sample_config FLAVOR_TAP_PREFERRED) (Some 200) false 20]
    [key_down 20 10; key_down 21 20]
    last_tapped_init (mk_last_key 0 0 false) [] [key_down 10 0] [] 0.

(** A non-modifier key press (the letter A) seen as a keycode event. *)
Definition letter_pressed (ts : Z) : captured_event :=
  ET_CODE_CHANGED (mk_keycode_event HID_USAGE_KEY 4 0 0 true ts).

(** A hold-tap that takes a retro-tap, and one whose hold needs the first
    other key at position 40, 41 or 42. *)
Definition retro_config : behavior_contextual_hold_tap_config :=
  mk_config 200 0 0 FLAVOR_BALANCED FLAVOR_BALANCED false false true false []
    [kp 4] [kp 225] [] 0.

Definition positional_config : behavior_contextual_hold_tap_config :=
  mk_config 200 0 0 FLAVOR_HOLD_PREFERRED FLAVOR_HOLD_PREFERRED false false false
    false [40; 41; 42] [kp 4] [kp 225] [] 0.


(** A hold-tap with a quick-tap window of 100 ms, and the state in which
    position 10 was last tapped at time 0. *)
Definition quick_config : behavior_contextual_hold_tap_config :=
  mk_config 200 100 0 FLAVOR_BALANCED FLAVOR_BALANCED false false false false []
    [kp 4] [kp 225] [] 0.

Definition tapped_at_10 : engine :=
  with_last_tapped (mk_last_tapped 10 0) (engine_init 10 40).

(** Three events waiting in the buffer when no hold-tap is undecided any more:
    the press of position 30, itself a hold-tap, then a press and a release
    of position 20. *)
Definition three_waiting : engine :=
  with_captured
    ([key_down 30 10; key_down 20 20; key_up 20 30] ++ ET_NONE :: replicate 4 ET_NONE)
    (engine_init 4 8).

(** ** The specification's tables and conditions, in its own words *)

(** The flavor transition table of the specification; [None] is a dash: the
    hold-tap remains undecided. *)
Definition flavor_transition_table (f : flavor) (dm : decision_moment) : option status :=
  match f, dm with
  | _, HT_KEY_DOWN => None
  | _, HT_KEY_UP => Some STATUS_TAP
  | _, HT_QUICK_TAP => Some STATUS_TAP
  | _, HT_TIMER_EVENT => Some STATUS_HOLD_TIMER
  | FLAVOR_HOLD_PREFERRED, HT_OTHER_KEY_DOWN => Some STATUS_HOLD_INTERRUPT
  | FLAVOR_HOLD_PREFERRED, HT_OTHER_KEY_UP => None
  | FLAVOR_BALANCED, HT_OTHER_KEY_DOWN => None
  | FLAVOR_BALANCED, HT_OTHER_KEY_UP => Some STATUS_HOLD_INTERRUPT
  | FLAVOR_TAP_PREFERRED, HT_OTHER_KEY_DOWN => None
  | FLAVOR_TAP_PREFERRED, HT_OTHER_KEY_UP => None
  end.

(** The three conditions of the positional override. *)
Definition positional_override_applies (hold_tap : active_hold_tap) : Prop :=
  hold_trigger_key_positions (config hold_tap) <> []
  /\ position_of_first_other_key_pressed hold_tap <> -1
  /\ position_of_first_other_key_pressed hold_tap
       ∉ hold_trigger_key_positions (config hold_tap).

#[global] Instance positional_override_applies_dec hold_tap :
  Decision (positional_override_applies hold_tap).
Proof. unfold positional_override_applies. apply _. Defined.

(** "The timestamp [last] is within [window] milliseconds of [now]". *)
Definition within_ms (last now window : Z) : Prop := now - last < window.

(** The quick-tap condition of the specification, for a keydown [event] of a
    hold-tap configured by [cfg]. *)
Definition quick_tap_condition (cfg : behavior_contextual_hold_tap_config)
    (event : zmk_behavior_binding_event) (lt : last_tapped_t) : Prop :=
  within_ms (lt_timestamp lt) (be_timestamp event) (require_prior_idle_ms cfg)
  \/ (lt_position lt = be_position event
      /\ within_ms (lt_timestamp lt) (be_timestamp event) (quick_tap_ms cfg)).

(** No event is waiting at the front of the capture buffer. *)
Definition front_free (st : engine) : Prop :=
  match captured_events st with
  | [] => True
  | e :: _ => e = ET_NONE
  end.

(** The calls [invoke_binding_set] makes: one per binding, up to and including
    the first that returns non-zero. *)
Fixpoint invocations_of
    (invoke : zmk_behavior_binding -> zmk_behavior_binding_event -> bool -> Z)
    (bindings : list zmk_behavior_binding) (event : zmk_behavior_binding_event)
    (pressed : bool) : list invocation :=
  match bindings with
  | [] => []
  | b :: rest =>
      mk_invocation b event pressed
        :: (if invoke b event pressed =? 0
            then invocations_of invoke rest event pressed else [])
  end.

(** The record [on_hold_tap_binding_pressed] stores for a keydown [event] in a
    slot that held [old], and the state in which it takes its decisions. *)
Definition keydown_record (cfg : behavior_contextual_hold_tap_config)
    (event : zmk_behavior_binding_event) (old : active_hold_tap) (st : engine)
  : active_hold_tap :=
  mk_hold_tap (be_position event) (be_source event) (be_timestamp event)
    STATUS_UNDECIDED (select_flavor cfg (be_timestamp event) st) cfg
    (work old) (work_is_cancelled old) (-1).

Definition keydown_state (i : nat) (cfg : behavior_contextual_hold_tap_config)
    (event : zmk_behavior_binding_event) (old : active_hold_tap) (st : engine)
  : engine :=
  with_undecided (Some i) (set_hold_tap i (keydown_record cfg event old st) st).

(** Two states with the same module state proper: they differ in the sink
    and in [last_tapped] at most. *)
Definition same_store (st st' : engine) : Prop :=
  undecided_hold_tap st' = undecided_hold_tap st
  /\ active_hold_taps st' = active_hold_taps st
  /\ captured_events st' = captured_events st.

(** Every slot in use whose hold-tap is still undecided is the one
    [undecided_hold_tap] points to; so at most one hold-tap is undecided. *)
Definition one_undecided (st : engine) : Prop :=
  forall j ht,
    active_hold_taps st !! j = Some ht ->
    status_of ht = STATUS_UNDECIDED ->
    position ht <> CHT_POSITION_NOT_USED ->
    undecided_hold_tap st = Some j.

Definition raise_keeps_one_undecided (raise : captured_event -> engine -> engine)
  : Prop :=
  forall e st, one_undecided st -> one_undecided (raise e st).

(** Two pipelines that do the same to a state lighter than [m]. *)
Definition agree_below (m : nat) (r1 r2 : captured_event -> engine -> engine) : Prop :=
  forall e st,
    (weight st < m)%nat ->
    r1 e st = r2 e st /\ (weight (r1 e st) <= weight st + 2)%nat.

(** Two states whose capture buffer and undecided hold-tap are the same. *)
Definition same_buffer (st st' : engine) : Prop :=
  undecided_hold_tap st' = undecided_hold_tap st
  /\ captured_events st' = captured_events st.

(** The buffer in the middle of a drain that has vacated its first [k] slots:
    events captured again since ([again]), then vacated slots, at least one
    and at least [gmin] of them while a hold-tap is undecided, then [rest],
    the slots the drain has not reached. *)
Definition mid_drain (rest : list captured_event) (k gmin : nat) (st : engine) : Prop :=
  exists again g,
    captured_events st = again ++ replicate g ET_NONE ++ rest
    /\ (length again + g = k)%nat
    /\ Forall occupied again
    /\ (undecided_hold_tap st = None -> again = [])
    /\ (1 <= g)%nat
    /\ (undecided_hold_tap st <> None -> gmin <= g)%nat.

(** What a drain needs of the pipeline it raises into: an event raised while
    two slots are vacant is captured again below the slots not yet reached,
    if at all. *)
Definition raise_keeps_rest (raise : captured_event -> engine -> engine) : Prop :=
  forall rest k e st, mid_drain rest k 2 st -> mid_drain rest k 1 (raise e st).

(** The last two steps of [on_hold_tap_binding_released] for the record
    [hold_tap] of slot [i]: a lingering hold is released, then the slot is
    cleared, or marked when its work item is already running. *)
Definition release_and_clean_up
    (invoke : zmk_behavior_binding -> zmk_behavior_binding_event -> bool -> Z)
    (i : nat) (hold_tap : active_hold_tap) (work_cancel_result : Z) (st : engine)
  : engine :=
  let st1 :=
    if hold_while_undecided (config hold_tap)
       && hold_while_undecided_linger (config hold_tap)
    then snd (release_hold_binding invoke hold_tap st)
    else st in
  if work_cancel_result =? - EINPROGRESS
  then set_hold_tap i (set_work_is_cancelled true hold_tap) st1
  else clear_hold_tap i st1.

(** ** Further conditions and sample states *)

(** A slot of [active_hold_taps] that holds a hold-tap. *)
Definition in_use (ht : active_hold_tap) : Prop := position ht <> CHT_POSITION_NOT_USED.

(** The hold-taps [update_hold_status_for_retro_tap] turns into interrupted
    holds when a key at [ignore_position] changes state: those in use, at
    another position, configured for retro-tap and held by the timer. *)
Definition retro_tap_pending (ignore_position : Z) (ht : active_hold_tap) : bool :=
  negb ((position ht =? ignore_position)
        || (position ht =? CHT_POSITION_NOT_USED)
        || negb (retro_tap (config ht)))
  && bool_decide (status_of ht = STATUS_HOLD_TIMER).

Definition interrupt_retro_tap (ignore_position : Z) (ht : active_hold_tap)
  : active_hold_tap :=
  if retro_tap_pending ignore_position ht
  then set_status STATUS_HOLD_INTERRUPT ht else ht.

(** The calls of the action sink that go with it: the hold bindings of each
    such hold-tap, unless [hold_while_undecided] has pressed them already. *)
Definition retro_tap_hold_presses
    (invoke : zmk_behavior_binding -> zmk_behavior_binding_event -> bool -> Z)
    (ignore_position : Z) (ht : active_hold_tap) : list invocation :=
  if retro_tap_pending ignore_position ht && negb (hold_while_undecided (config ht))
  then invocations_of invoke (hold_bindings (config ht)) (binding_event_of ht) true
  else [].

(** The capture buffer has no holes: the events that wait, in the order they
    came, then the free slots; and nothing waits unless a hold-tap is
    undecided. *)
Definition compact (st : engine) : Prop :=
  exists waiting n,
    captured_events st = waiting ++ replicate n ET_NONE
    /\ Forall occupied waiting
    /\ (undecided_hold_tap st = None -> waiting = []).

(** [undecided_hold_tap], when it is set, points to a slot of
    [active_hold_taps] whose hold-tap is still undecided. *)
Definition undecided_is_valid (st : engine) : Prop :=
  forall u,
    undecided_hold_tap st = Some u ->
    exists ht, active_hold_taps st !! u = Some ht /\ status_of ht = STATUS_UNDECIDED.

(** From [st] to [st'] the last-key tracker has not gone back, and the
    undecided pointer has stayed valid. *)
Definition advances (st st' : engine) : Prop :=
  lk_timestamp (last_key st) <= lk_timestamp (last_key st')
  /\ (lk_valid (last_key st) = true -> lk_valid (last_key st') = true)
  /\ (undecided_is_valid st -> undecided_is_valid st').

(** Two states with the same undecided pointer, last key and statuses. *)
Definition same_core (st st' : engine) : Prop :=
  undecided_hold_tap st' = undecided_hold_tap st
  /\ last_key st' = last_key st
  /\ forall j, (status_of <$> active_hold_taps st' !! j)
               = (status_of <$> active_hold_taps st !! j).

Definition raise_advances (raise : captured_event -> engine -> engine) : Prop :=
  forall e st, advances st (raise e st).

(** A basic keycode: one that fits the tap field of a mod-tap or layer-tap. *)
Definition is_basic_keycode (k : Z) : Prop := 0 <= k <= 0xFF.

(** The hold-tap of [retro_config] at position 10, held past its tapping term
    with no other key pressed since; and a hold-tap at position 10 that has
    been decided TAP while its timer is still scheduled. *)
Definition retro_held : engine :=
  set_hold_tap 0
    (mk_hold_tap 10 0 0 STATUS_HOLD_TIMER FLAVOR_BALANCED retro_config None false (-1))
    (engine_init 2 4).

Definition tapped_early : engine :=
  set_hold_tap 0
    (mk_hold_tap 10 0 0 STATUS_TAP FLAVOR_BALANCED (sample_config FLAVOR_BALANCED)
       (Some 200) false (-1))
    (engine_init 2 4).

(** A behaviour that fails with -EINVAL (-22) when asked for keycode 5. *)
Definition reject_5 : zmk_behavior_binding -> zmk_behavior_binding_event -> bool -> Z :=
  fun b _ _ => if param1 b =? 5 then -22 else 0.

(** A hold-tap that is tap-preferred after a space (keycode 44) typed at most
    150 ms before, and balanced otherwise. *)
Definition contextual_config : behavior_contextual_hold_tap_config :=
  mk_config 200 0 0 FLAVOR_BALANCED FLAVOR_TAP_PREFERRED false false false false []
    [kp 4] [kp 225] [44] 150.

(** A space typed on the thumb key [LT (NAV, KC_SPC)] of the primary base
    layer, nothing sent since. *)
Definition after_thumb_space : Magic.qmk :=
  Magic.mk_qmk (Userspace.LT Userspace.NAV Magic.KC_SPC) 0 0 Magic.BASE_PRIMARY [].

(** ** The record of a decided hold-tap while events are replayed *)

(** An event of the key at position [p]. *)
Definition is_of_position (p : Z) (e : captured_event) : Prop :=
  match e with
  | ET_POS_CHANGED ev => ps_position ev = p
  | _ => False
  end.

(** No event of the key at position [p] waits in the capture buffer. *)
Definition no_event_of (p : Z) (st : engine) : Prop :=
  Forall (fun e => ~ is_of_position p e) (captured_events st).

(** What the record [decided] of a decided hold-tap has become once key events
    have been replayed: itself, or, when it was decided HOLD_TIMER under
    [retro_tap], the interrupted hold that [update_hold_status_for_retro_tap]
    makes of it at the next key event. *)
Definition after_replay (decided r : active_hold_tap) : Prop :=
  r = decided
  \/ (retro_tap (config decided) = true
      /\ status_of decided = STATUS_HOLD_TIMER
      /\ r = set_status STATUS_HOLD_INTERRUPT decided).

(** Slot [i] holds the decided record, [undecided_hold_tap] points elsewhere,
    and no event of its key waits. *)
Definition keeps_decided (i : nat) (decided : active_hold_tap) (st : engine) : Prop :=
  (exists r, active_hold_taps st !! i = Some r /\ after_replay decided r)
  /\ undecided_hold_tap st <> Some i
  /\ no_event_of (position decided) st.

(** What the decision step needs of the pipeline it replays into: an event of
    another key leaves the record of a decided hold-tap alone. *)
Definition raise_keeps_decided (raise : captured_event -> engine -> engine) : Prop :=
  forall i decided e st,
    in_use decided ->
    status_of decided <> STATUS_UNDECIDED ->
    ~ is_of_position (position decided) e ->
    keeps_decided i decided st -> keeps_decided i decided (raise e st).

(** A hold-tap of [cfg] undecided at position 10, the press of position 20
    noted as its first other key and captured. *)
Definition captured_press_state (cfg : behavior_contextual_hold_tap_config) : engine :=
  mk_engine (Some 0%nat)
    [mk_hold_tap 10 0 0 STATUS_UNDECIDED (normal_flavor cfg) cfg (Some 200) false 20]
    [key_down 20 30; ET_NONE; ET_NONE; ET_NONE]
    last_tapped_init (mk_last_key 0 0 false) [] [key_down 10 0] [] 0.

(* ==== THEOREMS ==== *)

(** ** Machine integers *)

Lemma wrap_int64_id z : in_int64 z -> wrap_int64 z = z.
Proof.
  unfold in_int64, wrap_int64. intros H.
  rewrite Z.mod_small by lia. lia.
Qed.

Lemma add64_exact a b : in_int64 (a + b) -> add64 a b = a + b.
Proof. apply wrap_int64_id. Qed.

Lemma sub64_exact a b : in_int64 (a - b) -> sub64 a b = a - b.
Proof. apply wrap_int64_id. Qed.

(** ** The decision step *)

Section Decision.

Variable invoke : zmk_behavior_binding -> zmk_behavior_binding_event -> bool -> Z.
Variable raise : captured_event -> engine -> engine.

Lemma flavor_switch_table f dm :
  flavor_switch f dm STATUS_UNDECIDED
  = default STATUS_UNDECIDED (flavor_transition_table f dm).
Proof. destruct f, dm; reflexivity. Qed.

Lemma flavor_table_decides f dm s :
  flavor_transition_table f dm = Some s -> s <> STATUS_UNDECIDED.
Proof. destruct f, dm; simpl; intros [= <-]; discriminate. Qed.

Lemma decide_hold_tap_undecided i dm st hold_tap :
  active_hold_taps st !! i = Some hold_tap ->
  status_of hold_tap = STATUS_UNDECIDED ->
  undecided_hold_tap st = Some i ->
  dm <> HT_KEY_DOWN ->
  decide_hold_tap invoke raise i dm st =
    match flavor_transition_table (selected_flavor hold_tap) dm with
    | None => st
    | Some s =>
        commit_decision invoke raise i (decide_positional_hold (set_status s hold_tap)) st
    end.
Proof.
  intros Hi Hs Hu Hdm. unfold decide_hold_tap. rewrite Hi, Hs, Hu.
  rewrite !bool_decide_eq_true_2 by reflexivity. simpl negb. cbv iota.
  rewrite (bool_decide_eq_false_2 (dm = HT_KEY_DOWN)) by assumption.
  rewrite andb_false_r, flavor_switch_table.
  destruct (flavor_transition_table (selected_flavor hold_tap) dm) as [s|] eqn:Ht;
    simpl.
  - rewrite bool_decide_eq_false_2 by (eapply flavor_table_decides; eauto).
    reflexivity.
  - reflexivity.
Qed.

Lemma decide_hold_tap_decided i dm st hold_tap :
  active_hold_taps st !! i = Some hold_tap ->
  status_of hold_tap <> STATUS_UNDECIDED ->
  decide_hold_tap invoke raise i dm st = st.
Proof.
  intros Hi Hs. unfold decide_hold_tap. rewrite Hi.
  rewrite bool_decide_eq_false_2 by assumption. reflexivity.
Qed.

(** *** Functions that only write to the sink *)

Lemma with_sink_sink st : with_sink (sink st) st = st.
Proof. destruct st; reflexivity. Qed.

Lemma with_sink_twice l1 l2 st : with_sink l2 (with_sink l1 st) = with_sink l2 st.
Proof. reflexivity. Qed.

Lemma invoke_binding_set_sink bindings event pressed st :
  snd (invoke_binding_set invoke bindings event pressed st)
  = with_sink (sink st ++ invocations_of invoke bindings event pressed) st.
Proof.
  revert st. induction bindings as [|b rest IH]; intros st; simpl.
  - rewrite app_nil_r. symmetry. apply with_sink_sink.
  - destruct (invoke b event pressed =? 0).
    + rewrite IH. simpl. rewrite <- app_assoc. reflexivity.
    + reflexivity.
Qed.

Lemma same_store_refl st : same_store st st.
Proof. repeat split. Qed.

Lemma same_store_trans st1 st2 st3 :
  same_store st1 st2 -> same_store st2 st3 -> same_store st1 st3.
Proof. unfold same_store. intros (?&?&?) (?&?&?). repeat split; congruence. Qed.

Lemma invoke_binding_set_store bindings event pressed st :
  same_store st (snd (invoke_binding_set invoke bindings event pressed st)).
Proof. rewrite invoke_binding_set_sink. repeat split. Qed.

Lemma press_binding_store hold_tap st :
  same_store st (snd (press_binding invoke hold_tap st)).
Proof.
  unfold press_binding, press_hold_binding, press_tap_binding, release_hold_binding.
  repeat match goal with
         | |- context [if ?b then _ else _] => destruct b
         end;
    try apply same_store_refl;
    rewrite ?invoke_binding_set_sink; repeat split.
Qed.

Lemma release_binding_store hold_tap st :
  same_store st (snd (release_binding invoke hold_tap st)).
Proof.
  unfold release_binding, release_hold_binding, release_tap_binding.
  repeat match goal with
         | |- context [if ?b then _ else _] => destruct b
         end;
    try apply same_store_refl;
    rewrite ?invoke_binding_set_sink; repeat split.
Qed.

(** *** Nothing captured: the drain raises nothing *)

Lemma release_captured_events_front_free st :
  front_free st -> release_captured_events raise st = st.
Proof.
  unfold front_free, release_captured_events. intros H.
  destruct (undecided_hold_tap st); [reflexivity|].
  destruct (captured_events st) as [|e l] eqn:E; simpl.
  - reflexivity.
  - rewrite E. simpl. subst e. reflexivity.
Qed.

Lemma front_free_same_store st st' :
  same_store st st' -> front_free st -> front_free st'.
Proof. unfold same_store, front_free. intros (_&_&->). auto. Qed.


(** *** The positional override *)

Lemma is_first_other_key_pressed_trigger_key_spec hold_tap :
  is_first_other_key_pressed_trigger_key hold_tap = true
  <-> position_of_first_other_key_pressed hold_tap
        ∈ hold_trigger_key_positions (config hold_tap).
Proof.
  unfold is_first_other_key_pressed_trigger_key.
  rewrite existsb_exists, list_elem_of_In. split.
  - intros (p & Hin & Hp). apply Z.eqb_eq in Hp. congruence.
  - intros Hin. eexists. split; [exact Hin|]. apply Z.eqb_refl.
Qed.

Lemma trigger_positions_len_pos cfg :
  (hold_trigger_key_positions_len cfg >? 0) = true
  <-> hold_trigger_key_positions cfg <> [].
Proof.
  unfold hold_trigger_key_positions_len. rewrite Z.gtb_lt.
  destruct (hold_trigger_key_positions cfg); simpl length; split;
    intros; try lia; congruence.
Qed.

Lemma decide_positional_hold_spec hold_tap :
  decide_positional_hold hold_tap
  = if decide (positional_override_applies hold_tap)
    then set_status STATUS_TAP hold_tap else hold_tap.
Proof.
  unfold decide_positional_hold.
  destruct (decide (positional_override_applies hold_tap)) as [(H1 & H2 & H3)|H].
  - apply trigger_positions_len_pos in H1. rewrite H1. simpl negb. cbv iota.
    apply Z.eqb_neq in H2. rewrite H2.
    destruct (is_first_other_key_pressed_trigger_key hold_tap) eqn:E;
      [|reflexivity].
    apply is_first_other_key_pressed_trigger_key_spec in E. contradiction.
  - destruct (hold_trigger_key_positions_len (config hold_tap) >? 0) eqn:E1;
      [|reflexivity].
    simpl negb. cbv iota.
    destruct (position_of_first_other_key_pressed hold_tap =? -1) eqn:E2;
      [reflexivity|].
    destruct (is_first_other_key_pressed_trigger_key hold_tap) eqn:E3;
      [reflexivity|].
    exfalso. apply H. repeat split.
    + apply trigger_positions_len_pos. exact E1.
    + apply Z.eqb_neq. exact E2.
    + intros Hin. apply is_first_other_key_pressed_trigger_key_spec in Hin.
      congruence.
Qed.

End Decision.

(** ** Hold-tap keydown *)

Lemma find_hold_tap_from_Some slots k pos i :
  find_hold_tap_from slots k pos = Some i ->
  (k <= i)%nat /\ exists ht, slots !! (i - k)%nat = Some ht /\ position ht = pos.
Proof.
  revert k. induction slots as [|ht rest IH]; intros k; simpl; [discriminate|].
  destruct (position ht =? pos) eqn:E.
  - intros [= <-]. split; [lia|]. exists ht. rewrite Nat.sub_diag.
    split; [reflexivity|]. apply Z.eqb_eq. exact E.
  - intros H. apply IH in H as (Hk & ht' & Hl & Hp). split; [lia|].
    exists ht'. split; [|exact Hp].
    replace (i - k)%nat with (S (i - S k)) by lia. exact Hl.
Qed.

Lemma find_free_slot st i :
  find_hold_tap_from (active_hold_taps st) 0 CHT_POSITION_NOT_USED = Some i ->
  exists ht, active_hold_taps st !! i = Some ht.
Proof.
  intros H. apply find_hold_tap_from_Some in H as (_ & ht & Hl & _).
  rewrite Nat.sub_0_r in Hl. eauto.
Qed.

Lemma is_quick_tap_spec hold_tap st :
  in_int64 (lt_timestamp (last_tapped st) + require_prior_idle_ms (config hold_tap)) ->
  in_int64 (lt_timestamp (last_tapped st) + quick_tap_ms (config hold_tap)) ->
  is_quick_tap hold_tap st = true
  <-> quick_tap_condition (config hold_tap) (binding_event_of hold_tap) (last_tapped st).
Proof.
  intros H1 H2. unfold is_quick_tap, quick_tap_condition, within_ms.
  rewrite !add64_exact by assumption. simpl.
  destruct (_ >? timestamp hold_tap) eqn:E1.
  - apply Z.gtb_lt in E1. split; [intros _; left; lia|reflexivity].
  - rewrite andb_true_iff, Z.eqb_eq, Z.gtb_lt.
    assert (~ (lt_timestamp (last_tapped st) + require_prior_idle_ms (config hold_tap)
               > timestamp hold_tap)).
    { intros H. apply Z.gt_lt, Z.gtb_lt in H. congruence. }
    split.
    + intros (Hp & Hq). right. split; [exact Hp|lia].
    + intros [Hi|(Hp & Hq)]; [lia|]. split; [exact Hp|lia].
Qed.

Section Keydown.

Variable invoke : zmk_behavior_binding -> zmk_behavior_binding_event -> bool -> Z.
Variable raise : captured_event -> engine -> engine.



Lemma on_hold_tap_binding_pressed_accepted cfg event now st i old :
  undecided_hold_tap st = None ->
  find_hold_tap_from (active_hold_taps st) 0 CHT_POSITION_NOT_USED = Some i ->
  active_hold_taps st !! i = Some old ->
  let rec := keydown_record cfg event old st in
  let st2 := keydown_state i cfg event old st in
  on_hold_tap_binding_pressed invoke raise cfg event now st
  = (ZMK_BEHAVIOR_OPAQUE,
     schedule_tapping_term_timer i cfg now
       (decide_hold_tap invoke raise i HT_KEY_DOWN
          (if is_quick_tap rec st2
           then decide_hold_tap invoke raise i HT_QUICK_TAP st2 else st2))).
Proof.
  intros Hu Hfind Hold rec st2.
  assert (Hlt : (i < length (active_hold_taps st))%nat)
    by (eapply lookup_lt_Some; eauto).
  unfold on_hold_tap_binding_pressed, store_hold_tap. rewrite Hu, Hfind, Hold.
  cbv zeta.
  set (rec0 := mk_hold_tap _ _ _ _ (normal_flavor cfg) _ _ _ _).
  assert (E1 : active_hold_taps (set_hold_tap i rec0 st) !! i = Some rec0).
  { simpl. apply list_lookup_insert_eq. exact Hlt. }
  rewrite E1.
  assert (E2 : with_undecided (Some i)
                 (set_hold_tap i
                    (set_selected_flavor
                       (select_flavor cfg (be_timestamp event) (set_hold_tap i rec0 st))
                       rec0)
                    (set_hold_tap i rec0 st)) = st2).
  { subst st2. unfold keydown_state, set_hold_tap, with_hold_taps, with_undecided.
    simpl. rewrite list_insert_insert_eq. reflexivity. }
  rewrite E2.
  assert (E3 : active_hold_taps st2 !! i = Some rec).
  { subst st2. simpl. apply list_lookup_insert_eq. exact Hlt. }
  rewrite E3. reflexivity.
Qed.



End Keydown.

(** ** The status a decision leaves in the slot *)

Lemma capture_in_Forall (P : captured_event -> Prop) slots data slots' :
  capture_in slots data = Some slots' ->
  P data -> Forall P slots -> Forall P slots'.
Proof.
  revert slots'. induction slots as [|e rest IH]; intros slots' Hc Hd Hs;
    [discriminate|].
  apply Forall_cons in Hs as (He & Hrest).
  destruct e as [|ev|ev]; simpl in Hc.
  - injection Hc as <-. constructor; assumption.
  - destruct (capture_in rest data) as [l|]; [|discriminate].
    injection Hc as <-. constructor; [exact He|]. apply IH; auto.
  - destruct (capture_in rest data) as [l|]; [|discriminate].
    injection Hc as <-. constructor; [exact He|]. apply IH; auto.
Qed.

Section Settled.

Variable invoke : zmk_behavior_binding -> zmk_behavior_binding_event -> bool -> Z.
Variable raise : captured_event -> engine -> engine.
Variable i : nat.
Variable decided : active_hold_tap.
Hypothesis decided_in_use : in_use decided.
Hypothesis decided_status : status_of decided <> STATUS_UNDECIDED.
Hypothesis raise_ok :
  forall e st,
    ~ is_of_position (position decided) e ->
    keeps_decided i decided st -> keeps_decided i decided (raise e st).

Lemma after_replay_position r : after_replay decided r -> position r = position decided.
Proof. intros [->|(_ & _ & ->)]; reflexivity. Qed.

Lemma after_replay_status r : after_replay decided r -> status_of r <> STATUS_UNDECIDED.
Proof. intros [->|(_ & _ & ->)]; [exact decided_status|discriminate]. Qed.

Lemma keeps_decided_same_store st st' :
  same_store st st' -> keeps_decided i decided st -> keeps_decided i decided st'.
Proof.
  intros (Hu & Hs & Hc) (H1 & H2 & H3).
  unfold keeps_decided, no_event_of. rewrite Hu, Hs, Hc. auto.
Qed.

Lemma keeps_decided_set_other j ht st :
  j <> i -> keeps_decided i decided st -> keeps_decided i decided (set_hold_tap j ht st).
Proof.
  intros Hne ((r & Hr & Ha) & H2 & H3). split; [|split; assumption].
  exists r. split; [|exact Ha].
  simpl. rewrite list_lookup_insert_ne by exact Hne. exact Hr.
Qed.

Lemma keeps_decided_with_undecided u st :
  u <> Some i -> keeps_decided i decided st ->
  keeps_decided i decided (with_undecided u st).
Proof. intros Hu (H1 & _ & H3). repeat split; assumption. Qed.

Lemma keeps_decided_not_undecided j st :
  keeps_decided i decided st -> undecided_hold_tap st = Some j -> j <> i.
Proof. intros (_ & H & _) Hu ->. contradiction. Qed.

Lemma keeps_decided_in_use_slot j ht st :
  keeps_decided i decided st -> active_hold_taps st !! j = Some ht ->
  position ht <> position decided -> j <> i.
Proof.
  intros ((r & Hr & Ha) & _) Hj Hp ->.
  rewrite Hr in Hj. injection Hj as <-.
  apply after_replay_position in Ha. contradiction.
Qed.

Lemma release_captured_events_from_keeps n k st :
  keeps_decided i decided st ->
  keeps_decided i decided (release_captured_events_from raise n k st).
Proof.
  revert k st. induction n as [|n IH]; intros k st H; simpl; [exact H|].
  destruct (captured_events st !! k) as [e|] eqn:E; [|exact H].
  assert (He : ~ is_of_position (position decided) e).
  { destruct H as (_ & _ & H3). unfold no_event_of in H3.
    rewrite Forall_lookup in H3. exact (H3 k e E). }
  assert (Hv : keeps_decided i decided
                 (with_captured (<[k := ET_NONE]> (captured_events st)) st)).
  { destruct H as (H1 & H2 & H3). repeat split; try assumption.
    unfold no_event_of. simpl. apply Forall_insert; [exact H3|].
    simpl. tauto. }
  destruct e as [|ev|ev]; [exact H| |]; apply IH, raise_ok; try exact He;
    simpl; destruct (undecided_hold_tap st);
    try exact Hv;
    (eapply keeps_decided_same_store; [|exact Hv]; repeat split).
Qed.

Lemma release_captured_events_keeps st :
  keeps_decided i decided st -> keeps_decided i decided (release_captured_events raise st).
Proof.
  intros H. unfold release_captured_events.
  destruct (undecided_hold_tap st); [exact H|].
  apply release_captured_events_from_keeps, H.
Qed.

Lemma commit_decision_keeps j record st :
  j <> i -> keeps_decided i decided st ->
  keeps_decided i decided (commit_decision invoke raise j record st).
Proof.
  intros Hne H. unfold commit_decision.
  apply release_captured_events_keeps.
  eapply keeps_decided_same_store; [apply press_binding_store|].
  apply keeps_decided_with_undecided; [discriminate|].
  apply keeps_decided_set_other; assumption.
Qed.

Lemma decide_hold_tap_keeps j dm st :
  keeps_decided i decided st ->
  keeps_decided i decided (decide_hold_tap invoke raise j dm st).
Proof.
  intros H. unfold decide_hold_tap.
  destruct (active_hold_taps st !! j) as [hold_tap|]; [|exact H].
  destruct (bool_decide (status_of hold_tap = STATUS_UNDECIDED)); simpl;
    [|exact H].
  destruct (decide (undecided_hold_tap st = Some j)) as [Hu|Hu];
    [|rewrite bool_decide_eq_false_2 by exact Hu; exact H].
  rewrite bool_decide_eq_true_2 by exact Hu. simpl.
  destruct (_ && _).
  { eapply keeps_decided_same_store; [apply invoke_binding_set_store|exact H]. }
  destruct (bool_decide _); [exact H|].
  apply commit_decision_keeps; [|exact H].
  eapply keeps_decided_not_undecided; eauto.
Qed.

Lemma decide_retro_tap_keeps j st :
  j <> i -> keeps_decided i decided st ->
  keeps_decided i decided (decide_retro_tap invoke j st).
Proof.
  intros Hne H. unfold decide_retro_tap.
  destruct (active_hold_taps st !! j) as [ht|]; [|exact H].
  destruct (negb _); [exact H|]. destruct (bool_decide _); [|exact H].
  eapply keeps_decided_same_store; [apply press_binding_store|].
  apply keeps_decided_set_other; [exact Hne|].
  eapply keeps_decided_same_store; [apply release_binding_store|exact H].
Qed.

Lemma update_hold_status_for_retro_tap_from_keeps n k pos st :
  keeps_decided i decided st ->
  keeps_decided i decided (update_hold_status_for_retro_tap_from invoke n k pos st).
Proof.
  revert k st. induction n as [|n IH]; intros k st H; simpl; [exact H|].
  apply IH.
  destruct (active_hold_taps st !! k) as [ht|] eqn:Hk; [|exact H].
  destruct (_ || _) eqn:Hskip; [exact H|].
  destruct (bool_decide (status_of ht = STATUS_HOLD_TIMER)) eqn:Hs; [|exact H].
  eapply keeps_decided_same_store; [apply press_binding_store|].
  destruct (decide (k = i)) as [->|Hne];
    [|apply keeps_decided_set_other; assumption].
  destruct H as ((r & Hr & Ha) & H2 & H3).
  rewrite Hr in Hk. injection Hk as ->.
  apply bool_decide_eq_true_1 in Hs.
  apply orb_false_iff in Hskip as (_ & Hretro).
  apply negb_false_iff in Hretro.
  assert (ht = decided) as ->.
  { destruct Ha as [->|(_ & _ & ->)]; [reflexivity|discriminate Hs]. }
  split; [|split; assumption].
  exists (set_status STATUS_HOLD_INTERRUPT decided). split.
  - simpl. apply list_lookup_insert_eq. eapply lookup_lt_Some; eauto.
  - right. repeat split; assumption.
Qed.

Lemma clear_hold_tap_keeps j st :
  j <> i -> keeps_decided i decided st -> keeps_decided i decided (clear_hold_tap j st).
Proof.
  intros Hne H. unfold clear_hold_tap.
  destruct (active_hold_taps st !! j); [|exact H].
  apply keeps_decided_set_other; assumption.
Qed.

Lemma schedule_tapping_term_timer_keeps j cfg now st :
  j <> i -> keeps_decided i decided st ->
  keeps_decided i decided (schedule_tapping_term_timer j cfg now st).
Proof.
  intros Hne H. unfold schedule_tapping_term_timer, k_work_schedule.
  destruct (active_hold_taps st !! j) as [ht|]; [|exact H].
  destruct (work ht); [exact H|].
  apply keeps_decided_set_other; assumption.
Qed.

Lemma on_hold_tap_binding_pressed_keeps cfg event now st :
  keeps_decided i decided st ->
  keeps_decided i decided (snd (on_hold_tap_binding_pressed invoke raise cfg event now st)).
Proof.
  intros H. unfold on_hold_tap_binding_pressed.
  destruct (undecided_hold_tap st) eqn:Hu; [exact H|].
  unfold store_hold_tap.
  destruct (find_hold_tap_from _ _ _) as [j|] eqn:Hfind;
    [|eapply keeps_decided_same_store; [|exact H]; repeat split].
  destruct (active_hold_taps st !! j) as [old|] eqn:Hold;
    [|eapply keeps_decided_same_store; [|exact H]; repeat split].
  assert (Hne : j <> i).
  { apply find_hold_tap_from_Some in Hfind as (_ & ht & Hj & Hp).
    rewrite Nat.sub_0_r in Hj.
    eapply keeps_decided_in_use_slot; [exact H|exact Hj|].
    rewrite Hp. intros Heq. apply decided_in_use. symmetry. exact Heq. }
  cbv zeta. cbn [snd].
  apply schedule_tapping_term_timer_keeps; [exact Hne|].
  apply decide_hold_tap_keeps.
  set (st2 := with_undecided (Some j) _).
  assert (H2 : keeps_decided i decided st2).
  { subst st2. apply keeps_decided_with_undecided; [congruence|].
    destruct (active_hold_taps (set_hold_tap j _ st) !! j);
      repeat apply keeps_decided_set_other; assumption. }
  destruct (active_hold_taps st2 !! j) as [ht|]; [|exact H2].
  destruct (is_quick_tap _ _); [|exact H2].
  apply decide_hold_tap_keeps, H2.
Qed.

Lemma find_hold_tap_position pos st j :
  find_hold_tap pos st = Some j ->
  exists ht, active_hold_taps st !! j = Some ht /\ position ht = pos.
Proof.
  unfold find_hold_tap. intros H.
  apply find_hold_tap_from_Some in H as (_ & ht & Hj & Hp).
  rewrite Nat.sub_0_r in Hj. eauto.
Qed.

Lemma on_hold_tap_binding_released_keeps event result st :
  be_position event <> position decided ->
  keeps_decided i decided st ->
  keeps_decided i decided (snd (on_hold_tap_binding_released invoke raise event result st)).
Proof.
  intros Hpos H. unfold on_hold_tap_binding_released.
  destruct (find_hold_tap _ _) as [j|] eqn:Hfind;
    [|eapply keeps_decided_same_store; [|exact H]; repeat split].
  assert (Hne : j <> i).
  { apply find_hold_tap_position in Hfind as (ht & Hj & Hp).
    eapply keeps_decided_in_use_slot; [exact H|exact Hj|]. congruence. }
  cbv zeta. cbn [snd].
  set (st0 := k_work_cancel_delayable j st).
  assert (H0 : keeps_decided i decided st0).
  { subst st0. unfold k_work_cancel_delayable.
    destruct (active_hold_taps st !! j); [|exact H].
    apply keeps_decided_set_other; assumption. }
  clearbody st0.
  set (st1 := match active_hold_taps st0 !! j with Some _ => _ | None => _ end).
  assert (H1 : keeps_decided i decided st1).
  { subst st1. destruct (active_hold_taps st0 !! j); [|exact H0].
    destruct (_ >? _); [|exact H0]. apply decide_hold_tap_keeps, H0. }
  clearbody st1.
  set (st3 := decide_retro_tap invoke j _).
  assert (H3 : keeps_decided i decided st3).
  { apply decide_retro_tap_keeps; [exact Hne|]. apply decide_hold_tap_keeps, H1. }
  clearbody st3.
  set (st4 := match active_hold_taps st3 !! j with Some _ => _ | None => _ end).
  assert (H4 : keeps_decided i decided st4).
  { subst st4. destruct (active_hold_taps st3 !! j); [|exact H3].
    eapply keeps_decided_same_store; [apply release_binding_store|exact H3]. }
  clearbody st4.
  set (st5 := match active_hold_taps st4 !! j with Some _ => _ | None => _ end).
  assert (H5 : keeps_decided i decided st5).
  { subst st5. destruct (active_hold_taps st4 !! j); [|exact H4].
    destruct (_ && _); [|exact H4].
    eapply keeps_decided_same_store; [apply invoke_binding_set_store|exact H4]. }
  clearbody st5.
  destruct (_ =? _); [|apply clear_hold_tap_keeps; assumption].
  destruct (active_hold_taps st5 !! j); [|exact H5].
  apply keeps_decided_set_other; assumption.
Qed.

Lemma capture_event_keeps data st :
  ~ is_of_position (position decided) data ->
  keeps_decided i decided st -> keeps_decided i decided (snd (capture_event data st)).
Proof.
  intros Hd H. unfold capture_event.
  destruct (capture_in _ _) as [slots|] eqn:Hc; [|exact H].
  destruct H as (H1 & H2 & H3). repeat split; try assumption.
  unfold no_event_of. simpl.
  eapply capture_in_Forall; [exact Hc|exact Hd|exact H3].
Qed.

Lemma position_state_changed_listener_keeps ev st :
  ps_position ev <> position decided ->
  keeps_decided i decided st ->
  keeps_decided i decided (snd (position_state_changed_listener invoke raise ev st)).
Proof.
  intros Hpos H. unfold position_state_changed_listener.
  set (st0 := update_hold_status_for_retro_tap invoke (ps_position ev) st).
  assert (H0 : keeps_decided i decided st0)
    by apply update_hold_status_for_retro_tap_from_keeps, H.
  clearbody st0. cbv zeta.
  destruct (undecided_hold_tap st0) as [u|] eqn:Hu; [|exact H0].
  assert (Hne : u <> i) by (eapply keeps_decided_not_undecided; eauto).
  destruct (active_hold_taps st0 !! u) as [ht0|] eqn:Hi; [|exact H0].
  set (st1 := if _ && _ then _ else st0).
  assert (H1 : keeps_decided i decided st1).
  { subst st1. destruct (_ && _); [|exact H0].
    apply keeps_decided_set_other; assumption. }
  clearbody st1.
  destruct (position ht0 =? ps_position ev).
  { destruct (ps_state ev); [|exact H1].
    eapply keeps_decided_same_store; [|exact H1]. repeat split. }
  set (st2 := if _ >? _ then _ else st1).
  assert (H2 : keeps_decided i decided st2).
  { subst st2. destruct (_ >? _); [|exact H1].
    apply decide_hold_tap_keeps, H1. }
  clearbody st2.
  destruct (undecided_hold_tap st2) as [u'|]; [|exact H2].
  destruct (negb (ps_state ev) && negb (have_captured_keydown_event _ st2));
    cbn [snd]; [exact H2|].
  apply decide_hold_tap_keeps, capture_event_keeps; [|exact H2].
  simpl. exact Hpos.
Qed.

Lemma keycode_state_changed_listener_keeps ev st :
  keeps_decided i decided st ->
  keeps_decided i decided (snd (keycode_state_changed_listener ev st)).
Proof.
  intros H. unfold keycode_state_changed_listener.
  set (st0 := if _ && _ then _ else st).
  assert (H0 : keeps_decided i decided st0).
  { subst st0. destruct (_ && _); [|exact H].
    unfold store_last_tapped. destruct (_ >? _); [|exact H].
    eapply keeps_decided_same_store; [|exact H]. repeat split. }
  clearbody st0. cbv zeta.
  destruct (undecided_hold_tap st0) as [u|]; [|exact H0].
  destruct (negb _); [exact H0|].
  destruct (active_hold_taps st0 !! u) as [ht|]; [|exact H0].
  destruct (_ && _); cbn [snd]; [exact H0|].
  apply capture_event_keeps; [|exact H0]. simpl. tauto.
Qed.

End Settled.

Lemma event_manager_handle_keeps_decided env raise now :
  raise_keeps_decided raise ->
  raise_keeps_decided (event_manager_handle env raise now).
Proof.
  intros Hr i decided e st Hin Hdec He H. unfold event_manager_handle.
  assert (Hraise : forall e st,
             ~ is_of_position (position decided) e ->
             keeps_decided i decided st -> keeps_decided i decided (raise e st))
    by (intros; apply Hr; assumption).
  assert (Hl : keeps_decided i decided
                 (snd (behavior_contextual_hold_tap_listener
                         (invoke_result env) raise e st))).
  { destruct e as [|ev|ev]; simpl.
    - exact H.
    - apply position_state_changed_listener_keeps; assumption.
    - apply keycode_state_changed_listener_keeps; assumption. }
  destruct (behavior_contextual_hold_tap_listener _ raise e st) as [[|] st'];
    simpl in Hl; [|exact Hl].
  cbv zeta.
  assert (Hb : keeps_decided i decided (with_bubbled (bubbled st' ++ [e]) st')).
  { eapply keeps_decided_same_store; [|exact Hl]. repeat split. }
  destruct e as [|ev|ev]; [exact Hb| |].
  - unfold keymap_apply. destruct (keymap env (ps_position ev)); [|exact Hb].
    destruct (ps_state ev).
    + apply on_hold_tap_binding_pressed_keeps; assumption.
    + apply on_hold_tap_binding_released_keeps; assumption.
  - eapply keeps_decided_same_store; [|exact Hb].
    unfold contextual_hold_tap_listener, cht_record_last_key.
    repeat match goal with |- context [if ?b then _ else _] => destruct b end;
      repeat split.
Qed.

Lemma zmk_event_raise_keeps_decided env now depth :
  raise_keeps_decided (zmk_event_raise env now depth).
Proof.
  induction depth as [|d IH]; [intros i decided e st _ _ _ H; exact H|].
  simpl. apply event_manager_handle_keeps_decided. exact IH.
Qed.

(** So is every pipeline that leaves the module's slots, pointer and buffer
    alone, such as one that hands a replayed event to the last-key tracker
    only. *)
Lemma same_store_raise_keeps_decided raise :
  (forall e st, same_store st (raise e st)) -> raise_keeps_decided raise.
Proof.
  intros Hr i decided e st _ _ _ H.
  eapply keeps_decided_same_store; [apply Hr|exact H].
Qed.

Section Moment.

Variable invoke : zmk_behavior_binding -> zmk_behavior_binding_event -> bool -> Z.
Variable raise : captured_event -> engine -> engine.
Hypothesis raise_ok : raise_keeps_decided raise.

Lemma decide_positional_hold_final s hold_tap :
  decide_positional_hold (set_status s hold_tap)
  = set_status (if decide (positional_override_applies hold_tap) then STATUS_TAP else s)
      hold_tap.
Proof.
  rewrite decide_positional_hold_spec.
  destruct (decide (positional_override_applies (set_status s hold_tap))) as [H|H];
    destruct (decide (positional_override_applies hold_tap)) as [H'|H'];
    try reflexivity; contradiction.
Qed.

(** Where the flavor table has an entry, [decide_hold_tap] returns with the
    slot holding the decided record. *)
Lemma decide_hold_tap_settles i dm st hold_tap s :
  active_hold_taps st !! i = Some hold_tap ->
  status_of hold_tap = STATUS_UNDECIDED ->
  undecided_hold_tap st = Some i ->
  in_use hold_tap ->
  no_event_of (position hold_tap) st ->
  flavor_transition_table (selected_flavor hold_tap) dm = Some s ->
  keeps_decided i
    (set_status (if decide (positional_override_applies hold_tap) then STATUS_TAP else s)
       hold_tap)
    (decide_hold_tap invoke raise i dm st).
Proof.
  intros Hi Hs Hu Hin Hno Ht.
  assert (Hdm : dm <> HT_KEY_DOWN).
  { intros ->. destruct (selected_flavor hold_tap); discriminate Ht. }
  rewrite (decide_hold_tap_undecided invoke raise i dm st hold_tap) by assumption.
  rewrite Ht, decide_positional_hold_final.
  set (record := set_status _ hold_tap).
  assert (Hdec : status_of record <> STATUS_UNDECIDED).
  { subst record. simpl. destruct (decide _); [discriminate|].
    eapply flavor_table_decides; eauto. }
  unfold commit_decision.
  apply (release_captured_events_keeps raise i record).
  { intros e st0. apply raise_ok; assumption. }
  eapply keeps_decided_same_store; [apply press_binding_store|].
  repeat split.
  - exists record. split; [|left; reflexivity].
    simpl. apply list_lookup_insert_eq. eapply lookup_lt_Some; eauto.
  - discriminate.
  - exact Hno.
Qed.



End Moment.

(** ** Draining the capture buffer *)

Lemma same_buffer_refl st : same_buffer st st.
Proof. split; reflexivity. Qed.

Lemma same_buffer_trans st1 st2 st3 :
  same_buffer st1 st2 -> same_buffer st2 st3 -> same_buffer st1 st3.
Proof. unfold same_buffer. intros (?&?) (?&?). split; congruence. Qed.

Lemma same_store_buffer st st' : same_store st st' -> same_buffer st st'.
Proof. intros (?&?&?). split; assumption. Qed.

Lemma mid_drain_same_buffer rest k gmin st st' :
  same_buffer st st' -> mid_drain rest k gmin st -> mid_drain rest k gmin st'.
Proof.
  intros (Hu & Hc) (again & g & H). exists again, g. rewrite Hu, Hc. exact H.
Qed.

Lemma mid_drain_weaken rest k gmin gmin' st :
  (gmin' <= gmin)%nat -> mid_drain rest k gmin st -> mid_drain rest k gmin' st.
Proof.
  intros Hle (again & g & H1 & H2 & H3 & H4 & H5 & H6).
  exists again, g. repeat split; try assumption. intros H. specialize (H6 H). lia.
Qed.

Lemma mid_drain_one rest k gmin st :
  mid_drain rest k gmin st -> mid_drain rest k 1 st.
Proof.
  intros (again & g & H1 & H2 & H3 & H4 & H5 & H6).
  exists again, g. repeat split; try assumption. intros _. exact H5.
Qed.

Lemma capture_in_occupied again tail data :
  Forall occupied again ->
  capture_in (again ++ ET_NONE :: tail) data = Some (again ++ data :: tail).
Proof.
  induction 1 as [|e l He _ IH]; simpl; [reflexivity|].
  rewrite IH. destruct e; [contradiction He; reflexivity| |]; reflexivity.
Qed.

Lemma lookup_mid again g (e : captured_event) tail :
  (again ++ replicate g ET_NONE ++ e :: tail) !! (length again + g)%nat = Some e.
Proof.
  rewrite lookup_app_r by lia.
  rewrite lookup_app_r by (rewrite length_replicate; lia).
  rewrite length_replicate.
  replace (length again + g - length again - g)%nat with 0%nat by lia.
  reflexivity.
Qed.

Lemma insert_mid again g (e e' : captured_event) tail :
  <[(length again + g)%nat := e']> (again ++ replicate g ET_NONE ++ e :: tail)
  = again ++ replicate g ET_NONE ++ e' :: tail.
Proof.
  rewrite insert_app_r_alt by lia.
  rewrite insert_app_r_alt by (rewrite length_replicate; lia).
  rewrite length_replicate.
  replace (length again + g - length again - g)%nat with 0%nat by lia.
  reflexivity.
Qed.

Lemma replicate_snoc_none g (l : list captured_event) :
  replicate g ET_NONE ++ ET_NONE :: l = replicate (S g) ET_NONE ++ l.
Proof.
  induction g as [|g IH]; simpl; [reflexivity|]. f_equal. exact IH.
Qed.

Section Drain.

Variable invoke : zmk_behavior_binding -> zmk_behavior_binding_event -> bool -> Z.
Variable raise : captured_event -> engine -> engine.
Hypothesis raise_ok : raise_keeps_rest raise.

(** The loop of [release_captured_events], entered at slot [j] with the
    events [events] ahead of it, raises exactly these, in this order. *)
Lemma release_captured_events_from_replay events :
  forall n j again g tail st,
    captured_events st = again ++ replicate g ET_NONE ++ events ++ tail ->
    (length again + g = j)%nat ->
    Forall occupied again ->
    Forall occupied events ->
    (undecided_hold_tap st = None -> again = []) ->
    (undecided_hold_tap st <> None -> 1 <= g)%nat ->
    (tail = [] \/ exists t, tail = ET_NONE :: t) ->
    (j + length events + length tail <= j + n)%nat ->
    release_captured_events_from raise n j st = replay raise events j st
    /\ exists again' g',
         captured_events (replay raise events j st)
         = again' ++ replicate g' ET_NONE ++ tail
         /\ (length again' + g' = j + length events)%nat
         /\ Forall occupied again'
         /\ (undecided_hold_tap (replay raise events j st) = None -> again' = [])
         /\ (undecided_hold_tap (replay raise events j st) <> None -> 1 <= g')%nat
         /\ (events <> [] -> 1 <= g')%nat.
Proof.
  induction events as [|e events IH]; intros n j again g tail st Hc Hj Ha He Hn Hs Ht Hlen;
    subst j.
  - simpl replay. split.
    + destruct n as [|n]; [reflexivity|]. simpl.
      destruct Ht as [->|(t & ->)].
      * rewrite Hc, app_nil_r, lookup_ge_None_2; [reflexivity|].
        rewrite length_app, length_replicate. lia.
      * rewrite Hc. simpl app. rewrite lookup_mid. reflexivity.
    + exists again, g. simpl in Hc. repeat split; try assumption; try (simpl; lia).
      intros H; contradiction H; reflexivity.
  - inversion He as [|? ? He1 He2]; subst.
    destruct n as [|n]; [simpl in Hlen; lia|].
    simpl release_captured_events_from. simpl replay.
    simpl app in Hc. rewrite Hc, lookup_mid, insert_mid.
    set (st1 := with_captured _ st).
    set (st2 := match undecided_hold_tap st1 with
                | Some _ => k_msleep 10 st1 | None => st1 end).
    assert (Hm : mid_drain (events ++ tail) (S (length again + g)) 2 st2).
    { apply (mid_drain_same_buffer _ _ _ st1).
      { subst st2. destruct (undecided_hold_tap st1); split; reflexivity. }
      exists again, (S g). subst st1. simpl.
      rewrite replicate_snoc_none. repeat split; try assumption; try lia.
      intros H. specialize (Hs H). lia. }
    apply (raise_ok _ _ e) in Hm.
    destruct Hm as (again2 & g2 & Hc2 & Hj2 & Ha2 & Hn2 & Hg2 & _).
    destruct (IH n (S (length again + g)) again2 g2 tail (raise e st2))
      as (Heq & again' & g' & H1 & H2 & H3 & H4 & H5 & H6);
      try assumption; try (simpl in Hlen; lia).
    split.
    + destruct e; [contradiction He1; reflexivity| |]; exact Heq.
    + exists again', g'. repeat split; try assumption; try (simpl; lia).
      intros _. destruct events as [|e' events'].
      * simpl in H1, H2.
        destruct (decide (undecided_hold_tap (raise e st2) = None)) as [Hu|Hu].
        -- simpl in H4. specialize (H4 Hu). subst again'. simpl in H2. lia.
        -- apply H5. exact Hu.
      * apply H6. discriminate.
Qed.

Lemma release_captured_events_replay events tail st :
  undecided_hold_tap st = None ->
  captured_events st = events ++ tail ->
  Forall occupied events ->
  (tail = [] \/ exists t, tail = ET_NONE :: t) ->
  release_captured_events raise st = replay raise events 0 st
  /\ exists again' g',
       captured_events (replay raise events 0 st)
       = again' ++ replicate g' ET_NONE ++ tail
       /\ (length again' + g' = length events)%nat
       /\ Forall occupied again'
       /\ (undecided_hold_tap (replay raise events 0 st) = None -> again' = []).
Proof.
  intros Hu Hc He Ht. unfold release_captured_events. rewrite Hu.
  assert (Hlen : (0 + length events + length tail
                  <= 0 + length (captured_events st))%nat).
  { rewrite Hc, length_app. lia. }
  assert (Hs : undecided_hold_tap st <> None -> (1 <= 0)%nat) by congruence.
  destruct (release_captured_events_from_replay events
              (length (captured_events st)) 0 [] 0 tail st
              Hc eq_refl (List.Forall_nil _) He (fun _ => eq_refl) Hs Ht Hlen)
    as (Heq & again' & g' & H1 & H2 & H3 & H4 & _).
  split; [exact Heq|]. exists again', g'. repeat split; assumption.
Qed.

(** *** What the engine's functions do to the buffer in the middle of a drain *)

Lemma commit_decision_mid_drain rest k gmin i decided st :
  undecided_hold_tap st <> None ->
  mid_drain rest k gmin st ->
  mid_drain rest k gmin (commit_decision invoke raise i decided st).
Proof.
  intros Hu (again & g & Hc & Hk & Ha & _ & Hg & Hmin).
  unfold commit_decision.
  set (st1 := snd (press_binding invoke decided _)).
  assert (Hb : same_buffer (with_undecided None (set_hold_tap i decided st)) st1)
    by (apply same_store_buffer, press_binding_store).
  destruct Hb as (Hu1 & Hc1). simpl in Hu1, Hc1.
  destruct g as [|g]; [lia|].
  destruct (release_captured_events_replay again
              (ET_NONE :: replicate g ET_NONE ++ rest) st1)
    as (-> & again' & g' & H1 & H2 & H3 & H4); try assumption.
  - rewrite Hc1, Hc. reflexivity.
  - right. eauto.
  - exists again', (g' + S g)%nat. rewrite H1. repeat split; try assumption; try lia.
    + rewrite replicate_add, <- app_assoc. reflexivity.
    + intros _. specialize (Hmin Hu). lia.
Qed.

Lemma decide_hold_tap_mid_drain rest k gmin i dm st :
  mid_drain rest k gmin st ->
  mid_drain rest k gmin (decide_hold_tap invoke raise i dm st).
Proof.
  intros Hm. unfold decide_hold_tap.
  destruct (active_hold_taps st !! i) as [hold_tap|]; [|exact Hm].
  destruct (bool_decide (status_of hold_tap = STATUS_UNDECIDED)); simpl;
    [|exact Hm].
  destruct (decide (undecided_hold_tap st = Some i)) as [Hu|Hu];
    [|rewrite bool_decide_eq_false_2 by exact Hu; exact Hm].
  rewrite bool_decide_eq_true_2 by exact Hu. simpl.
  destruct (_ && _).
  { eapply mid_drain_same_buffer; [|exact Hm].
    apply same_store_buffer, invoke_binding_set_store. }
  destruct (bool_decide _); [exact Hm|].
  apply commit_decision_mid_drain; [congruence|exact Hm].
Qed.

Lemma capture_event_mid_drain rest k data st :
  occupied data ->
  undecided_hold_tap st <> None ->
  mid_drain rest k 2 st ->
  mid_drain rest k 1 (snd (capture_event data st)).
Proof.
  intros Hd Hu (again & g & Hc & Hk & Ha & Hn & Hg & Hmin).
  specialize (Hmin Hu). destruct g as [|g]; [lia|].
  unfold capture_event. rewrite Hc. simpl replicate. simpl app.
  rewrite capture_in_occupied by exact Ha. simpl.
  exists (again ++ [data]), g. repeat split; try assumption; try lia.
  - rewrite <- app_assoc. reflexivity.
  - rewrite length_app. simpl. lia.
  - apply Forall_app. split; [exact Ha|]. constructor; [exact Hd|constructor].
  - intros H. contradiction.
Qed.

Lemma decide_retro_tap_same_buffer i st :
  same_buffer st (decide_retro_tap invoke i st).
Proof.
  unfold decide_retro_tap.
  destruct (active_hold_taps st !! i) as [ht|]; [|apply same_buffer_refl].
  destruct (negb _); [apply same_buffer_refl|].
  destruct (bool_decide _); [|apply same_buffer_refl].
  eapply same_buffer_trans; [apply same_store_buffer, release_binding_store|].
  eapply same_buffer_trans; [|apply same_store_buffer, press_binding_store].
  split; reflexivity.
Qed.

Lemma update_hold_status_for_retro_tap_from_same_buffer n i pos st :
  same_buffer st (update_hold_status_for_retro_tap_from invoke n i pos st).
Proof.
  revert i st. induction n as [|n IH]; intros i st; simpl.
  { apply same_buffer_refl. }
  eapply same_buffer_trans; [|apply IH].
  destruct (active_hold_taps st !! i) as [ht|]; [|apply same_buffer_refl].
  destruct (_ || _); [apply same_buffer_refl|].
  destruct (bool_decide _); [|apply same_buffer_refl].
  eapply same_buffer_trans; [|apply same_store_buffer, press_binding_store].
  split; reflexivity.
Qed.

Lemma clear_hold_tap_same_buffer i st : same_buffer st (clear_hold_tap i st).
Proof.
  unfold clear_hold_tap. destruct (active_hold_taps st !! i); split; reflexivity.
Qed.

Lemma schedule_tapping_term_timer_same_buffer i cfg now st :
  same_buffer st (schedule_tapping_term_timer i cfg now st).
Proof.
  unfold schedule_tapping_term_timer, k_work_schedule.
  destruct (active_hold_taps st !! i) as [ht|]; [|split; reflexivity].
  destruct (work ht); split; reflexivity.
Qed.

Lemma on_hold_tap_binding_pressed_mid_drain rest k gmin cfg event now st :
  mid_drain rest k gmin st ->
  mid_drain rest k 1 (snd (on_hold_tap_binding_pressed invoke raise cfg event now st)).
Proof.
  intros Hm. apply mid_drain_one in Hm. unfold on_hold_tap_binding_pressed.
  destruct (undecided_hold_tap st) eqn:Hu; [exact Hm|].
  unfold store_hold_tap.
  destruct (find_hold_tap_from _ _ _) as [i|];
    [|eapply mid_drain_same_buffer; [|exact Hm]; split; reflexivity].
  destruct (active_hold_taps st !! i) as [old|];
    [|eapply mid_drain_same_buffer; [|exact Hm]; split; reflexivity].
  cbv zeta. cbn [snd].
  eapply mid_drain_same_buffer; [apply schedule_tapping_term_timer_same_buffer|].
  apply decide_hold_tap_mid_drain.
  set (st2 := with_undecided (Some i) _).
  assert (Hs : mid_drain rest k 1 st2).
  { destruct Hm as (again & g & H1 & H2 & H3 & H4 & H5 & H6).
    exists again, g. subst st2. simpl.
    destruct (<[i:=_]> (active_hold_taps st) !! i); simpl;
      (repeat split; try assumption; [discriminate|intros _; exact H5]). }
  destruct (active_hold_taps st2 !! i) as [ht|]; [|exact Hs].
  destruct (is_quick_tap _ _); [|exact Hs].
  apply decide_hold_tap_mid_drain. exact Hs.
Qed.

Lemma on_hold_tap_binding_released_mid_drain rest k gmin event result st :
  mid_drain rest k gmin st ->
  mid_drain rest k gmin
    (snd (on_hold_tap_binding_released invoke raise event result st)).
Proof.
  intros Hm. unfold on_hold_tap_binding_released.
  destruct (find_hold_tap _ _) as [i|];
    [|eapply mid_drain_same_buffer; [|exact Hm]; split; reflexivity].
  cbv zeta. cbn [snd].
  set (st0 := k_work_cancel_delayable i st).
  assert (H0 : mid_drain rest k gmin st0).
  { eapply mid_drain_same_buffer; [|exact Hm]. subst st0.
    unfold k_work_cancel_delayable.
    destruct (active_hold_taps st !! i); split; reflexivity. }
  set (st1 := match active_hold_taps st0 !! i with Some _ => _ | None => _ end).
  assert (H1 : mid_drain rest k gmin st1).
  { subst st1. destruct (active_hold_taps st0 !! i); [|exact H0].
    destruct (_ >? _); [|exact H0]. apply decide_hold_tap_mid_drain, H0. }
  set (st3 := decide_retro_tap invoke i _).
  assert (H3 : mid_drain rest k gmin st3).
  { eapply mid_drain_same_buffer; [apply decide_retro_tap_same_buffer|].
    apply decide_hold_tap_mid_drain, H1. }
  set (st4 := match active_hold_taps st3 !! i with Some _ => _ | None => _ end).
  assert (H4 : mid_drain rest k gmin st4).
  { eapply mid_drain_same_buffer; [|exact H3]. subst st4.
    destruct (active_hold_taps st3 !! i); [|apply same_buffer_refl].
    apply same_store_buffer, release_binding_store. }
  set (st5 := match active_hold_taps st4 !! i with Some _ => _ | None => _ end).
  assert (H5 : mid_drain rest k gmin st5).
  { eapply mid_drain_same_buffer; [|exact H4]. subst st5.
    destruct (active_hold_taps st4 !! i); [|apply same_buffer_refl].
    destruct (_ && _); [|apply same_buffer_refl].
    apply same_store_buffer, invoke_binding_set_store. }
  eapply mid_drain_same_buffer; [|exact H5].
  destruct (_ =? _); [|apply clear_hold_tap_same_buffer].
  destruct (active_hold_taps st5 !! i); split; reflexivity.
Qed.

Lemma position_state_changed_listener_mid_drain rest k ev st :
  mid_drain rest k 2 st ->
  mid_drain rest k 1 (snd (position_state_changed_listener invoke raise ev st)).
Proof.
  intros Hm. unfold position_state_changed_listener.
  set (st0 := update_hold_status_for_retro_tap invoke (ps_position ev) st).
  assert (H0 : mid_drain rest k 2 st0).
  { eapply mid_drain_same_buffer; [|exact Hm].
    apply update_hold_status_for_retro_tap_from_same_buffer. }
  clearbody st0. cbv zeta.
  destruct (undecided_hold_tap st0) as [u|] eqn:Hu;
    [|apply mid_drain_one in H0; exact H0].
  destruct (active_hold_taps st0 !! u) as [ht0|];
    [|apply mid_drain_one in H0; exact H0].
  set (st1 := if _ && _ then _ else st0).
  assert (H1 : mid_drain rest k 2 st1).
  { eapply mid_drain_same_buffer; [|exact H0]. subst st1.
    destruct (_ && _); split; reflexivity. }
  clearbody st1.
  destruct (position ht0 =? ps_position ev).
  { apply mid_drain_one in H1.
    destruct (ps_state ev); [|exact H1].
    eapply mid_drain_same_buffer; [|exact H1]. split; reflexivity. }
  set (st2 := if _ >? _ then _ else st1).
  assert (H2 : mid_drain rest k 2 st2).
  { subst st2. destruct (_ >? _); [|exact H1].
    apply decide_hold_tap_mid_drain, H1. }
  clearbody st2.
  destruct (undecided_hold_tap st2) as [u'|] eqn:Hu2;
    [|apply mid_drain_one in H2; exact H2].
  destruct (negb (ps_state ev) && negb (have_captured_keydown_event _ st2));
    cbn [snd]; [apply mid_drain_one in H2; exact H2|].
  apply decide_hold_tap_mid_drain.
  apply capture_event_mid_drain; [discriminate|congruence|exact H2].
Qed.

Lemma keycode_state_changed_listener_mid_drain rest k ev st :
  mid_drain rest k 2 st ->
  mid_drain rest k 1 (snd (keycode_state_changed_listener ev st)).
Proof.
  intros Hm. unfold keycode_state_changed_listener.
  set (st0 := if _ && _ then _ else st).
  assert (H0 : mid_drain rest k 2 st0).
  { eapply mid_drain_same_buffer; [|exact Hm]. subst st0.
    destruct (_ && _); [|apply same_buffer_refl].
    unfold store_last_tapped. destruct (_ >? _); split; reflexivity. }
  clearbody st0. cbv zeta.
  destruct (undecided_hold_tap st0) as [u|] eqn:Hu;
    [|apply mid_drain_one in H0; exact H0].
  destruct (negb _); [apply mid_drain_one in H0; exact H0|].
  destruct (active_hold_taps st0 !! u) as [ht|];
    [|apply mid_drain_one in H0; exact H0].
  destruct (_ && _); cbn [snd]; [apply mid_drain_one in H0; exact H0|].
  apply capture_event_mid_drain; [discriminate|congruence|exact H0].
Qed.

End Drain.

(** *** The pipeline raises into itself *)

Lemma event_manager_handle_keeps_rest env raise now :
  raise_keeps_rest raise -> raise_keeps_rest (event_manager_handle env raise now).
Proof.
  intros Hr rest k e st Hm. unfold event_manager_handle.
  assert (Hl : mid_drain rest k 1
                 (snd (behavior_contextual_hold_tap_listener
                         (invoke_result env) raise e st))).
  { destruct e as [|ev|ev]; simpl.
    - apply mid_drain_one in Hm. exact Hm.
    - apply position_state_changed_listener_mid_drain; assumption.
    - apply keycode_state_changed_listener_mid_drain; assumption. }
  destruct (behavior_contextual_hold_tap_listener _ raise e st) as [[|] st'];
    simpl in Hl; [|exact Hl].
  cbv zeta.
  assert (Hb : mid_drain rest k 1 (with_bubbled (bubbled st' ++ [e]) st')).
  { eapply mid_drain_same_buffer; [|exact Hl]. split; reflexivity. }
  destruct e as [|ev|ev]; [exact Hb| |].
  - unfold keymap_apply. destruct (keymap env (ps_position ev)); [|exact Hb].
    destruct (ps_state ev).
    + eapply on_hold_tap_binding_pressed_mid_drain; eassumption.
    + eapply on_hold_tap_binding_released_mid_drain; eassumption.
  - eapply mid_drain_same_buffer; [|exact Hb].
    unfold contextual_hold_tap_listener, cht_record_last_key.
    repeat match goal with |- context [if ?b then _ else _] => destruct b end;
      split; reflexivity.
Qed.

Lemma zmk_event_raise_keeps_rest env now depth :
  raise_keeps_rest (zmk_event_raise env now depth).
Proof.
  induction depth as [|d IH].
  - intros rest k e st Hm. apply mid_drain_one in Hm. exact Hm.
  - simpl. apply event_manager_handle_keeps_rest. exact IH.
Qed.

(** C6: the capture buffer keeps arrival order (a new event goes behind those
    waiting) and a drain raises the events that were waiting when it began,
    from the front and in that order, vacating each slot first; this holds
    whatever the pipeline does with a raised event, at every nesting depth,
    capturing it again under a hold-tap that became undecided in the middle
    of the drain included: such events go to vacated slots, in front of the
    part of the buffer the drain has not reached. *)
Theorem captured_events_are_raised_in_capture_order env now depth st events tail :
  undecided_hold_tap st = None ->
  captured_events st = events ++ tail ->
  Forall occupied events ->
  (tail = [] \/ exists t, tail = ET_NONE :: t) ->
  (forall data t, tail = ET_NONE :: t ->
     capture_event data st = (0, with_captured (events ++ data :: t) st))
  /\ release_captured_events (zmk_event_raise env now depth) st
     = replay (zmk_event_raise env now depth) events 0 st
  /\ exists again vacated,
       captured_events (release_captured_events (zmk_event_raise env now depth) st)
       = again ++ replicate vacated ET_NONE ++ tail
       /\ (length again + vacated = length events)%nat
       /\ Forall occupied again.
Proof.
  intros Hu Hc He Ht. split; [|].
  - intros data t ->. unfold capture_event. rewrite Hc.
    rewrite capture_in_occupied by exact He. reflexivity.
  - destruct (release_captured_events_replay (zmk_event_raise env now depth)
                (zmk_event_raise_keeps_rest env now depth)
                events tail st Hu Hc He Ht)
      as (Heq & again & g & H1 & H2 & H3 & _).
    split; [exact Heq|]. exists again, g. rewrite Heq. repeat split; assumption.
Qed.

(** ** The hold-tap's own release *)

Section Release.

Variable invoke : zmk_behavior_binding -> zmk_behavior_binding_event -> bool -> Z.
Variable raise : captured_event -> engine -> engine.

Lemma press_binding_slots hold_tap st :
  active_hold_taps (snd (press_binding invoke hold_tap st)) = active_hold_taps st.
Proof. destruct (press_binding_store invoke hold_tap st) as (_ & H & _). exact H. Qed.

Lemma release_binding_slots hold_tap st :
  active_hold_taps (snd (release_binding invoke hold_tap st)) = active_hold_taps st.
Proof. destruct (release_binding_store invoke hold_tap st) as (_ & H & _). exact H. Qed.

Lemma invoke_binding_set_slots bindings event pressed st :
  active_hold_taps (snd (invoke_binding_set invoke bindings event pressed st))
  = active_hold_taps st.
Proof. rewrite invoke_binding_set_sink. reflexivity. Qed.

(** [on_hold_tap_binding_released] from [decide_retro_tap] on, in a state
    whose slot [i] holds a decided record that is not up for a retro-tap. *)
Lemma released_after_key_up i decided st2 work_cancel_result :
  active_hold_taps st2 !! i = Some decided ->
  (retro_tap (config decided) && bool_decide (status_of decided = STATUS_HOLD_TIMER))
  = false ->
  (let st3 := decide_retro_tap invoke i st2 in
   let st4 := match active_hold_taps st3 !! i with
              | None => st3
              | Some ht => snd (release_binding invoke ht st3)
              end in
   let st5 := match active_hold_taps st4 !! i with
              | None => st4
              | Some ht =>
                  if hold_while_undecided (config ht)
                     && hold_while_undecided_linger (config ht)
                  then snd (release_hold_binding invoke ht st4)
                  else st4
              end in
   if work_cancel_result =? - EINPROGRESS then
     match active_hold_taps st5 !! i with
     | None => st5
     | Some ht => set_hold_tap i (set_work_is_cancelled true ht) st5
     end
   else clear_hold_tap i st5)
  = release_and_clean_up invoke i decided work_cancel_result
      (snd (release_binding invoke decided st2)).
Proof.
  intros Hi Hr. cbv zeta.
  assert (E3 : decide_retro_tap invoke i st2 = st2).
  { unfold decide_retro_tap. rewrite Hi.
    destruct (retro_tap (config decided)); simpl in *; [|reflexivity].
    rewrite Hr. reflexivity. }
  rewrite E3, Hi.
  set (st4 := snd (release_binding invoke decided st2)).
  assert (H4 : active_hold_taps st4 !! i = Some decided).
  { subst st4. rewrite release_binding_slots. exact Hi. }
  rewrite H4. unfold release_and_clean_up.
  destruct (hold_while_undecided (config decided)
            && hold_while_undecided_linger (config decided)).
  - unfold release_hold_binding. rewrite invoke_binding_set_slots, H4.
    reflexivity.
  - rewrite H4. reflexivity.
Qed.

Lemma cancelled_slot i hold_tap st :
  active_hold_taps st !! i = Some hold_tap ->
  k_work_cancel_delayable i st = set_hold_tap i (set_work None hold_tap) st
  /\ active_hold_taps (k_work_cancel_delayable i st) !! i
     = Some (set_work None hold_tap).
Proof.
  intros Hi. unfold k_work_cancel_delayable. rewrite Hi. split; [reflexivity|].
  simpl. apply list_lookup_insert_eq. eapply lookup_lt_Some; eauto.
Qed.


(** A release within the tapping term decides the undecided hold-tap TAP at
    the key-up moment: the tap bindings are pressed, the captured events
    replayed, the tap bindings released. *)
Lemma early_release_is_a_tap i hold_tap event work_cancel_result st :
  find_hold_tap (be_position event) st = Some i ->
  active_hold_taps st !! i = Some hold_tap ->
  status_of hold_tap = STATUS_UNDECIDED ->
  undecided_hold_tap st = Some i ->
  in_int64 (timestamp hold_tap + tapping_term_ms (config hold_tap)) ->
  be_timestamp event <= timestamp hold_tap + tapping_term_ms (config hold_tap) ->
  let st0 := k_work_cancel_delayable i st in
  let tapped := set_status STATUS_TAP (set_work None hold_tap) in
  let decided := with_undecided None (set_hold_tap i tapped st0) in
  let replayed :=
    release_captured_events raise (snd (press_binding invoke tapped decided)) in
  active_hold_taps replayed !! i = Some tapped ->
  on_hold_tap_binding_released invoke raise event work_cancel_result st
  = (ZMK_BEHAVIOR_OPAQUE,
     release_and_clean_up invoke i tapped work_cancel_result
       (snd (release_tap_binding invoke tapped replayed))).
Proof.
  intros Hfind Hi Hs Hu Hrange Hearly st0 tapped decided replayed Hkept.
  destruct (cancelled_slot i hold_tap st Hi) as (E0 & Hi0).
  fold st0 in E0, Hi0.
  unfold on_hold_tap_binding_released. rewrite Hfind. cbv zeta.
  fold st0. rewrite Hi0.
  replace (be_timestamp event
           >? add64 (timestamp (set_work None hold_tap))
                (tapping_term_ms (config (set_work None hold_tap))))
    with false.
  2: { symmetry. rewrite Z.gtb_ltb. apply Z.ltb_ge. simpl.
       rewrite add64_exact by exact Hrange. lia. }
  assert (Ht : decide_hold_tap invoke raise i HT_KEY_UP st0 = replayed).
  { rewrite (decide_hold_tap_undecided invoke raise i HT_KEY_UP st0 _ Hi0);
      [|exact Hs|rewrite E0; exact Hu|discriminate].
    replace (flavor_transition_table (selected_flavor (set_work None hold_tap))
               HT_KEY_UP)
      with (Some STATUS_TAP)
      by (destruct (selected_flavor (set_work None hold_tap)); reflexivity).
    rewrite decide_positional_hold_spec.
    destruct (decide _); reflexivity. }
  rewrite Ht. f_equal.
  assert (Hr : retro_tap (config tapped)
               && bool_decide (status_of tapped = STATUS_HOLD_TIMER) = false)
    by apply andb_false_r.
  etransitivity;
    [exact (released_after_key_up i tapped replayed work_cancel_result Hkept Hr)|].
  unfold release_binding. rewrite Hr. reflexivity.
Qed.

End Release.

(** ** The pure-tap scenario *)

Lemma invocations_of_accept_all bindings event pressed :
  invocations_of accept_all bindings event pressed
  = map (fun b => mk_invocation b event pressed) bindings.
Proof. induction bindings as [|b l IH]; simpl; [reflexivity|]. f_equal. exact IH. Qed.

Lemma no_quick_tap_after_init idle ts :
  in_int32 idle -> 0 <= ts -> (add64 INT32_MIN idle >? ts) = false.
Proof.
  intros Hi Ht. unfold in_int32 in Hi. rewrite add64_exact.
  - rewrite Z.gtb_ltb. apply Z.ltb_ge. unfold INT32_MIN. lia.
  - unfold in_int64, INT32_MIN. lia.
Qed.

Lemma select_flavor_no_last_key cfg now st :
  lk_valid (last_key st) = false -> select_flavor cfg now st = normal_flavor cfg.
Proof.
  intros H. unfold select_flavor, cht_get_last_key_info. rewrite H.
  destruct (_ =? 0); reflexivity.
Qed.

Lemma flavor_switch_key_down f s : flavor_switch f HT_KEY_DOWN s = s.
Proof. destruct f; reflexivity. Qed.

Lemma decide_hold_tap_key_down_idle invoke raise i st hold_tap :
  active_hold_taps st !! i = Some hold_tap ->
  hold_while_undecided (config hold_tap) = false ->
  decide_hold_tap invoke raise i HT_KEY_DOWN st = st.
Proof.
  intros Hi Hh. unfold decide_hold_tap. rewrite Hi, Hh, flavor_switch_key_down.
  simpl andb. cbv iota.
  destruct (bool_decide (status_of hold_tap = STATUS_UNDECIDED)); simpl;
    [|reflexivity].
  destruct (negb _); reflexivity.
Qed.

Lemma keydown_of_pure_tap cfg raise :
  tapping_term_ms cfg = 200 ->
  hold_while_undecided cfg = false ->
  in_int32 (require_prior_idle_ms cfg) ->
  event_manager_handle (one_hold_tap_env cfg) raise 0 (key_down 10 0)
    (engine_init 10 40)
  = after_keydown cfg.
Proof.
  intros Hterm Hhwu Hidle. unfold event_manager_handle.
  change (behavior_contextual_hold_tap_listener
            (invoke_result (one_hold_tap_env cfg)) raise (key_down 10 0)
            (engine_init 10 40))
    with (ZMK_EV_EVENT_BUBBLE, engine_init 10 40).
  cbv iota beta zeta. unfold key_down at 1. cbv iota.
  unfold keymap_apply.
  cbn [keymap one_hold_tap_env ps_position ps_state ps_timestamp ps_source
         Z.eqb Pos.eqb invoke_result].
  set (st_b := with_bubbled _ _).
  rewrite (on_hold_tap_binding_pressed_accepted accept_all raise cfg _ 0 st_b
             0%nat free_slot eq_refl eq_refl eq_refl).
  cbn [snd].
  set (rec := keydown_record cfg _ free_slot st_b).
  set (st2 := keydown_state 0 cfg _ free_slot st_b).
  assert (Hq : is_quick_tap rec st2 = false).
  { unfold is_quick_tap.
    change (lt_timestamp (last_tapped st2)) with INT32_MIN.
    change (require_prior_idle_ms (config rec)) with (require_prior_idle_ms cfg).
    change (timestamp rec) with 0.
    rewrite no_quick_tap_after_init by (assumption || lia). reflexivity. }
  rewrite Hq.
  rewrite (decide_hold_tap_key_down_idle accept_all raise 0 st2 rec eq_refl Hhwu).
  unfold schedule_tapping_term_timer.
  change (active_hold_taps st2 !! 0%nat) with (Some rec).
  cbv iota beta zeta. change (timestamp rec) with 0. rewrite Hterm.
  subst st2 rec st_b. unfold keydown_state, keydown_record.
  rewrite select_flavor_no_last_key by reflexivity.
  reflexivity.
Qed.

Lemma sink_clear_hold_tap i st : sink (clear_hold_tap i st) = sink st.
Proof. unfold clear_hold_tap. destruct (active_hold_taps st !! i); reflexivity. Qed.

Lemma keyup_of_pure_tap cfg raise :
  tapping_term_ms cfg = 200 ->
  hold_while_undecided cfg = false ->
  let event := mk_binding_event 10 0 0 in
  sink (event_manager_handle (one_hold_tap_env cfg) raise 50 (key_up 10 50)
          (after_keydown cfg))
  = map (fun b => mk_invocation b event true) (tap_bindings cfg)
    ++ map (fun b => mk_invocation b event false) (tap_bindings cfg).
Proof.
  intros Hterm Hhwu event. unfold event_manager_handle.
  set (rec := mk_hold_tap 10 0 0 STATUS_UNDECIDED (normal_flavor cfg) cfg
                (Some 200) false (-1)).
  (* the listener lets the release through; it may have noted position 10 as
     the first other key *)
  assert (exists rec',
             binding_event_of rec' = event /\ config rec' = cfg
             /\ status_of rec' = STATUS_UNDECIDED
             /\ behavior_contextual_hold_tap_listener
                  (invoke_result (one_hold_tap_env cfg)) raise (key_up 10 50)
                  (after_keydown cfg)
                = (ZMK_EV_EVENT_BUBBLE, set_hold_tap 0 rec' (after_keydown cfg)))
    as (rec' & Hev & Hc & Hst & Hl).
  { exists (if hold_trigger_on_release cfg then set_first_other 10 rec else rec).
    unfold key_up, behavior_contextual_hold_tap_listener,
      position_state_changed_listener.
    change (update_hold_status_for_retro_tap _ _ (after_keydown cfg))
      with (after_keydown cfg).
    cbn [undecided_hold_tap after_keydown active_hold_taps lookup list_lookup
           config ps_state ps_position ps_timestamp position
           position_of_first_other_key_pressed].
    cbv zeta.
    destruct (hold_trigger_on_release cfg); repeat split; reflexivity. }
  assert (Hp : position rec' = 10) by (change 10 with (be_position event);
                                       rewrite <- Hev; reflexivity).
  assert (Hts : timestamp rec' = 0) by (change 0 with (be_timestamp event);
                                        rewrite <- Hev; reflexivity).
  rewrite Hl. cbv iota beta zeta. unfold key_up. cbv iota.
  unfold keymap_apply.
  cbn [keymap one_hold_tap_env ps_position ps_state ps_timestamp ps_source
         Z.eqb Pos.eqb invoke_result work_cancel_result].
  set (st_b := with_bubbled _ _).
  assert (Hi : active_hold_taps st_b !! 0%nat = Some rec') by reflexivity.
  assert (Hfind : find_hold_tap 10 st_b = Some 0%nat).
  { unfold find_hold_tap. simpl. rewrite Hp. reflexivity. }
  assert (Hrange : in_int64 (timestamp rec' + tapping_term_ms (config rec'))).
  { rewrite Hts, Hc, Hterm. unfold in_int64. lia. }
  assert (Hearly : 50 <= timestamp rec' + tapping_term_ms (config rec')).
  { rewrite Hts, Hc, Hterm. lia. }
  set (tapped := set_status STATUS_TAP (set_work None rec')).
  set (decided :=
         with_undecided None (set_hold_tap 0 tapped (k_work_cancel_delayable 0 st_b))).
  assert (Hrel : release_captured_events raise
                   (snd (press_binding accept_all tapped decided))
                 = snd (press_binding accept_all tapped decided)).
  { apply release_captured_events_front_free.
    eapply front_free_same_store; [apply press_binding_store|]. reflexivity. }
  rewrite (early_release_is_a_tap accept_all raise 0 rec'
             (mk_binding_event 10 50 0) 0 st_b Hfind Hi Hst eq_refl Hrange Hearly).
  2: { fold tapped decided. rewrite Hrel, press_binding_slots. reflexivity. }
  fold tapped decided. rewrite Hrel. cbn [snd].
  unfold release_and_clean_up.
  change (config tapped) with (config rec'). rewrite Hc, Hhwu.
  cbn [andb]. change (0 =? - EINPROGRESS) with false. cbv iota.
  rewrite sink_clear_hold_tap. unfold release_tap_binding.
  rewrite invoke_binding_set_sink. cbn [sink with_sink].
  unfold press_binding.
  change (config tapped) with (config rec'). rewrite Hc, Hhwu.
  rewrite andb_false_r. change (is_hold_status (status_of tapped)) with false.
  cbn [andb]. cbv iota. unfold press_tap_binding.
  rewrite invoke_binding_set_sink. cbn [sink with_sink].
  change (config tapped) with (config rec'). rewrite Hc.
  change (binding_event_of tapped) with (binding_event_of rec'). rewrite Hev.
  rewrite !invocations_of_accept_all. reflexivity.
Qed.

(** C8 (as amended): a BALANCED hold-tap with a tapping term of 200 ms,
    pressed at position 10 at time 0 and released at time 50 with nothing in
    between, has its tap bindings pressed and then released when the release
    is handled, and every one of these invocations carries the position and
    the timestamp of the keydown: timestamp 0, not 50.  (The flavor plays no
    part: the key-up moment decides TAP under each of them.) *)
Theorem pure_tap_invocations_carry_keydown_timestamp cfg :
  tapping_term_ms cfg = 200 ->
  hold_while_undecided cfg = false ->
  in_int32 (require_prior_idle_ms cfg) ->
  let env := one_hold_tap_env cfg in
  let keydown_event := mk_binding_event 10 0 0 in
  sink (run env [Event 0 (key_down 10 0)] (engine_init 10 40)) = []
  /\ sink (run env [Event 0 (key_down 10 0); Event 50 (key_up 10 50)]
             (engine_init 10 40))
     = map (fun b => mk_invocation b keydown_event true) (tap_bindings cfg)
       ++ map (fun b => mk_invocation b keydown_event false) (tap_bindings cfg).
Proof.
  intros Hterm Hhwu Hidle env keydown_event. unfold run.
  cbn [fold_left run_input]. unfold zmk_event_manager_raise.
  cbn [zmk_event_raise].
  subst env. rewrite keydown_of_pure_tap by assumption.
  split; [reflexivity|]. apply keyup_of_pure_tap; assumption.
Qed.

(** ** Overflow of the capture buffer *)

Lemma capture_in_full slots data :
  Forall occupied slots -> capture_in slots data = None.
Proof.
  induction 1 as [|e l He _ IH]; simpl; [reflexivity|].
  rewrite IH. destruct e; [contradiction He|..]; reflexivity.
Qed.

Lemma capture_event_full data st :
  Forall occupied (captured_events st) -> capture_event data st = (- ENOMEM, st).
Proof. intros H. unfold capture_event. rewrite capture_in_full by exact H. reflexivity. Qed.

(** C4 (the code at the failing input): with both slots of the buffer taken,
    [capture_event] fails with [-ENOMEM] and the position listener, which
    drops that result, answers CAPTURED for the key press at position 22:
    the event is not in the buffer, has not bubbled, and no error is logged. *)
Theorem capture_overflow_loses_the_event raise :
  let ev := mk_position_event 0 22 true 30 in
  capture_event (ET_POS_CHANGED ev) full_buffer_state = (- ENOMEM, full_buffer_state)
  /\ position_state_changed_listener accept_all raise ev full_buffer_state
     = (ZMK_EV_EVENT_CAPTURED, full_buffer_state)
  /\ (ET_POS_CHANGED ev ∉ captured_events full_buffer_state)
  /\ (ET_POS_CHANGED ev ∉ bubbled full_buffer_state)
  /\ err_log full_buffer_state = [].
Proof.
  intros ev. repeat split; try reflexivity.
  - intros H. repeat (apply elem_of_cons in H as [H|H]; [discriminate|]).
    inversion H.
  - intros H. repeat (apply elem_of_cons in H as [H|H]; [discriminate|]).
    inversion H.
Qed.

(** ** The last-tapped record *)

Lemma store_last_tapped_monotone ts st :
  lt_timestamp (last_tapped st) <= lt_timestamp (last_tapped (store_last_tapped ts st)).
Proof.
  unfold store_last_tapped. destruct (ts >? lt_timestamp (last_tapped st)) eqn:E.
  - apply Z.gtb_lt in E. simpl. lia.
  - lia.
Qed.

Lemma keycode_listener_last_tapped ev st :
  lt_timestamp (last_tapped st)
  <= lt_timestamp (last_tapped (snd (keycode_state_changed_listener ev st))).
Proof.
  unfold keycode_state_changed_listener.
  set (st0 := if _ && _ then _ else st).
  assert (H0 : lt_timestamp (last_tapped st) <= lt_timestamp (last_tapped st0)).
  { subst st0. destruct (_ && _); [apply store_last_tapped_monotone|lia]. }
  assert (E : last_tapped (snd (match undecided_hold_tap st0 with
                                | None => (ZMK_EV_EVENT_BUBBLE, st0)
                                | Some u =>
                                    if negb (is_mod (kc_usage_page ev) (kc_keycode ev))
                                    then (ZMK_EV_EVENT_BUBBLE, st0)
                                    else
                                      match active_hold_taps st0 !! u with
                                      | None => (ZMK_EV_EVENT_BUBBLE, st0)
                                      | Some ht =>
                                          if hold_while_undecided (config ht)
                                             && bool_decide (status_of ht = STATUS_UNDECIDED)
                                          then (ZMK_EV_EVENT_BUBBLE, st0)
                                          else (ZMK_EV_EVENT_CAPTURED,
                                                snd (capture_event (ET_CODE_CHANGED ev) st0))
                                      end
                                end)) = last_tapped st0).
  { clearbody st0. unfold capture_event.
    repeat match goal with
           | |- context [match ?x with _ => _ end] => destruct x
           end; reflexivity. }
  cbv zeta. rewrite E. exact H0.
Qed.

(** C7 (as amended): keycode events never take [last_tapped.timestamp] back:
    [store_last_tapped] stores a timestamp only when it is larger, so the
    timestamp is non-decreasing over any sequence of keycode events.  The tap
    of a hold-tap records the position and the keydown timestamp of the
    hold-tap whatever is stored, so it keeps the timestamp from decreasing
    exactly when that keydown is not older than the stored timestamp. *)
Theorem last_tapped_timestamp_updates :
  (forall ts st,
     lt_timestamp (last_tapped st)
     <= lt_timestamp (last_tapped (store_last_tapped ts st)))
  /\ (forall events st,
        lt_timestamp (last_tapped st)
        <= lt_timestamp
             (last_tapped
                (fold_left (fun s ev => snd (keycode_state_changed_listener ev s))
                   events st)))
  /\ (forall invoke hold_tap st,
        last_tapped (snd (press_tap_binding invoke hold_tap st))
        = mk_last_tapped (position hold_tap) (timestamp hold_tap))
  /\ (forall invoke hold_tap st,
        lt_timestamp (last_tapped st)
        <= lt_timestamp (last_tapped (snd (press_tap_binding invoke hold_tap st)))
        <-> lt_timestamp (last_tapped st) <= timestamp hold_tap).
Proof.
  assert (Hp : forall invoke hold_tap st,
             last_tapped (snd (press_tap_binding invoke hold_tap st))
             = mk_last_tapped (position hold_tap) (timestamp hold_tap)).
  { intros. unfold press_tap_binding. rewrite invoke_binding_set_sink. reflexivity. }
  repeat split.
  - apply store_last_tapped_monotone.
  - intros events. induction events as [|ev l IH]; intros st; simpl; [lia|].
    etransitivity; [apply (keycode_listener_last_tapped ev)|apply IH].
  - exact Hp.
  - rewrite Hp. simpl. auto.
  - rewrite Hp. simpl. auto.
Qed.

(** ** At most one undecided hold-tap *)

Lemma one_undecided_same_slots st st' :
  undecided_hold_tap st' = undecided_hold_tap st ->
  active_hold_taps st' = active_hold_taps st ->
  one_undecided st -> one_undecided st'.
Proof. intros Hu Hs H j ht. rewrite Hu, Hs. apply H. Qed.

Lemma one_undecided_same_store st st' :
  same_store st st' -> one_undecided st -> one_undecided st'.
Proof. intros (Hu & Hs & _). apply one_undecided_same_slots; assumption. Qed.

Lemma one_undecided_set_hold_tap i ht st :
  (status_of ht = STATUS_UNDECIDED -> position ht <> CHT_POSITION_NOT_USED ->
   undecided_hold_tap st = Some i) ->
  one_undecided st -> one_undecided (set_hold_tap i ht st).
Proof.
  intros Hi H j ht' Hj Hs Hp. simpl in Hj.
  apply list_lookup_insert_Some in Hj as [(-> & <- & _)|(_ & Hj)].
  - apply Hi; assumption.
  - exact (H j ht' Hj Hs Hp).
Qed.

(** Replacing the record of a slot by one with the same status and position. *)
Lemma one_undecided_update i old ht st :
  active_hold_taps st !! i = Some old ->
  status_of ht = status_of old -> position ht = position old ->
  one_undecided st -> one_undecided (set_hold_tap i ht st).
Proof.
  intros Hi Hs Hp H. apply one_undecided_set_hold_tap; [|exact H].
  rewrite Hs, Hp. apply H. exact Hi.
Qed.

Section OneUndecided.

Variable invoke : zmk_behavior_binding -> zmk_behavior_binding_event -> bool -> Z.
Variable raise : captured_event -> engine -> engine.
Hypothesis raise_ok : raise_keeps_one_undecided raise.

Lemma release_captured_events_from_one_undecided n i st :
  one_undecided st -> one_undecided (release_captured_events_from raise n i st).
Proof.
  revert i st. induction n as [|n IH]; intros i st H; simpl; [exact H|].
  destruct (captured_events st !! i) as [[|ev|ev]|]; try exact H;
    apply IH, raise_ok;
    (apply (one_undecided_same_slots st); [| |exact H]);
    simpl; destruct (undecided_hold_tap st) eqn:E; simpl; rewrite ?E; reflexivity.
Qed.

Lemma release_captured_events_one_undecided st :
  one_undecided st -> one_undecided (release_captured_events raise st).
Proof.
  intros H. unfold release_captured_events.
  destruct (undecided_hold_tap st); [exact H|].
  apply release_captured_events_from_one_undecided, H.
Qed.

Lemma commit_decision_one_undecided i decided st :
  undecided_hold_tap st = Some i ->
  status_of decided <> STATUS_UNDECIDED ->
  one_undecided st -> one_undecided (commit_decision invoke raise i decided st).
Proof.
  intros Hu Hs H. unfold commit_decision.
  apply release_captured_events_one_undecided.
  eapply one_undecided_same_store; [apply press_binding_store|].
  intros j ht Hj Hsj Hpj. simpl in Hj.
  apply list_lookup_insert_Some in Hj as [(-> & <- & _)|(Hne & Hj)].
  - contradiction.
  - specialize (H j ht Hj Hsj Hpj). congruence.
Qed.

Lemma decide_positional_hold_decided hold_tap :
  status_of hold_tap <> STATUS_UNDECIDED ->
  status_of (decide_positional_hold hold_tap) <> STATUS_UNDECIDED.
Proof.
  intros H. rewrite decide_positional_hold_spec.
  destruct (decide _); [discriminate|exact H].
Qed.

Lemma decide_hold_tap_one_undecided i dm st :
  one_undecided st -> one_undecided (decide_hold_tap invoke raise i dm st).
Proof.
  intros H. unfold decide_hold_tap.
  destruct (active_hold_taps st !! i) as [hold_tap|]; [|exact H].
  destruct (bool_decide (status_of hold_tap = STATUS_UNDECIDED)); simpl;
    [|exact H].
  destruct (decide (undecided_hold_tap st = Some i)) as [Hu|Hu];
    [|rewrite bool_decide_eq_false_2 by exact Hu; exact H].
  rewrite bool_decide_eq_true_2 by exact Hu. simpl.
  destruct (_ && _).
  { eapply one_undecided_same_store; [apply invoke_binding_set_store|exact H]. }
  destruct (decide (flavor_switch (selected_flavor hold_tap) dm (status_of hold_tap)
                    = STATUS_UNDECIDED)) as [Hs|Hs].
  { rewrite bool_decide_eq_true_2 by exact Hs. exact H. }
  rewrite bool_decide_eq_false_2 by exact Hs.
  apply commit_decision_one_undecided; [exact Hu| |exact H].
  apply decide_positional_hold_decided. exact Hs.
Qed.

Lemma decide_retro_tap_one_undecided i st :
  one_undecided st -> one_undecided (decide_retro_tap invoke i st).
Proof.
  intros H. unfold decide_retro_tap.
  destruct (active_hold_taps st !! i) as [ht|]; [|exact H].
  destruct (negb _); [exact H|]. destruct (bool_decide _); [|exact H].
  eapply one_undecided_same_store; [apply press_binding_store|].
  apply one_undecided_set_hold_tap; [discriminate|].
  eapply one_undecided_same_store; [apply release_binding_store|exact H].
Qed.

Lemma update_hold_status_for_retro_tap_from_one_undecided n i pos st :
  one_undecided st ->
  one_undecided (update_hold_status_for_retro_tap_from invoke n i pos st).
Proof.
  revert i st. induction n as [|n IH]; intros i st H; simpl; [exact H|].
  apply IH.
  destruct (active_hold_taps st !! i) as [ht|]; [|exact H].
  destruct (_ || _); [exact H|]. destruct (bool_decide _); [|exact H].
  eapply one_undecided_same_store; [apply press_binding_store|].
  apply one_undecided_set_hold_tap; [discriminate|exact H].
Qed.

Lemma clear_hold_tap_one_undecided i st :
  one_undecided st -> one_undecided (clear_hold_tap i st).
Proof.
  intros H. unfold clear_hold_tap.
  destruct (active_hold_taps st !! i) as [ht|]; [|exact H].
  apply one_undecided_set_hold_tap; [|exact H].
  intros _ Hp. contradiction Hp. reflexivity.
Qed.

Lemma schedule_tapping_term_timer_one_undecided i cfg now st :
  one_undecided st -> one_undecided (schedule_tapping_term_timer i cfg now st).
Proof.
  intros H. unfold schedule_tapping_term_timer, k_work_schedule.
  destruct (active_hold_taps st !! i) as [ht|] eqn:Hi; [|exact H].
  destruct (work ht); [exact H|].
  eapply one_undecided_update; eauto.
Qed.

Lemma on_hold_tap_binding_pressed_one_undecided cfg event now st :
  one_undecided st ->
  one_undecided (snd (on_hold_tap_binding_pressed invoke raise cfg event now st)).
Proof.
  intros H. unfold on_hold_tap_binding_pressed.
  destruct (undecided_hold_tap st) eqn:Hu; [exact H|].
  unfold store_hold_tap.
  destruct (find_hold_tap_from _ _ _) as [i|];
    [|apply (one_undecided_same_slots st); [| |exact H]; reflexivity].
  destruct (active_hold_taps st !! i) as [old|] eqn:Hold;
    [|apply (one_undecided_same_slots st); [| |exact H]; reflexivity].
  cbv zeta. cbn [snd].
  apply schedule_tapping_term_timer_one_undecided, decide_hold_tap_one_undecided.
  set (st2 := with_undecided (Some i) _).
  assert (H2 : one_undecided st2).
  { intros j ht Hj Hs Hp. subst st2. simpl in *.
    destruct (decide (j = i)) as [->|Hne]; [reflexivity|].
    exfalso.
    assert (Hj' : active_hold_taps st !! j = Some ht).
    { destruct (<[i:=_]> (active_hold_taps st) !! i); simpl in Hj;
        rewrite ?list_lookup_insert_ne in Hj by congruence; exact Hj. }
    specialize (H j ht Hj' Hs Hp). congruence. }
  destruct (active_hold_taps st2 !! i) as [ht|]; [|exact H2].
  destruct (is_quick_tap _ _); [|exact H2].
  apply decide_hold_tap_one_undecided, H2.
Qed.

Lemma on_hold_tap_binding_released_one_undecided event result st :
  one_undecided st ->
  one_undecided (snd (on_hold_tap_binding_released invoke raise event result st)).
Proof.
  intros H. unfold on_hold_tap_binding_released.
  destruct (find_hold_tap _ _) as [i|];
    [|apply (one_undecided_same_slots st); [| |exact H]; reflexivity].
  cbv zeta. cbn [snd].
  set (st0 := k_work_cancel_delayable i st).
  assert (H0 : one_undecided st0).
  { subst st0. unfold k_work_cancel_delayable.
    destruct (active_hold_taps st !! i) eqn:Hi; [|exact H].
    eapply one_undecided_update; eauto. }
  clearbody st0.
  set (st1 := match active_hold_taps st0 !! i with Some _ => _ | None => _ end).
  assert (H1 : one_undecided st1).
  { subst st1. destruct (active_hold_taps st0 !! i); [|exact H0].
    destruct (_ >? _); [|exact H0]. apply decide_hold_tap_one_undecided, H0. }
  clearbody st1.
  set (st3 := decide_retro_tap invoke i _).
  assert (H3 : one_undecided st3).
  { apply decide_retro_tap_one_undecided, decide_hold_tap_one_undecided, H1. }
  clearbody st3.
  set (st4 := match active_hold_taps st3 !! i with Some _ => _ | None => _ end).
  assert (H4 : one_undecided st4).
  { subst st4. destruct (active_hold_taps st3 !! i); [|exact H3].
    eapply one_undecided_same_store; [apply release_binding_store|exact H3]. }
  clearbody st4.
  set (st5 := match active_hold_taps st4 !! i with Some _ => _ | None => _ end).
  assert (H5 : one_undecided st5).
  { subst st5. destruct (active_hold_taps st4 !! i); [|exact H4].
    destruct (_ && _); [|exact H4].
    eapply one_undecided_same_store; [apply invoke_binding_set_store|exact H4]. }
  clearbody st5.
  destruct (_ =? _); [|apply clear_hold_tap_one_undecided, H5].
  destruct (active_hold_taps st5 !! i) eqn:Hi; [|exact H5].
  eapply one_undecided_update; eauto.
Qed.

Lemma capture_event_one_undecided data st :
  one_undecided st -> one_undecided (snd (capture_event data st)).
Proof.
  intros H. unfold capture_event.
  destruct (capture_in _ _); [|exact H].
  apply (one_undecided_same_slots st); [| |exact H]; reflexivity.
Qed.

Lemma position_state_changed_listener_one_undecided ev st :
  one_undecided st ->
  one_undecided (snd (position_state_changed_listener invoke raise ev st)).
Proof.
  intros H. unfold position_state_changed_listener.
  set (st0 := update_hold_status_for_retro_tap invoke (ps_position ev) st).
  assert (H0 : one_undecided st0)
    by apply update_hold_status_for_retro_tap_from_one_undecided, H.
  clearbody st0. cbv zeta.
  destruct (undecided_hold_tap st0) as [u|] eqn:Hu; [|exact H0].
  destruct (active_hold_taps st0 !! u) as [ht0|] eqn:Hi; [|exact H0].
  set (st1 := if _ && _ then _ else st0).
  assert (H1 : one_undecided st1).
  { subst st1. destruct (_ && _); [|exact H0].
    eapply one_undecided_update; eauto. }
  clearbody st1.
  destruct (position ht0 =? ps_position ev).
  { destruct (ps_state ev); [|exact H1].
    apply (one_undecided_same_slots st1); [| |exact H1]; reflexivity. }
  set (st2 := if _ >? _ then _ else st1).
  assert (H2 : one_undecided st2).
  { subst st2. destruct (_ >? _); [|exact H1].
    apply decide_hold_tap_one_undecided, H1. }
  clearbody st2.
  destruct (undecided_hold_tap st2) as [u'|]; [|exact H2].
  destruct (negb (ps_state ev) && negb (have_captured_keydown_event _ st2));
    cbn [snd]; [exact H2|].
  apply decide_hold_tap_one_undecided, capture_event_one_undecided, H2.
Qed.

Lemma keycode_state_changed_listener_one_undecided ev st :
  one_undecided st ->
  one_undecided (snd (keycode_state_changed_listener ev st)).
Proof.
  intros H. unfold keycode_state_changed_listener.
  set (st0 := if _ && _ then _ else st).
  assert (H0 : one_undecided st0).
  { subst st0. destruct (_ && _); [|exact H].
    unfold store_last_tapped. destruct (_ >? _); [|exact H].
    apply (one_undecided_same_slots st); [| |exact H]; reflexivity. }
  clearbody st0. cbv zeta.
  destruct (undecided_hold_tap st0) as [u|]; [|exact H0].
  destruct (negb _); [exact H0|].
  destruct (active_hold_taps st0 !! u) as [ht|]; [|exact H0].
  destruct (_ && _); cbn [snd]; [exact H0|].
  apply capture_event_one_undecided, H0.
Qed.

Lemma timer_work_handler_one_undecided i st :
  one_undecided st ->
  one_undecided (behavior_contextual_hold_tap_timer_work_handler invoke raise i st).
Proof.
  intros H. unfold behavior_contextual_hold_tap_timer_work_handler.
  destruct (active_hold_taps st !! i) as [ht|] eqn:Hi; [|exact H].
  assert (H0 : one_undecided (set_hold_tap i (set_work None ht) st))
    by (eapply one_undecided_update; eauto).
  destruct (work_is_cancelled ht).
  - apply clear_hold_tap_one_undecided, H0.
  - apply decide_hold_tap_one_undecided, H0.
Qed.

End OneUndecided.

Lemma event_manager_handle_one_undecided env raise now :
  raise_keeps_one_undecided raise ->
  raise_keeps_one_undecided (event_manager_handle env raise now).
Proof.
  intros Hr e st H. unfold event_manager_handle.
  assert (Hl : one_undecided
                 (snd (behavior_contextual_hold_tap_listener
                         (invoke_result env) raise e st))).
  { destruct e as [|ev|ev]; simpl.
    - exact H.
    - apply position_state_changed_listener_one_undecided; assumption.
    - apply keycode_state_changed_listener_one_undecided; assumption. }
  destruct (behavior_contextual_hold_tap_listener _ raise e st) as [[|] st'];
    simpl in Hl; [|exact Hl].
  cbv zeta.
  assert (Hb : one_undecided (with_bubbled (bubbled st' ++ [e]) st')).
  { apply (one_undecided_same_slots st'); [| |exact Hl]; reflexivity. }
  destruct e as [|ev|ev]; [exact Hb| |].
  - unfold keymap_apply. destruct (keymap env (ps_position ev)); [|exact Hb].
    destruct (ps_state ev).
    + apply on_hold_tap_binding_pressed_one_undecided; assumption.
    + apply on_hold_tap_binding_released_one_undecided; assumption.
  - apply (one_undecided_same_slots (with_bubbled (bubbled st' ++ [ET_CODE_CHANGED ev]) st'));
      [| |exact Hb];
      unfold contextual_hold_tap_listener, cht_record_last_key;
      repeat match goal with |- context [if ?b then _ else _] => destruct b end;
      reflexivity.
Qed.

Lemma zmk_event_raise_one_undecided env now depth :
  raise_keeps_one_undecided (zmk_event_raise env now depth).
Proof.
  induction depth as [|d IH]; [intros e st H; exact H|].
  simpl. apply event_manager_handle_one_undecided. exact IH.
Qed.

Lemma engine_init_one_undecided held cap : one_undecided (engine_init held cap).
Proof.
  intros j ht Hj _ Hp. simpl in Hj.
  apply lookup_replicate in Hj as (-> & _). contradiction Hp. reflexivity.
Qed.

Lemma run_one_undecided env inputs st :
  one_undecided st -> one_undecided (run env inputs st).
Proof.
  unfold run. revert st. induction inputs as [|inp l IH]; intros st H; simpl;
    [exact H|].
  apply IH. destruct inp as [now e|now i].
  - apply (zmk_event_raise_one_undecided env now (S (weight st))). exact H.
  - apply timer_work_handler_one_undecided;
      [apply zmk_event_raise_one_undecided|exact H].
Qed.

(** C5: at every moment of a run at most one hold-tap is undecided (a slot in
    use that is still undecided is the one [undecided_hold_tap] points to),
    and a hold-tap binding press that arrives while a hold-tap is undecided is
    swallowed: the handler returns [ZMK_BEHAVIOR_OPAQUE] and the state is the
    one it was called in (no record stored, no flavor selected, no timer
    scheduled, the undecided hold-tap untouched). *)
Theorem at_most_one_undecided_hold_tap :
  (forall env inputs held cap,
     one_undecided (run env inputs (engine_init held cap)))
  /\ (forall invoke raise cfg event now st u,
        undecided_hold_tap st = Some u ->
        on_hold_tap_binding_pressed invoke raise cfg event now st
        = (ZMK_BEHAVIOR_OPAQUE, st)).
Proof.
  split.
  - intros. apply run_one_undecided, engine_init_one_undecided.
  - intros invoke raise cfg event now st u Hu.
    unfold on_hold_tap_binding_pressed. rewrite Hu. reflexivity.
Qed.

(** ** The nesting of raises is bounded *)

Lemma weight_same_buffer st st' : same_buffer st st' -> weight st' = weight st.
Proof. intros (Hu & Hc). unfold weight. rewrite Hu, Hc. reflexivity. Qed.

Lemma count_occupied_vacate slots i e :
  slots !! i = Some e -> occupied e ->
  S (count_occupied (<[i := ET_NONE]> slots)) = count_occupied slots.
Proof.
  revert i. induction slots as [|x l IH]; intros i Hi He; [discriminate|].
  destruct i as [|i]; simpl in *.
  - injection Hi as ->. destruct e; [contradiction He|..]; reflexivity.
  - specialize (IH i Hi He). destruct x; simpl; lia.
Qed.

Lemma count_occupied_capture slots data slots' :
  capture_in slots data = Some slots' ->
  (count_occupied slots' <= S (count_occupied slots))%nat.
Proof.
  revert slots'. induction slots as [|x l IH]; intros slots'; simpl; [discriminate|].
  destruct x.
  - intros [= <-]. destruct data; simpl; lia.
  - destruct (capture_in l data) as [l'|]; simpl; [|discriminate].
    intros [= <-]. specialize (IH l' eq_refl). simpl. lia.
  - destruct (capture_in l data) as [l'|]; simpl; [|discriminate].
    intros [= <-]. specialize (IH l' eq_refl). simpl. lia.
Qed.

Lemma weight_capture_event data st :
  undecided_hold_tap (snd (capture_event data st)) = undecided_hold_tap st
  /\ (weight (snd (capture_event data st)) <= weight st + 2)%nat.
Proof.
  unfold capture_event.
  destruct (capture_in (captured_events st) data) as [l|] eqn:E; simpl.
  - split; [reflexivity|]. apply count_occupied_capture in E.
    unfold weight. simpl. lia.
  - split; [reflexivity|lia].
Qed.

Section Depth.

Variable invoke : zmk_behavior_binding -> zmk_behavior_binding_event -> bool -> Z.
Variables r1 r2 : captured_event -> engine -> engine.
Variable m : nat.
Hypothesis agree : agree_below m r1 r2.

Lemma release_captured_events_from_agree n :
  forall i st,
    (weight st <= m + 1)%nat ->
    release_captured_events_from r1 n i st = release_captured_events_from r2 n i st
    /\ (weight (release_captured_events_from r1 n i st) <= weight st)%nat.
Proof.
  induction n as [|n IH]; intros i st Hw; simpl; [split; [reflexivity|lia]|].
  destruct (captured_events st !! i) as [e|] eqn:Hi; [|split; [reflexivity|lia]].
  set (st1 := with_captured (<[i:=ET_NONE]> (captured_events st)) st).
  set (st2 := match undecided_hold_tap st1 with
              | Some _ => k_msleep 10 st1 | None => st1 end).
  assert (Hstep : occupied e ->
            release_captured_events_from r1 n (S i) (r1 e st2)
            = release_captured_events_from r2 n (S i) (r2 e st2)
            /\ (weight (release_captured_events_from r1 n (S i) (r1 e st2))
                <= weight st)%nat).
  { intros He.
    assert (H1 : S (S (weight st1)) = weight st).
    { subst st1. unfold weight. simpl.
      pose proof (count_occupied_vacate _ _ _ Hi He). lia. }
    assert (H2 : weight st2 = weight st1).
    { apply weight_same_buffer. subst st2.
      destruct (undecided_hold_tap st1); split; reflexivity. }
    destruct (agree e st2) as (Heq & Hle); [lia|].
    rewrite <- Heq.
    destruct (IH (S i) (r1 e st2)) as (Heq' & Hle'); [lia|].
    split; [exact Heq'|lia]. }
  destruct e; [split; [reflexivity|lia]| |]; apply Hstep; discriminate.
Qed.

Lemma release_captured_events_agree st :
  (weight st <= m + 1)%nat ->
  release_captured_events r1 st = release_captured_events r2 st
  /\ (weight (release_captured_events r1 st) <= weight st)%nat.
Proof.
  intros Hw. unfold release_captured_events.
  destruct (undecided_hold_tap st); [split; [reflexivity|lia]|].
  apply release_captured_events_from_agree, Hw.
Qed.

Lemma commit_decision_agree i decided st :
  undecided_hold_tap st <> None ->
  (weight st <= m + 2)%nat ->
  commit_decision invoke r1 i decided st = commit_decision invoke r2 i decided st
  /\ (weight (commit_decision invoke r1 i decided st) <= weight st)%nat.
Proof.
  intros Hu Hw. unfold commit_decision. cbv zeta.
  set (st1 := snd (press_binding invoke decided _)).
  assert (H1 : S (weight st1) = weight st).
  { subst st1.
    rewrite (weight_same_buffer _ _
               (same_store_buffer _ _ (press_binding_store invoke decided _))).
    unfold weight. simpl. destruct (undecided_hold_tap st); [lia|congruence]. }
  destruct (release_captured_events_agree st1) as (Heq & Hle); [lia|].
  split; [exact Heq|lia].
Qed.

Lemma decide_hold_tap_agree i dm st :
  (weight st <= m + 2)%nat ->
  decide_hold_tap invoke r1 i dm st = decide_hold_tap invoke r2 i dm st
  /\ (weight (decide_hold_tap invoke r1 i dm st) <= weight st)%nat.
Proof.
  intros Hw. unfold decide_hold_tap.
  destruct (active_hold_taps st !! i) as [hold_tap|]; [|split; [reflexivity|lia]].
  destruct (bool_decide (status_of hold_tap = STATUS_UNDECIDED)); simpl;
    [|split; [reflexivity|lia]].
  destruct (decide (undecided_hold_tap st = Some i)) as [Hu|Hu];
    [|rewrite bool_decide_eq_false_2 by exact Hu; split; [reflexivity|simpl; lia]].
  rewrite bool_decide_eq_true_2 by exact Hu. simpl.
  destruct (_ && _).
  { split; [reflexivity|].
    rewrite (weight_same_buffer st); [lia|].
    apply same_store_buffer, invoke_binding_set_store. }
  destruct (bool_decide _); [split; [reflexivity|lia]|].
  apply commit_decision_agree; [congruence|exact Hw].
Qed.

Lemma on_hold_tap_binding_pressed_agree cfg event now st :
  (weight st <= m + 1)%nat ->
  on_hold_tap_binding_pressed invoke r1 cfg event now st
  = on_hold_tap_binding_pressed invoke r2 cfg event now st
  /\ (weight (snd (on_hold_tap_binding_pressed invoke r1 cfg event now st))
      <= weight st + 1)%nat.
Proof.
  intros Hw. unfold on_hold_tap_binding_pressed.
  destruct (undecided_hold_tap st) eqn:Hu; [split; [reflexivity|simpl; lia]|].
  unfold store_hold_tap.
  destruct (find_hold_tap_from _ _ _) as [i|];
    [|split; [reflexivity|simpl; unfold weight; simpl; lia]].
  destruct (active_hold_taps st !! i) as [old|];
    [|split; [reflexivity|simpl; unfold weight; simpl; lia]].
  cbv zeta. cbn [snd].
  set (st2 := with_undecided (Some i) _).
  assert (H2 : weight st2 = S (weight st)).
  { subst st2. unfold weight. simpl. rewrite Hu.
    destruct (<[i:=_]> (active_hold_taps st) !! i); simpl; lia. }
  clearbody st2.
  set (q1 := match active_hold_taps st2 !! i with
             | Some ht => if is_quick_tap ht st2
                          then decide_hold_tap invoke r1 i HT_QUICK_TAP st2 else st2
             | None => st2 end).
  set (q2 := match active_hold_taps st2 !! i with
             | Some ht => if is_quick_tap ht st2
                          then decide_hold_tap invoke r2 i HT_QUICK_TAP st2 else st2
             | None => st2 end).
  assert (Hq : q1 = q2 /\ (weight q1 <= weight st2)%nat).
  { subst q1 q2. destruct (active_hold_taps st2 !! i); [|split; [reflexivity|lia]].
    destruct (is_quick_tap _ _); [|split; [reflexivity|lia]].
    apply decide_hold_tap_agree. lia. }
  destruct Hq as (<- & Hq). clearbody q1.
  destruct (decide_hold_tap_agree i HT_KEY_DOWN q1) as (<- & Hk); [lia|].
  split; [reflexivity|].
  rewrite (weight_same_buffer _ _ (schedule_tapping_term_timer_same_buffer _ _ _ _)).
  lia.
Qed.

Lemma on_hold_tap_binding_released_agree event result st :
  (weight st <= m + 2)%nat ->
  on_hold_tap_binding_released invoke r1 event result st
  = on_hold_tap_binding_released invoke r2 event result st
  /\ (weight (snd (on_hold_tap_binding_released invoke r1 event result st))
      <= weight st)%nat.
Proof.
  intros Hw. unfold on_hold_tap_binding_released.
  destruct (find_hold_tap _ _) as [i|];
    [|split; [reflexivity|simpl; unfold weight; simpl; lia]].
  cbv zeta. cbn [snd].
  set (st0 := k_work_cancel_delayable i st).
  assert (H0 : weight st0 = weight st).
  { apply weight_same_buffer. subst st0. unfold k_work_cancel_delayable.
    destruct (active_hold_taps st !! i); split; reflexivity. }
  clearbody st0.
  set (a1 := match active_hold_taps st0 !! i with
             | Some ht => if be_timestamp event >? _
                          then decide_hold_tap invoke r1 i HT_TIMER_EVENT st0 else st0
             | None => st0 end).
  set (a2 := match active_hold_taps st0 !! i with
             | Some ht => if be_timestamp event >? _
                          then decide_hold_tap invoke r2 i HT_TIMER_EVENT st0 else st0
             | None => st0 end).
  assert (Ha : a1 = a2 /\ (weight a1 <= weight st0)%nat).
  { subst a1 a2. destruct (active_hold_taps st0 !! i); [|split; [reflexivity|lia]].
    destruct (_ >? _); [|split; [reflexivity|lia]].
    apply decide_hold_tap_agree. lia. }
  destruct Ha as (<- & Ha). clearbody a1.
  destruct (decide_hold_tap_agree i HT_KEY_UP a1) as (<- & Hk); [lia|].
  split; [reflexivity|].
  set (st2 := decide_hold_tap invoke r1 i HT_KEY_UP a1) in *. clearbody st2.
  set (st3 := decide_retro_tap invoke i st2).
  assert (H3 : weight st3 = weight st2)
    by apply weight_same_buffer, decide_retro_tap_same_buffer.
  clearbody st3.
  set (st4 := match active_hold_taps st3 !! i with Some _ => _ | None => _ end).
  assert (H4 : weight st4 = weight st3).
  { apply weight_same_buffer. subst st4.
    destruct (active_hold_taps st3 !! i); [|apply same_buffer_refl].
    apply same_store_buffer, release_binding_store. }
  clearbody st4.
  set (st5 := match active_hold_taps st4 !! i with Some _ => _ | None => _ end).
  assert (H5 : weight st5 = weight st4).
  { apply weight_same_buffer. subst st5.
    destruct (active_hold_taps st4 !! i); [|apply same_buffer_refl].
    destruct (_ && _); [|apply same_buffer_refl].
    apply same_store_buffer, invoke_binding_set_store. }
  clearbody st5.
  match goal with |- (weight ?x <= _)%nat => assert (H6 : weight x = weight st5) end.
  { apply weight_same_buffer.
    destruct (_ =? _); [|apply clear_hold_tap_same_buffer].
    destruct (active_hold_taps st5 !! i); split; reflexivity. }
  lia.
Qed.

Lemma position_state_changed_listener_agree ev st :
  (weight st <= m)%nat ->
  position_state_changed_listener invoke r1 ev st
  = position_state_changed_listener invoke r2 ev st
  /\ (weight (snd (position_state_changed_listener invoke r1 ev st))
      <= weight st
         + match fst (position_state_changed_listener invoke r1 ev st) with
           | ZMK_EV_EVENT_CAPTURED => 2
           | ZMK_EV_EVENT_BUBBLE => 0
           end)%nat.
Proof.
  intros Hw. unfold position_state_changed_listener.
  set (st0 := update_hold_status_for_retro_tap invoke (ps_position ev) st).
  assert (H0 : weight st0 = weight st)
    by apply weight_same_buffer, update_hold_status_for_retro_tap_from_same_buffer.
  clearbody st0. cbv zeta.
  destruct (undecided_hold_tap st0) as [u|] eqn:Hu;
    [|split; [reflexivity|simpl; lia]].
  destruct (active_hold_taps st0 !! u) as [ht0|]; [|split; [reflexivity|simpl; lia]].
  set (st1 := if _ && _ then _ else st0).
  assert (H1 : weight st1 = weight st0).
  { apply weight_same_buffer. subst st1. destruct (_ && _); split; reflexivity. }
  clearbody st1.
  destruct (position ht0 =? ps_position ev).
  { destruct (ps_state ev); (split; [reflexivity|]); simpl; [|lia].
    unfold weight in *. simpl. lia. }
  set (a1 := if _ >? _ then decide_hold_tap invoke r1 u HT_TIMER_EVENT st1 else st1).
  set (a2 := if _ >? _ then decide_hold_tap invoke r2 u HT_TIMER_EVENT st1 else st1).
  assert (Ha : a1 = a2 /\ (weight a1 <= weight st1)%nat).
  { subst a1 a2. destruct (_ >? _); [|split; [reflexivity|lia]].
    apply decide_hold_tap_agree. lia. }
  destruct Ha as (<- & Ha). clearbody a1.
  destruct (undecided_hold_tap a1) as [u'|] eqn:Hu1;
    [|split; [reflexivity|simpl; lia]].
  destruct (negb (ps_state ev) && negb (have_captured_keydown_event _ a1));
    [split; [reflexivity|simpl; lia]|].
  destruct (weight_capture_event (ET_POS_CHANGED ev) a1) as (_ & Hc).
  destruct (decide_hold_tap_agree u'
              (if ps_state ev then HT_OTHER_KEY_DOWN else HT_OTHER_KEY_UP)
              (snd (capture_event (ET_POS_CHANGED ev) a1))) as (<- & Hd); [lia|].
  split; [reflexivity|]. cbn [fst snd]. lia.
Qed.

Lemma keycode_state_changed_listener_weight ev st :
  (weight (snd (keycode_state_changed_listener ev st))
   <= weight st
      + match fst (keycode_state_changed_listener ev st) with
        | ZMK_EV_EVENT_CAPTURED => 2
        | ZMK_EV_EVENT_BUBBLE => 0
        end)%nat.
Proof.
  unfold keycode_state_changed_listener.
  set (st0 := if _ && _ then _ else st).
  assert (H0 : weight st0 = weight st).
  { apply weight_same_buffer. subst st0.
    destruct (_ && _); [|apply same_buffer_refl].
    unfold store_last_tapped. destruct (_ >? _); split; reflexivity. }
  clearbody st0. cbv zeta.
  destruct (undecided_hold_tap st0) as [u|]; [|simpl; lia].
  destruct (negb _); [simpl; lia|].
  destruct (active_hold_taps st0 !! u) as [ht|]; [|simpl; lia].
  destruct (_ && _); cbn [fst snd]; [lia|].
  destruct (weight_capture_event (ET_CODE_CHANGED ev) st0) as (_ & Hc). lia.
Qed.

End Depth.

Lemma event_manager_handle_agree env now m r1 r2 :
  agree_below m r1 r2 ->
  agree_below (S m) (event_manager_handle env r1 now) (event_manager_handle env r2 now).
Proof.
  intros Ha e st Hw. unfold event_manager_handle.
  assert (Hl : behavior_contextual_hold_tap_listener (invoke_result env) r1 e st
               = behavior_contextual_hold_tap_listener (invoke_result env) r2 e st
               /\ (weight (snd (behavior_contextual_hold_tap_listener
                                  (invoke_result env) r1 e st))
                   <= weight st
                      + match fst (behavior_contextual_hold_tap_listener
                                     (invoke_result env) r1 e st) with
                        | ZMK_EV_EVENT_CAPTURED => 2
                        | ZMK_EV_EVENT_BUBBLE => 0
                        end)%nat).
  { destruct e as [|ev|ev]; simpl.
    - split; [reflexivity|lia].
    - apply position_state_changed_listener_agree with (m := m); [exact Ha|lia].
    - split; [reflexivity|apply keycode_state_changed_listener_weight]. }
  destruct Hl as (<- & Hl).
  destruct (behavior_contextual_hold_tap_listener _ r1 e st) as [[|] st'];
    cbn [fst snd] in Hl; [|split; [reflexivity|exact Hl]].
  cbv zeta.
  set (stb := with_bubbled (bubbled st' ++ [e]) st').
  assert (Hb : weight stb = weight st') by reflexivity.
  clearbody stb.
  destruct e as [|ev|ev]; [split; [reflexivity|lia]| |].
  - unfold keymap_apply.
    destruct (keymap env (ps_position ev)); [|split; [reflexivity|lia]].
    destruct (ps_state ev).
    + destruct (on_hold_tap_binding_pressed_agree (invoke_result env) r1 r2 m Ha
                  b {| be_position := ps_position ev;
                       be_timestamp := ps_timestamp ev;
                       be_source := ps_source ev |} now stb) as (<- & Hp); [lia|].
      split; [reflexivity|lia].
    + destruct (on_hold_tap_binding_released_agree (invoke_result env) r1 r2 m Ha
                  {| be_position := ps_position ev;
                     be_timestamp := ps_timestamp ev;
                     be_source := ps_source ev |} (work_cancel_result env) stb)
        as (<- & Hp); [lia|].
      split; [reflexivity|lia].
  - split; [reflexivity|].
    rewrite (weight_same_buffer stb); [lia|].
    unfold contextual_hold_tap_listener, cht_record_last_key.
    repeat match goal with |- context [if ?b then _ else _] => destruct b end;
      split; reflexivity.
Qed.

Lemma zmk_event_raise_agree env now depth :
  agree_below depth (zmk_event_raise env now depth) (zmk_event_raise env now (S depth)).
Proof.
  induction depth as [|d IH]; [intros e st Hw; lia|].
  apply (event_manager_handle_agree env now d _ _ IH).
Qed.

(** A nesting depth above the weight of the state is never exhausted: every
    greater depth gives the same result. *)
Lemma zmk_event_raise_deep_enough env now depth depth' e st :
  (weight st < depth)%nat -> (depth <= depth')%nat ->
  zmk_event_raise env now depth' e st = zmk_event_raise env now depth e st.
Proof.
  intros Hw Hle. induction Hle as [|d' Hle IH]; [reflexivity|].
  rewrite <- IH. symmetry. apply zmk_event_raise_agree. lia.
Qed.

Lemma zmk_event_raise_agree_le env now m depth :
  (m <= depth)%nat ->
  agree_below m (zmk_event_raise env now m) (zmk_event_raise env now depth).
Proof.
  intros Hle e st Hw. split.
  - symmetry. apply zmk_event_raise_deep_enough; assumption.
  - apply zmk_event_raise_agree. exact Hw.
Qed.

Lemma zmk_event_manager_raise_exact env now depth e st :
  (weight st < depth)%nat ->
  zmk_event_raise env now depth e st = zmk_event_manager_raise env now e st.
Proof.
  intros Hw. unfold zmk_event_manager_raise.
  apply zmk_event_raise_deep_enough; lia.
Qed.

Lemma timer_fires_exact env now depth i st :
  (weight st <= depth)%nat ->
  behavior_contextual_hold_tap_timer_work_handler (invoke_result env)
    (zmk_event_raise env now depth) i st
  = timer_fires env now i st.
Proof.
  intros Hw. unfold timer_fires, behavior_contextual_hold_tap_timer_work_handler.
  destruct (active_hold_taps st !! i) as [ht|]; [|reflexivity].
  destruct (work_is_cancelled ht); [reflexivity|].
  symmetry.
  apply (decide_hold_tap_agree (invoke_result env) _ _ (weight st)
           (zmk_event_raise_agree_le env now (weight st) depth Hw)).
  rewrite (weight_same_buffer st); [lia|]. split; reflexivity.
Qed.

(** ** The alt-repeat key *)

(** C9 (as amended): when the mapping yields the "repeat previous" sentinel
    for the last key and the keymap's macro hook lets it pass, the handler
    taps the last key (unwrapped) under the modifiers that are active at that
    moment and reports the event handled; the remembered modifiers go to the
    mapping lookup only. *)
Theorem magic_repeat_taps_last_key_under_active_mods
    (get_alt : Z -> Z -> Magic.qmk -> Z)
    (process : Z -> Magic.keyrecord_t -> Magic.qmk -> bool * Magic.qmk)
    keycode record q :
  let last_key := Magic.unwrap_tap_keycode (Magic.last_keycode q) in
  get_alt last_key (Magic.last_mods q) q = Magic.QK_REP ->
  process Magic.QK_REP
    (Magic.mk_keyrecord true (Magic.tap_count record) (Magic.tap_interrupted record)) q
  = (true, q) ->
  Magic.handle_magic_tap get_alt process keycode record q
  = (false, Magic.send (Magic.Tapped last_key (Magic.active_mods q)) q).
Proof.
  intros last_key Halt Hpass. unfold Magic.handle_magic_tap.
  fold last_key. rewrite Halt, Hpass. reflexivity.
Qed.

(** * Instances *)





(** The one status that a replay changes: the retro-tap hold-tap of
    [retro_config], the press of position 20 waiting, is decided HOLD_TIMER by
    the timer; the replayed press turns it into HOLD_INTERRUPT and presses the
    hold binding before [decide_hold_tap] returns. *)
Example retro_tap_hold_is_interrupted_by_the_replay :
  let st' := decide_hold_tap accept_all (zmk_event_raise (sample_env retro_config) 300 3)
               0 HT_TIMER_EVENT (captured_press_state retro_config) in
  (status_of <$> active_hold_taps st' !! 0%nat) = Some STATUS_HOLD_INTERRUPT
  /\ sink st' = [mk_invocation (kp 225) (mk_binding_event 10 0 0) true].
Proof. vm_compute. split; reflexivity. Qed.


Lemma at_most_one_undecided_hold_tap_witness :
  let st := after_keydown (sample_config FLAVOR_BALANCED) in
  on_hold_tap_binding_pressed accept_all (fun _ s => s)
    (sample_config FLAVOR_BALANCED) (mk_binding_event 30 20 0) 20 st
  = (ZMK_BEHAVIOR_OPAQUE, st).
Proof.
  intros st.
  exact (proj2 at_most_one_undecided_hold_tap accept_all (fun _ s => s)
           (sample_config FLAVOR_BALANCED) (mk_binding_event 30 20 0) 20 st
           0%nat eq_refl).
Defined.

Lemma captured_events_are_raised_in_capture_order_witness :
  let raise := zmk_event_raise (sample_env (sample_config FLAVOR_TAP_PREFERRED)) 50 3 in
  release_captured_events raise three_waiting
  = replay raise [key_down 30 10; key_down 20 20; key_up 20 30] 0 three_waiting.
Proof.
  intros raise.
  assert (Hocc : Forall occupied [key_down 30 10; key_down 20 20; key_up 20 30])
    by (repeat constructor; discriminate).
  exact (proj1 (proj2 (captured_events_are_raised_in_capture_order
                         (sample_env (sample_config FLAVOR_TAP_PREFERRED)) 50 3
                         three_waiting _ (ET_NONE :: replicate 4 ET_NONE)
                         eq_refl eq_refl Hocc
                         (or_intror (ex_intro _ _ eq_refl))))).
Defined.

Lemma pure_tap_invocations_carry_keydown_timestamp_witness :
  sink (run (one_hold_tap_env (sample_config FLAVOR_BALANCED))
          [Event 0 (key_down 10 0); Event 50 (key_up 10 50)] (engine_init 10 40))
  = [mk_invocation (kp 4) (mk_binding_event 10 0 0) true;
     mk_invocation (kp 4) (mk_binding_event 10 0 0) false].
Proof.
  assert (H32 : in_int32 (require_prior_idle_ms (sample_config FLAVOR_BALANCED)))
    by (unfold in_int32; simpl; lia).
  exact (proj2 (pure_tap_invocations_carry_keydown_timestamp
                  (sample_config FLAVOR_BALANCED) eq_refl eq_refl H32)).
Defined.


Lemma magic_repeat_taps_last_key_under_active_mods_witness :
  Magic.handle_magic_tap Magic.get_alt_repeat_key_keycode_user
    Magic.process_magic_record Magic.QK_AREP (Magic.mk_keyrecord true 0 false)
    Magic.after_capital_a
  = (false, Magic.send (Magic.Tapped Magic.KC_A 0) Magic.after_capital_a).
Proof.
  exact (magic_repeat_taps_last_key_under_active_mods
           Magic.get_alt_repeat_key_keycode_user Magic.process_magic_record
           Magic.QK_AREP (Magic.mk_keyrecord true 0 false) Magic.after_capital_a
           eq_refl eq_refl).
Defined.

(** * Where the specification and the code part *)


(** Against C7: a letter typed at time 100 while the hold-tap pressed at time
    0 is undecided, then the release of the hold-tap at time 150: the tap puts
    the keydown timestamp 0 over the stored 100. *)
Lemma tap_after_later_keycode_lowers_last_tapped :
  let env := one_hold_tap_env (sample_config FLAVOR_BALANCED) in
  let before :=
    run env [Event 0 (key_down 10 0); Event 100 (letter_pressed 100)]
      (engine_init 10 40) in
  let after := run env [Event 150 (key_up 10 150)] before in
  lt_timestamp (last_tapped before) = 100
  /\ lt_timestamp (last_tapped after) = 0
  /\ ~ (lt_timestamp (last_tapped before) <= lt_timestamp (last_tapped after)).
Proof.
  intros env before after.
  assert (H1 : lt_timestamp (last_tapped before) = 100) by reflexivity.
  assert (H2 : lt_timestamp (last_tapped after) = 0) by reflexivity.
  repeat split; try assumption. rewrite H1, H2. lia.
Qed.

(** Against C8: the two invocations of the pure tap carry timestamp 0, so
    they are not a press and a release at timestamp 50. *)
Lemma pure_tap_invocations_are_not_stamped_50 :
  sink (run (one_hold_tap_env (sample_config FLAVOR_BALANCED))
          [Event 0 (key_down 10 0); Event 50 (key_up 10 50)] (engine_init 10 40))
  <> [mk_invocation (kp 4) (mk_binding_event 10 50 0) true;
      mk_invocation (kp 4) (mk_binding_event 10 50 0) false].
Proof. vm_compute. discriminate. Qed.

(** Against C9: after a capital A (left shift remembered, no modifier down
    now) the alt-repeat key taps A bare: what is sent is not A under the
    remembered modifiers. *)
Lemma magic_repeat_drops_remembered_mods :
  let q := Magic.after_capital_a in
  Magic.sent
    (snd (Magic.handle_magic_tap Magic.get_alt_repeat_key_keycode_user
            Magic.process_magic_record Magic.QK_AREP
            (Magic.mk_keyrecord true 0 false) q))
  <> [Magic.Tapped (Magic.last_keycode q) (Magic.last_mods q)].
Proof. vm_compute. discriminate. Qed.


(** * Further properties of the code *)

Lemma init_instances_done n st : init_instances n false st = (false, st).
Proof. induction n as [|n IH]; simpl; [reflexivity|exact IH]. Qed.

(** X1: [behavior_contextual_hold_tap_init] frees every slot of
    [active_hold_taps] on its first call, however many device instances call
    it, and changes nothing on any later call: a hold-tap that is in use when
    a later instance is initialised keeps its slot. *)
Theorem init_frees_every_slot_once :
  (forall n held cap,
     init_instances (S n) true (engine_boot held cap) = (false, engine_init held cap))
  /\ (forall n st, init_instances n false st = (false, st)).
Proof.
  split; [|exact init_instances_done].
  intros n held cap. simpl. rewrite init_instances_done. f_equal.
  unfold engine_boot, engine_init, with_hold_taps. simpl. f_equal.
  rewrite fmap_replicate. reflexivity.
Qed.

(** *** Slots *)

Lemma find_hold_tap_from_None slots k pos :
  find_hold_tap_from slots k pos = None <-> Forall (fun ht => position ht <> pos) slots.
Proof.
  revert k. induction slots as [|ht rest IH]; intros k; simpl.
  - split; [constructor|reflexivity].
  - destruct (position ht =? pos) eqn:E.
    + apply Z.eqb_eq in E. split; [discriminate|].
      intros H. inversion H; subst. contradiction.
    + apply Z.eqb_neq in E. rewrite IH. split.
      * intros H. constructor; assumption.
      * intros H. inversion H; assumption.
Qed.

Lemma find_hold_tap_from_first slots k pos i :
  find_hold_tap_from slots k pos = Some i <->
  (k <= i)%nat
  /\ (exists ht, slots !! (i - k)%nat = Some ht /\ position ht = pos)
  /\ (forall j ht, (j < i - k)%nat -> slots !! j = Some ht -> position ht <> pos).
Proof.
  revert k i. induction slots as [|ht rest IH]; intros k i; simpl.
  - split; [discriminate|]. intros (_ & (ht & H & _) & _). discriminate.
  - destruct (position ht =? pos) eqn:E.
    + apply Z.eqb_eq in E. split.
      * intros [= <-]. rewrite Nat.sub_diag. split; [lia|]. split.
        -- exists ht. split; [reflexivity|exact E].
        -- intros j ht' Hj. lia.
      * intros (Hk & _ & Hfirst). f_equal.
        destruct (decide (i = k)) as [->|Hne]; [reflexivity|].
        exfalso. apply (Hfirst 0%nat ht); [lia|reflexivity|exact E].
    + apply Z.eqb_neq in E. rewrite IH. split.
      * intros (Hk & (ht' & Hl & Hp) & Hfirst). split; [lia|]. split.
        -- exists ht'. split; [|exact Hp].
           replace (i - k)%nat with (S (i - S k)) by lia. exact Hl.
        -- intros [|j] ht'' Hj Hl'; simpl in Hl'.
           ++ injection Hl' as <-. exact E.
           ++ apply (Hfirst j ht''); [lia|exact Hl'].
      * intros (Hk & (ht' & Hl & Hp) & Hfirst).
        assert (Hik : i <> k).
        { intros ->. rewrite Nat.sub_diag in Hl. simpl in Hl.
          injection Hl as <-. contradiction. }
        split; [lia|]. split.
        -- exists ht'. split; [|exact Hp].
           replace (i - k)%nat with (S (i - S k)) in Hl by lia. exact Hl.
        -- intros j ht'' Hj Hl'. apply (Hfirst (S j) ht''); [lia|exact Hl'].
Qed.

Lemma store_hold_tap_Some event cfg st i st' :
  store_hold_tap event cfg st = (Some i, st') ->
  exists old,
    active_hold_taps st !! i = Some old
    /\ position old = CHT_POSITION_NOT_USED
    /\ (forall j ht, (j < i)%nat -> active_hold_taps st !! j = Some ht -> in_use ht)
    /\ st' = set_hold_tap i
               (mk_hold_tap (be_position event) (be_source event) (be_timestamp event)
                  STATUS_UNDECIDED (normal_flavor cfg) cfg (work old)
                  (work_is_cancelled old) (-1)) st.
Proof.
  unfold store_hold_tap.
  destruct (find_hold_tap_from _ _ _) as [k|] eqn:Hf; [|discriminate].
  apply find_hold_tap_from_first in Hf as (_ & (old & Hl & Hp) & Hfirst).
  rewrite Nat.sub_0_r in Hl, Hfirst. rewrite Hl.
  intros [= <- <-]. exists old. repeat split; assumption.
Qed.

(** X2: a hold-tap stored by [store_hold_tap] is the one [find_hold_tap] finds
    for its position (no other slot holding that position); once
    [clear_hold_tap] has cleared the slot the position is found no more, and
    the next [store_hold_tap] takes the same slot again. *)
Theorem stored_hold_tap_is_found_and_cleared event cfg st i st' :
  store_hold_tap event cfg st = (Some i, st') ->
  Forall (fun ht => position ht <> be_position event) (active_hold_taps st) ->
  find_hold_tap (be_position event) st' = Some i
  /\ find_hold_tap (be_position event) (clear_hold_tap i st') = None
  /\ forall event2 cfg2,
       fst (store_hold_tap event2 cfg2 (clear_hold_tap i st')) = Some i.
Proof.
  intros Hs Hno.
  apply store_hold_tap_Some in Hs as (old & Hl & Hp & Hfirst & ->).
  set (rec := mk_hold_tap _ _ _ _ _ _ _ _ _).
  assert (Hlt : (i < length (active_hold_taps st))%nat)
    by (eapply lookup_lt_Some; eauto).
  assert (Hi : active_hold_taps (set_hold_tap i rec st) !! i = Some rec).
  { simpl. apply list_lookup_insert_eq. exact Hlt. }
  assert (Hne : be_position event <> CHT_POSITION_NOT_USED).
  { intros E. rewrite Forall_lookup in Hno. apply (Hno i old Hl). congruence. }
  split; [|split].
  - unfold find_hold_tap. apply find_hold_tap_from_first. split; [lia|].
    rewrite Nat.sub_0_r. split.
    + exists rec. split; [exact Hi|reflexivity].
    + intros j ht Hj Hl'. simpl in Hl'.
      rewrite list_lookup_insert_ne in Hl' by lia.
      rewrite Forall_lookup in Hno. exact (Hno j ht Hl').
  - unfold find_hold_tap. apply find_hold_tap_from_None.
    unfold clear_hold_tap. rewrite Hi. simpl.
    rewrite list_insert_insert_eq. apply Forall_insert; [exact Hno|].
    simpl. congruence.
  - intros event2 cfg2. unfold store_hold_tap, clear_hold_tap. rewrite Hi.
    set (cleared := mk_hold_tap CHT_POSITION_NOT_USED _ _ _ _ _ _ _ _).
    assert (Hf : find_hold_tap_from
                   (active_hold_taps (set_hold_tap i cleared (set_hold_tap i rec st)))
                   0 CHT_POSITION_NOT_USED = Some i).
    { apply find_hold_tap_from_first. split; [lia|]. rewrite Nat.sub_0_r. split.
      - exists cleared. split; [|reflexivity]. simpl.
        apply list_lookup_insert_eq. rewrite length_insert. exact Hlt.
      - intros j ht Hj Hl'. simpl in Hl'.
        rewrite !list_lookup_insert_ne in Hl' by lia.
        exact (Hfirst j ht Hj Hl'). }
    rewrite Hf.
    assert (Hc : active_hold_taps (set_hold_tap i cleared (set_hold_tap i rec st)) !! i
                 = Some cleared).
    { simpl. apply list_lookup_insert_eq. rewrite length_insert. exact Hlt. }
    rewrite Hc. reflexivity.
Qed.

(** X3: the two lookups of the behaviour driver that can fail.  A press when
    every slot of [active_hold_taps] is in use, and a release at a position
    that no slot holds, log an error and return [ZMK_BEHAVIOR_OPAQUE]; nothing
    is stored, marked undecided, scheduled or sent to the action sink. *)
Theorem hold_tap_table_misses_are_logged invoke raise :
  (forall cfg event now st,
     undecided_hold_tap st = None ->
     Forall in_use (active_hold_taps st) ->
     on_hold_tap_binding_pressed invoke raise cfg event now st
     = (ZMK_BEHAVIOR_OPAQUE, LOG_ERR "unable to store hold-tap info" st))
  /\ (forall event result st,
        Forall (fun ht => position ht <> be_position event) (active_hold_taps st) ->
        on_hold_tap_binding_released invoke raise event result st
        = (ZMK_BEHAVIOR_OPAQUE, LOG_ERR "ACTIVE_HOLD_TAP_CLEANED_UP_TOO_EARLY" st)).
Proof.
  split.
  - intros cfg event now st Hu Hfull.
    unfold on_hold_tap_binding_pressed, store_hold_tap. rewrite Hu.
    apply (find_hold_tap_from_None _ 0%nat) in Hfull. rewrite Hfull. reflexivity.
  - intros event result st Hno.
    unfold on_hold_tap_binding_released, find_hold_tap.
    apply (find_hold_tap_from_None _ 0%nat) in Hno. rewrite Hno. reflexivity.
Qed.

(** *** Binding sets *)

Lemma invocations_of_all invoke bindings event pressed :
  Forall (fun b => invoke b event pressed = 0) bindings ->
  invocations_of invoke bindings event pressed
  = (fun b => mk_invocation b event pressed) <$> bindings.
Proof.
  induction 1 as [|b l Hb _ IH]; simpl; [reflexivity|].
  rewrite Hb. simpl. f_equal. exact IH.
Qed.

(** X4: [invoke_binding_set] invokes the bindings in array order and stops at
    the first that returns non-zero, whose code it returns: the bindings
    behind it are not invoked.  When all return 0, all are invoked and the
    result is 0. *)
Theorem invoke_binding_set_stops_at_first_failure invoke event pressed st :
  (forall bindings,
     Forall (fun b => invoke b event pressed = 0) bindings ->
     invoke_binding_set invoke bindings event pressed st
     = (0, with_sink (sink st ++ ((fun b => mk_invocation b event pressed) <$> bindings)) st))
  /\ (forall done failing rest,
        Forall (fun b => invoke b event pressed = 0) done ->
        invoke failing event pressed <> 0 ->
        invoke_binding_set invoke (done ++ failing :: rest) event pressed st
        = (invoke failing event pressed,
           with_sink
             (sink st ++ ((fun b => mk_invocation b event pressed) <$> (done ++ [failing])))
             st)).
Proof.
  split.
  - intros bindings Hall.
    rewrite (surjective_pairing (invoke_binding_set _ _ _ _ _)).
    rewrite invoke_binding_set_sink, invocations_of_all by exact Hall.
    f_equal. revert st. induction Hall as [|b l Hb _ IH]; intros st; simpl.
    + reflexivity.
    + rewrite Hb. simpl. apply IH.
  - intros done failing rest Hall Hfail. revert st.
    induction Hall as [|b l Hb _ IH]; intros st; simpl.
    + apply Z.eqb_neq in Hfail. rewrite Hfail. reflexivity.
    + rewrite Hb. simpl. rewrite IH. simpl. rewrite <- app_assoc. reflexivity.
Qed.

(** *** Retro-tap bookkeeping on key events *)

Section RetroTap.

Variable invoke : zmk_behavior_binding -> zmk_behavior_binding_event -> bool -> Z.

Lemma update_hold_status_for_retro_tap_from_spec pos todo :
  forall done st,
    active_hold_taps st = done ++ todo ->
    update_hold_status_for_retro_tap_from invoke (length todo) (length done) pos st
    = with_sink (sink st ++ flat_map (retro_tap_hold_presses invoke pos) todo)
        (with_hold_taps (done ++ (interrupt_retro_tap pos <$> todo)) st).
Proof.
  induction todo as [|ht rest IH]; intros done st Hs.
  - simpl. rewrite app_nil_r in Hs. subst done.
    rewrite (app_nil_r (sink st)), (app_nil_r (active_hold_taps st)).
    destruct st; reflexivity.
  - simpl length. simpl update_hold_status_for_retro_tap_from.
    assert (Hl : active_hold_taps st !! length done = Some ht).
    { rewrite Hs, lookup_app_r by lia. rewrite Nat.sub_diag. reflexivity. }
    rewrite Hl.
    assert (Hlen : S (length done) = length (done ++ [ht]))
      by (rewrite length_app; simpl; lia).
    unfold retro_tap_hold_presses at 1, interrupt_retro_tap at 1.
    simpl flat_map. simpl fmap.
    unfold retro_tap_pending.
    destruct ((position ht =? pos) || (position ht =? CHT_POSITION_NOT_USED)
              || negb (retro_tap (config ht))) eqn:Eskip.
    { simpl. rewrite Hlen, (IH (done ++ [ht]) st)
        by (rewrite <- app_assoc; exact Hs).
      rewrite <- app_assoc. reflexivity. }
    simpl negb. rewrite andb_true_l.
    destruct (bool_decide (status_of ht = STATUS_HOLD_TIMER)) eqn:Est.
    2: { simpl. rewrite Hlen, (IH (done ++ [ht]) st)
           by (rewrite <- app_assoc; exact Hs).
         rewrite <- app_assoc. reflexivity. }
    set (upgraded := set_status STATUS_HOLD_INTERRUPT ht).
    assert (Hretro : retro_tap (config ht) = true).
    { destruct (retro_tap (config ht)); [reflexivity|].
      rewrite orb_true_r in Eskip. discriminate. }
    set (st1 := set_hold_tap (length done) upgraded st).
    assert (Hs1 : active_hold_taps st1 = (done ++ [upgraded]) ++ rest).
    { subst st1. simpl. rewrite Hs.
      rewrite insert_app_r_alt by lia. rewrite Nat.sub_diag, <- app_assoc.
      reflexivity. }
    assert (Hlen' : S (length done) = length (done ++ [upgraded]))
      by (rewrite length_app; simpl; lia).
    unfold press_binding.
    change (retro_tap (config upgraded)) with (retro_tap (config ht)).
    change (hold_while_undecided (config upgraded))
      with (hold_while_undecided (config ht)).
    rewrite Hretro. simpl bool_decide. simpl andb. cbv iota.
    change (is_hold_status (status_of upgraded)) with true. cbv iota.
    destruct (hold_while_undecided (config ht)); simpl negb; cbv iota.
    + cbn [snd]. rewrite Hlen', (IH (done ++ [upgraded]) st1 Hs1).
      rewrite <- app_assoc. reflexivity.
    + unfold press_hold_binding. rewrite invoke_binding_set_sink.
      set (st2 := with_sink _ st1).
      assert (Hs2 : active_hold_taps st2 = (done ++ [upgraded]) ++ rest) by exact Hs1.
      rewrite Hlen', (IH (done ++ [upgraded]) st2 Hs2).
      subst st2. simpl. rewrite <- !app_assoc. reflexivity.
Qed.

Lemma update_hold_status_for_retro_tap_spec pos st :
  update_hold_status_for_retro_tap invoke pos st
  = with_sink
      (sink st ++ flat_map (retro_tap_hold_presses invoke pos) (active_hold_taps st))
      (with_hold_taps (interrupt_retro_tap pos <$> active_hold_taps st) st).
Proof.
  unfold update_hold_status_for_retro_tap.
  exact (update_hold_status_for_retro_tap_from_spec pos (active_hold_taps st) [] st eq_refl).
Qed.

Lemma update_hold_status_for_retro_tap_idle pos st :
  Forall (fun ht => retro_tap_pending pos ht = false) (active_hold_taps st) ->
  update_hold_status_for_retro_tap invoke pos st = st.
Proof.
  intros H. rewrite update_hold_status_for_retro_tap_spec.
  assert (E2 : interrupt_retro_tap pos <$> active_hold_taps st = active_hold_taps st).
  { induction H as [|ht l Hht _ IH]; [reflexivity|].
    rewrite fmap_cons, IH. unfold interrupt_retro_tap. rewrite Hht. reflexivity. }
  assert (E1 : flat_map (retro_tap_hold_presses invoke pos) (active_hold_taps st) = []).
  { clear E2. induction H as [|ht l Hht _ IH]; simpl; [reflexivity|].
    rewrite IH. unfold retro_tap_hold_presses. rewrite Hht. reflexivity. }
  rewrite E1, E2, app_nil_r. destruct st; reflexivity.
Qed.

(** X12: [update_hold_status_for_retro_tap] is a map over the slots: each
    hold-tap in use at another position that is configured for retro-tap and
    held by the timer becomes HOLD_INTERRUPT and has its hold bindings pressed
    (unless [hold_while_undecided] pressed them), in slot order; every other
    slot, the undecided pointer and the capture buffer stay as they are.  With
    no such hold-tap the state does not change. *)
Theorem other_key_turns_retro_tap_into_hold pos st :
  update_hold_status_for_retro_tap invoke pos st
  = with_sink
      (sink st ++ flat_map (retro_tap_hold_presses invoke pos) (active_hold_taps st))
      (with_hold_taps (interrupt_retro_tap pos <$> active_hold_taps st) st)
  /\ (Forall (fun ht => retro_tap_pending pos ht = false) (active_hold_taps st) ->
      update_hold_status_for_retro_tap invoke pos st = st).
Proof.
  split.
  - apply update_hold_status_for_retro_tap_spec.
  - apply update_hold_status_for_retro_tap_idle.
Qed.

End RetroTap.

(** *** The position listener *)

Section Listener.

Variable invoke : zmk_behavior_binding -> zmk_behavior_binding_event -> bool -> Z.
Variable raise : captured_event -> engine -> engine.

Lemma update_hold_status_for_retro_tap_lookup pos st j :
  active_hold_taps (update_hold_status_for_retro_tap invoke pos st) !! j
  = interrupt_retro_tap pos <$> active_hold_taps st !! j.
Proof.
  rewrite update_hold_status_for_retro_tap_spec. simpl. apply list_lookup_fmap.
Qed.

Lemma update_hold_status_for_retro_tap_same_buffer pos st :
  same_buffer st (update_hold_status_for_retro_tap invoke pos st).
Proof. rewrite update_hold_status_for_retro_tap_spec. split; reflexivity. Qed.

Lemma undecided_is_not_pending pos ht :
  status_of ht = STATUS_UNDECIDED -> interrupt_retro_tap pos ht = ht.
Proof.
  intros Hs. unfold interrupt_retro_tap, retro_tap_pending. rewrite Hs.
  rewrite bool_decide_eq_false_2 by discriminate. rewrite andb_false_r. reflexivity.
Qed.

Lemma own_position_is_not_pending ht :
  interrupt_retro_tap (position ht) ht = ht.
Proof.
  unfold interrupt_retro_tap, retro_tap_pending. rewrite Z.eqb_refl. reflexivity.
Qed.

(** X7: with no hold-tap undecided the listener is transparent.  A position
    event bubbles and leaves the state as it is (when no retro-tap hold-tap is
    waiting to be turned into a hold); a keycode event bubbles and at most
    moves [last_tapped]. *)
Theorem idle_engine_lets_every_event_through st :
  undecided_hold_tap st = None ->
  (forall ev,
     Forall (fun ht => retro_tap_pending (ps_position ev) ht = false)
       (active_hold_taps st) ->
     position_state_changed_listener invoke raise ev st = (ZMK_EV_EVENT_BUBBLE, st))
  /\ (forall ev,
        keycode_state_changed_listener ev st
        = (ZMK_EV_EVENT_BUBBLE,
           if kc_state ev && negb (is_mod (kc_usage_page ev) (kc_keycode ev))
           then store_last_tapped (kc_timestamp ev) st else st)).
Proof.
  intros Hu. split.
  - intros ev Hidle. unfold position_state_changed_listener.
    rewrite (update_hold_status_for_retro_tap_idle invoke) by exact Hidle.
    cbv zeta. rewrite Hu. reflexivity.
  - intros ev. unfold keycode_state_changed_listener. cbv zeta.
    assert (E : undecided_hold_tap
                  (if kc_state ev && negb (is_mod (kc_usage_page ev) (kc_keycode ev))
                   then store_last_tapped (kc_timestamp ev) st else st) = None).
    { destruct (_ && _); [|exact Hu]. unfold store_last_tapped.
      destruct (_ >? _); exact Hu. }
    rewrite E. reflexivity.
Qed.

(** X8: two kinds of position event bubble while a hold-tap is undecided,
    without being captured and without deciding it: the events of its own
    key, and, within the tapping term, the release of a key whose press is
    not in the capture buffer (it went down before the hold-tap). *)
Theorem own_events_and_earlier_releases_bubble ev st u ht :
  undecided_hold_tap st = Some u ->
  active_hold_taps st !! u = Some ht ->
  status_of ht = STATUS_UNDECIDED ->
  (position ht = ps_position ev
   \/ (ps_state ev = false
       /\ have_captured_keydown_event (ps_position ev) st = false
       /\ in_int64 (timestamp ht + tapping_term_ms (config ht))
       /\ ps_timestamp ev <= timestamp ht + tapping_term_ms (config ht))) ->
  let st' := snd (position_state_changed_listener invoke raise ev st) in
  fst (position_state_changed_listener invoke raise ev st) = ZMK_EV_EVENT_BUBBLE
  /\ captured_events st' = captured_events st
  /\ undecided_hold_tap st' = Some u
  /\ (status_of <$> active_hold_taps st' !! u) = Some STATUS_UNDECIDED.
Proof.
  intros Hu Hl Hs Hcase. cbv zeta.
  unfold position_state_changed_listener.
  pose proof (update_hold_status_for_retro_tap_same_buffer (ps_position ev) st)
    as (Hu0 & Hc0).
  pose proof (update_hold_status_for_retro_tap_lookup (ps_position ev) st u) as Hl0.
  rewrite Hl, (fmap_Some_2 _ _ _ eq_refl), undecided_is_not_pending in Hl0
    by exact Hs.
  set (st0 := update_hold_status_for_retro_tap invoke (ps_position ev) st) in *.
  clearbody st0. cbv zeta. rewrite Hu0, Hu, Hl0.
  assert (Hlt : (u < length (active_hold_taps st0))%nat)
    by (eapply lookup_lt_Some; eauto).
  set (st1 := if negb (eqb (hold_trigger_on_release (config ht)) (ps_state ev))
                 && (position_of_first_other_key_pressed ht =? -1)
              then set_hold_tap u (set_first_other (wrap_int32 (ps_position ev)) ht) st0
              else st0).
  assert (H1 : captured_events st1 = captured_events st
               /\ undecided_hold_tap st1 = Some u
               /\ (status_of <$> active_hold_taps st1 !! u) = Some STATUS_UNDECIDED).
  { subst st1. destruct (_ && _); simpl.
    - rewrite list_lookup_insert_eq by exact Hlt. simpl.
      repeat split; congruence.
    - rewrite Hl0. simpl. repeat split; congruence. }
  clearbody st1. destruct H1 as (H1c & H1u & H1s).
  destruct Hcase as [Hown|(Hup & Hnot & Hrange & Hearly)].
  - apply Z.eqb_eq in Hown. rewrite Hown.
    destruct (ps_state ev); simpl; repeat split; assumption.
  - destruct (position ht =? ps_position ev).
    { rewrite Hup. simpl. repeat split; assumption. }
    replace (ps_timestamp ev >? add64 (timestamp ht) (tapping_term_ms (config ht)))
      with false.
    2: { symmetry. rewrite Z.gtb_ltb. apply Z.ltb_ge.
         rewrite add64_exact by exact Hrange. exact Hearly. }
    rewrite H1u, Hup. simpl negb.
    unfold have_captured_keydown_event in *. rewrite H1c, Hnot. simpl.
    repeat split; assumption.
Qed.

End Listener.

Section OtherKey.

Variable invoke : zmk_behavior_binding -> zmk_behavior_binding_event -> bool -> Z.
Variable raise : captured_event -> engine -> engine.

(** X9: within the tapping term, the press of another key, or the release of
    a key whose press is captured, is captured behind the events that wait,
    after the first other key has been noted: its position as the int32_t
    field takes it, so that position 4294967295 is stored as -1, which reads
    as no key.  The event then is the decision moment OTHER_KEY_DOWN or
    OTHER_KEY_UP: where the flavor table has a dash the hold-tap stays
    undecided and the event waits; otherwise the decision is committed,
    positional override included, and when the listener returns the slot
    holds the decided record (for a replay that leaves a decided hold-tap to
    the events of its own key, none of which waits). *)
Theorem other_key_event_is_captured_then_decides ev st u ht waiting tail :
  undecided_hold_tap st = Some u ->
  active_hold_taps st !! u = Some ht ->
  status_of ht = STATUS_UNDECIDED ->
  position ht <> ps_position ev ->
  in_int64 (timestamp ht + tapping_term_ms (config ht)) ->
  ps_timestamp ev <= timestamp ht + tapping_term_ms (config ht) ->
  ps_state ev = true \/ have_captured_keydown_event (ps_position ev) st = true ->
  captured_events st = waiting ++ ET_NONE :: tail ->
  Forall occupied waiting ->
  let st0 := update_hold_status_for_retro_tap invoke (ps_position ev) st in
  let noted :=
    if negb (eqb (hold_trigger_on_release (config ht)) (ps_state ev))
       && (position_of_first_other_key_pressed ht =? -1)
    then set_first_other (wrap_int32 (ps_position ev)) ht else ht in
  let captured :=
    with_captured (waiting ++ ET_POS_CHANGED ev :: tail) (set_hold_tap u noted st0) in
  let dm := if ps_state ev then HT_OTHER_KEY_DOWN else HT_OTHER_KEY_UP in
  position_state_changed_listener invoke raise ev st
  = (ZMK_EV_EVENT_CAPTURED,
     match flavor_transition_table (selected_flavor ht) dm with
     | None => captured
     | Some s =>
         commit_decision invoke raise u (decide_positional_hold (set_status s noted))
           captured
     end)
  /\ (raise_keeps_decided raise ->
      in_use ht ->
      no_event_of (position ht) st ->
      forall s,
        flavor_transition_table (selected_flavor ht) dm = Some s ->
        exists r,
          active_hold_taps
            (snd (position_state_changed_listener invoke raise ev st)) !! u = Some r
          /\ after_replay (decide_positional_hold (set_status s noted)) r).
Proof.
  intros Hu Hl Hs Hpos Hrange Hearly Hcap Hc Hw. cbv zeta.
  set (noted := if negb (eqb (hold_trigger_on_release (config ht)) (ps_state ev))
                   && (position_of_first_other_key_pressed ht =? -1)
                then set_first_other (wrap_int32 (ps_position ev)) ht else ht).
  set (dm := if ps_state ev then HT_OTHER_KEY_DOWN else HT_OTHER_KEY_UP).
  set (captured :=
         with_captured (waiting ++ ET_POS_CHANGED ev :: tail)
           (set_hold_tap u noted
              (update_hold_status_for_retro_tap invoke (ps_position ev) st))).
  assert (Hn : status_of noted = STATUS_UNDECIDED
               /\ selected_flavor noted = selected_flavor ht
               /\ position noted = position ht).
  { subst noted. destruct (_ && _); simpl; repeat split; congruence. }
  destruct Hn as (Hns & Hnf & Hnp).
  assert (Hl1 : active_hold_taps captured !! u = Some noted).
  { subst captured. simpl. apply list_lookup_insert_eq.
    rewrite <- (length_fmap status_of).
    eapply lookup_lt_Some.
    rewrite list_lookup_fmap, update_hold_status_for_retro_tap_lookup, Hl.
    reflexivity. }
  assert (Hu1 : undecided_hold_tap captured = Some u).
  { subst captured. simpl.
    destruct (update_hold_status_for_retro_tap_same_buffer invoke (ps_position ev) st)
      as (-> & _). exact Hu. }
  assert (Hdm : dm <> HT_KEY_DOWN) by (subst dm; destruct (ps_state ev); discriminate).
  assert (E : position_state_changed_listener invoke raise ev st
              = (ZMK_EV_EVENT_CAPTURED, decide_hold_tap invoke raise u dm captured)).
  { unfold position_state_changed_listener.
    pose proof (update_hold_status_for_retro_tap_same_buffer invoke (ps_position ev) st)
      as (Hu0 & Hc0).
    pose proof (update_hold_status_for_retro_tap_lookup invoke (ps_position ev) st u)
      as Hl0.
    rewrite Hl, (fmap_Some_2 _ _ _ eq_refl), undecided_is_not_pending in Hl0
      by exact Hs.
    subst captured.
    set (st0 := update_hold_status_for_retro_tap invoke (ps_position ev) st) in *.
    clearbody st0. cbv zeta. rewrite Hu0, Hu, Hl0.
    assert (E1 : (if negb (eqb (hold_trigger_on_release (config ht)) (ps_state ev))
                     && (position_of_first_other_key_pressed ht =? -1)
                  then set_hold_tap u (set_first_other (wrap_int32 (ps_position ev)) ht)
                         st0
                  else st0) = set_hold_tap u noted st0).
    { subst noted. destruct (_ && _); [reflexivity|].
      unfold set_hold_tap. rewrite list_insert_id by exact Hl0.
      destruct st0; reflexivity. }
    rewrite E1.
    set (st1 := set_hold_tap u noted st0).
    apply Z.eqb_neq in Hpos. rewrite Hpos.
    replace (ps_timestamp ev >? add64 (timestamp ht) (tapping_term_ms (config ht)))
      with false.
    2: { symmetry. rewrite Z.gtb_ltb. apply Z.ltb_ge.
         rewrite add64_exact by exact Hrange. exact Hearly. }
    change (undecided_hold_tap st1) with (undecided_hold_tap st0). rewrite Hu0, Hu.
    assert (E2 : negb (ps_state ev)
                 && negb (have_captured_keydown_event (ps_position ev) st1) = false).
    { unfold have_captured_keydown_event in *.
      change (captured_events st1) with (captured_events st0). rewrite Hc0.
      destruct Hcap as [-> | ->]; [reflexivity|apply andb_false_r]. }
    rewrite E2. f_equal.
    unfold capture_event.
    change (captured_events st1) with (captured_events st0).
    rewrite Hc0, Hc, capture_in_occupied by exact Hw. reflexivity. }
  split.
  - rewrite E. f_equal.
    rewrite (decide_hold_tap_undecided invoke raise u dm captured noted Hl1 Hns Hu1 Hdm).
    rewrite Hnf. reflexivity.
  - intros Hraise Hin Hno s Ht. rewrite E. cbn [snd].
    assert (Hno1 : no_event_of (position noted) captured).
    { unfold no_event_of in *. subst captured. simpl. rewrite Hnp.
      rewrite Hc in Hno. apply Forall_app in Hno as (Hno1 & Hno2).
      apply Forall_cons in Hno2 as (_ & Hno2).
      apply Forall_app. split; [exact Hno1|].
      constructor; [|exact Hno2]. simpl. congruence. }
    assert (Hin1 : in_use noted) by (unfold in_use in *; rewrite Hnp; exact Hin).
    rewrite <- Hnf in Ht.
    destruct (decide_hold_tap_settles invoke raise Hraise u dm captured noted s
                Hl1 Hns Hu1 Hin1 Hno1 Ht) as (Hr & _).
    rewrite decide_positional_hold_final. exact Hr.
Qed.

End OtherKey.

(** *** The hold-tap's own key, continued *)

Section OwnKey.

Variable invoke : zmk_behavior_binding -> zmk_behavior_binding_event -> bool -> Z.
Variable raise : captured_event -> engine -> engine.

(** X13: retro-tap.  At the release of a hold-tap with [retro_tap] that the
    timer decided and no other key has interrupted since (status HOLD_TIMER),
    [hold_while_undecided] off, the tap bindings are pressed and released,
    stamped with the keydown; no hold binding is invoked, [last_tapped] is the
    hold-tap's, and the slot is cleared, or marked when its timer work is
    already running. *)
Theorem retro_tap_release_taps i hold_tap event work_cancel_result st :
  find_hold_tap (be_position event) st = Some i ->
  active_hold_taps st !! i = Some hold_tap ->
  retro_tap (config hold_tap) = true ->
  status_of hold_tap = STATUS_HOLD_TIMER ->
  hold_while_undecided (config hold_tap) = false ->
  let tapped := set_status STATUS_TAP (set_work None hold_tap) in
  let st' := snd (on_hold_tap_binding_released invoke raise event work_cancel_result st) in
  sink st'
  = sink st
    ++ invocations_of invoke (tap_bindings (config hold_tap))
         (binding_event_of hold_tap) true
    ++ invocations_of invoke (tap_bindings (config hold_tap))
         (binding_event_of hold_tap) false
  /\ last_tapped st' = mk_last_tapped (position hold_tap) (timestamp hold_tap)
  /\ active_hold_taps st' !! i
     = Some (if work_cancel_result =? - EINPROGRESS
             then set_work_is_cancelled true tapped
             else mk_hold_tap CHT_POSITION_NOT_USED (source hold_tap) (timestamp hold_tap)
                    STATUS_UNDECIDED FLAVOR_BALANCED (config hold_tap) None false
                    (position_of_first_other_key_pressed hold_tap)).
Proof.
  intros Hfind Hi Hretro Hs Hhwu. cbv zeta.
  assert (Hlt : (i < length (active_hold_taps st))%nat)
    by (eapply lookup_lt_Some; eauto).
  destruct (cancelled_slot i hold_tap st Hi) as (E0 & Hi0).
  unfold on_hold_tap_binding_released. rewrite Hfind. cbv zeta. cbn [snd].
  set (st0 := k_work_cancel_delayable i st) in *.
  set (held := set_work None hold_tap) in *.
  assert (Hdec : forall dm, decide_hold_tap invoke raise i dm st0 = st0).
  { intros dm. apply (decide_hold_tap_decided invoke raise i dm st0 held Hi0).
    subst held. simpl. rewrite Hs. discriminate. }
  rewrite Hi0.
  assert (E1 : (if be_timestamp event
                     >? add64 (timestamp held) (tapping_term_ms (config held))
                then decide_hold_tap invoke raise i HT_TIMER_EVENT st0 else st0) = st0).
  { destruct (_ >? _); [apply Hdec|reflexivity]. }
  rewrite E1, Hdec.
  unfold decide_retro_tap. rewrite Hi0.
  change (retro_tap (config held)) with (retro_tap (config hold_tap)).
  rewrite Hretro. simpl negb. cbv iota.
  change (status_of held) with (status_of hold_tap). rewrite Hs.
  rewrite bool_decide_eq_true_2 by reflexivity.
  assert (Er : snd (release_binding invoke held st0) = st0).
  { unfold release_binding.
    change (retro_tap (config held)) with (retro_tap (config hold_tap)).
    change (status_of held) with (status_of hold_tap).
    rewrite Hretro, Hs. reflexivity. }
  rewrite Er.
  set (tapped := set_status STATUS_TAP held).
  set (st1 := set_hold_tap i tapped st0).
  assert (Ep : snd (press_binding invoke tapped st1)
               = with_sink
                   (sink st ++ invocations_of invoke (tap_bindings (config hold_tap))
                                 (binding_event_of hold_tap) true)
                   (store_last_hold_tapped tapped st1)).
  { unfold press_binding, press_tap_binding.
    change (hold_while_undecided (config tapped))
      with (hold_while_undecided (config hold_tap)).
    rewrite Hhwu. simpl status_of. rewrite andb_false_r. simpl is_hold_status.
    change (is_hold_status STATUS_TAP) with false. cbv iota.
    rewrite invoke_binding_set_sink. subst st1 st0. rewrite E0. reflexivity. }
  rewrite Ep.
  set (st2 := with_sink _ _).
  assert (Hi2 : active_hold_taps st2 !! i = Some tapped).
  { subst st2 st1. simpl. apply list_lookup_insert_eq.
    subst st0. rewrite E0. simpl. rewrite length_insert. exact Hlt. }
  rewrite Hi2.
  assert (Erel : snd (release_binding invoke tapped st2)
                 = with_sink
                     (sink st2 ++ invocations_of invoke (tap_bindings (config hold_tap))
                                    (binding_event_of hold_tap) false) st2).
  { unfold release_binding, release_tap_binding. simpl status_of.
    rewrite andb_false_r. change (is_hold_status STATUS_TAP) with false. cbv iota.
    rewrite invoke_binding_set_sink. reflexivity. }
  rewrite Erel.
  set (st3 := with_sink _ st2).
  assert (Hi3 : active_hold_taps st3 !! i = Some tapped) by exact Hi2.
  rewrite Hi3.
  change (hold_while_undecided (config tapped))
    with (hold_while_undecided (config hold_tap)).
  rewrite Hhwu. simpl andb. cbv iota. rewrite Hi3.
  assert (Hlt3 : (i < length (active_hold_taps st3))%nat)
    by (eapply lookup_lt_Some; eauto).
  destruct (work_cancel_result =? - EINPROGRESS).
  - simpl. rewrite list_lookup_insert_eq by exact Hlt3.
    rewrite <- app_assoc. repeat split; reflexivity.
  - unfold clear_hold_tap. rewrite Hi3. simpl.
    rewrite list_lookup_insert_eq by exact Hlt3.
    rewrite <- app_assoc. repeat split; reflexivity.
Qed.

(** X14: the release of a decided hold-tap whose timer work item is already
    running ([k_work_cancel_delayable] returned [-EINPROGRESS]) does not free
    the slot: it marks it, and the slot keeps its position.  The work handler
    then frees the slot and does nothing else: no decision, no binding
    invoked, the capture buffer untouched. *)
Theorem cancelled_timer_work_frees_the_slot i hold_tap event st :
  find_hold_tap (be_position event) st = Some i ->
  active_hold_taps st !! i = Some hold_tap ->
  status_of hold_tap <> STATUS_UNDECIDED ->
  (retro_tap (config hold_tap) && bool_decide (status_of hold_tap = STATUS_HOLD_TIMER))
  = false ->
  let released :=
    snd (on_hold_tap_binding_released invoke raise event (- EINPROGRESS) st) in
  let cleaned :=
    behavior_contextual_hold_tap_timer_work_handler invoke raise i released in
  active_hold_taps released !! i
  = Some (set_work_is_cancelled true (set_work None hold_tap))
  /\ (position <$> active_hold_taps cleaned !! i) = Some CHT_POSITION_NOT_USED
  /\ (work_is_cancelled <$> active_hold_taps cleaned !! i) = Some false
  /\ sink cleaned = sink released
  /\ same_buffer released cleaned.
Proof.
  intros Hfind Hi Hs Hr. cbv zeta.
  assert (Hlt : (i < length (active_hold_taps st))%nat)
    by (eapply lookup_lt_Some; eauto).
  destruct (cancelled_slot i hold_tap st Hi) as (E0 & Hi0).
  set (held := set_work None hold_tap) in *.
  assert (Erel : snd (on_hold_tap_binding_released invoke raise event (- EINPROGRESS) st)
                 = release_and_clean_up invoke i held (- EINPROGRESS)
                     (snd (release_binding invoke held (k_work_cancel_delayable i st)))).
  { unfold on_hold_tap_binding_released. rewrite Hfind. cbv zeta. cbn [snd].
    set (st0 := k_work_cancel_delayable i st) in *.
    assert (Hdec : forall dm, decide_hold_tap invoke raise i dm st0 = st0).
    { intros dm. apply (decide_hold_tap_decided invoke raise i dm st0 held Hi0).
      exact Hs. }
    rewrite Hi0.
    assert (E1 : (if be_timestamp event
                       >? add64 (timestamp held) (tapping_term_ms (config held))
                  then decide_hold_tap invoke raise i HT_TIMER_EVENT st0 else st0) = st0).
    { destruct (_ >? _); [apply Hdec|reflexivity]. }
    rewrite E1, Hdec.
    exact (released_after_key_up invoke i held st0 (- EINPROGRESS) Hi0 Hr). }
  rewrite Erel.
  set (st4 := snd (release_binding invoke held (k_work_cancel_delayable i st))).
  assert (H4 : active_hold_taps st4 !! i = Some held).
  { subst st4. rewrite release_binding_slots. exact Hi0. }
  unfold release_and_clean_up. rewrite Z.eqb_refl.
  set (st5 := if _ && _ then _ else st4).
  assert (H5 : active_hold_taps st5 !! i = Some held).
  { subst st5. destruct (hold_while_undecided (config held) && _); [|exact H4].
    unfold release_hold_binding. rewrite invoke_binding_set_slots. exact H4. }
  clearbody st5.
  assert (Hlt5 : (i < length (active_hold_taps st5))%nat)
    by (eapply lookup_lt_Some; eauto).
  set (marked := set_work_is_cancelled true held).
  assert (H6 : active_hold_taps (set_hold_tap i marked st5) !! i = Some marked).
  { simpl. apply list_lookup_insert_eq. exact Hlt5. }
  split; [exact H6|].
  unfold behavior_contextual_hold_tap_timer_work_handler. rewrite H6.
  change (work_is_cancelled marked) with true. cbv iota.
  unfold clear_hold_tap.
  set (st7 := set_hold_tap i (set_work None marked) (set_hold_tap i marked st5)).
  assert (H7 : active_hold_taps st7 !! i = Some (set_work None marked)).
  { subst st7. simpl. apply list_lookup_insert_eq. rewrite length_insert. exact Hlt5. }
  rewrite H7. simpl.
  rewrite list_lookup_insert_eq by (rewrite !length_insert; exact Hlt5).
  repeat split; reflexivity.
Qed.

End OwnKey.

Section UndecidedKeydown.

Variable invoke : zmk_behavior_binding -> zmk_behavior_binding_event -> bool -> Z.
Variable raise : captured_event -> engine -> engine.



End UndecidedKeydown.

(** *** Flavor selection *)

Lemma existsb_eqb_elem_of (k : Z) (l : list Z) :
  existsb (fun x => x =? k) l = true <-> k ∈ l.
Proof.
  rewrite existsb_exists, list_elem_of_In. split.
  - intros (x & Hin & Hx). apply Z.eqb_eq in Hx. congruence.
  - intros Hin. exists k. split; [exact Hin|apply Z.eqb_refl].
Qed.

(** X6: the flavor a keydown selects after a non-modifier key press that the
    last-key tracker has taken (its timestamp is not older than the stored
    one): [after_flavor] when the keycode is one of [prior_keycodes] and the
    press is at most [prior_timeout_ms] old, the bound included, and
    [normal_flavor] otherwise, an empty [prior_keycodes] included.  A key
    release, a modifier and a press that is older than the stored one leave
    the selection as it was. *)
Theorem flavor_follows_the_last_key_press cfg now ev st :
  (kc_state ev = true ->
   is_mod (kc_usage_page ev) (kc_keycode ev) = false ->
   lk_timestamp (last_key st) <= kc_timestamp ev ->
   in_int64 (now - kc_timestamp ev) ->
   select_flavor cfg now (snd (contextual_hold_tap_listener ev st))
   = if decide (kc_keycode ev ∈ prior_keycodes cfg
                /\ now - kc_timestamp ev <= prior_timeout_ms cfg)
     then after_flavor cfg else normal_flavor cfg)
  /\ (kc_state ev = false
      \/ is_mod (kc_usage_page ev) (kc_keycode ev) = true
      \/ kc_timestamp ev < lk_timestamp (last_key st) ->
      select_flavor cfg now (snd (contextual_hold_tap_listener ev st))
      = select_flavor cfg now st).
Proof.
  split.
  - intros Hst Hmod Hts Hrange.
    unfold contextual_hold_tap_listener, cht_record_last_key.
    rewrite Hst, Hmod. simpl negb. cbv iota.
    replace (kc_timestamp ev <? lk_timestamp (last_key st)) with false
      by (symmetry; apply Z.ltb_ge; exact Hts).
    cbn [snd]. unfold select_flavor, cht_get_last_key_info. simpl.
    rewrite sub64_exact by exact Hrange.
    destruct (decide _) as [(Hin & Hle)|Hno].
    + destruct (prior_keycodes_len cfg =? 0) eqn:E0.
      { apply Z.eqb_eq in E0. unfold prior_keycodes_len in E0.
        destruct (prior_keycodes cfg); [inversion Hin|simpl in E0; lia]. }
      replace (now - kc_timestamp ev >? prior_timeout_ms cfg) with false
        by (symmetry; rewrite Z.gtb_ltb; apply Z.ltb_ge; exact Hle).
      apply existsb_eqb_elem_of in Hin. rewrite Hin. reflexivity.
    + destruct (prior_keycodes_len cfg =? 0); [reflexivity|].
      destruct (now - kc_timestamp ev >? prior_timeout_ms cfg) eqn:Et;
        [reflexivity|].
      destruct (existsb _ _) eqn:Ee; [|reflexivity].
      exfalso. apply Hno. split.
      * apply existsb_eqb_elem_of. exact Ee.
      * rewrite Z.gtb_ltb in Et. apply Z.ltb_ge in Et. exact Et.
  - intros Hcase. unfold contextual_hold_tap_listener, cht_record_last_key.
    destruct (kc_state ev); simpl negb; cbv iota; [|reflexivity].
    destruct (is_mod _ _); [reflexivity|].
    destruct Hcase as [H|[H|H]]; try discriminate.
    apply Z.ltb_lt in H. rewrite H. reflexivity.
Qed.

(** *** Keycode events in the pipeline *)

(** X11: a keycode event of a key that is no modifier is never captured: the
    pipeline passes it on whatever the state, a press updating [last_tapped]
    and the last-key tracker on its way.  A modifier event that arrives while
    a hold-tap without [hold_while_undecided] is undecided is captured: it
    waits behind the captured events, is not passed on and moves neither
    tracker. *)
Theorem keycode_events_pass_unless_modifier env now ev st :
  (is_mod (kc_usage_page ev) (kc_keycode ev) = false ->
   zmk_event_manager_raise env now (ET_CODE_CHANGED ev) st
   = let st1 := if kc_state ev then store_last_tapped (kc_timestamp ev) st else st in
     let st2 := with_bubbled (bubbled st ++ [ET_CODE_CHANGED ev]) st1 in
     if kc_state ev then cht_record_last_key (kc_keycode ev) (kc_timestamp ev) st2
     else st2)
  /\ (forall u ht waiting tail,
        is_mod (kc_usage_page ev) (kc_keycode ev) = true ->
        undecided_hold_tap st = Some u ->
        active_hold_taps st !! u = Some ht ->
        hold_while_undecided (config ht) = false ->
        captured_events st = waiting ++ ET_NONE :: tail ->
        Forall occupied waiting ->
        zmk_event_manager_raise env now (ET_CODE_CHANGED ev) st
        = with_captured (waiting ++ ET_CODE_CHANGED ev :: tail) st).
Proof.
  split.
  - intros Hmod. unfold zmk_event_manager_raise. simpl zmk_event_raise.
    unfold event_manager_handle. simpl behavior_contextual_hold_tap_listener.
    unfold keycode_state_changed_listener. rewrite Hmod. simpl negb.
    rewrite andb_true_r.
    set (st1 := if kc_state ev then store_last_tapped (kc_timestamp ev) st else st).
    assert (Hb : bubbled st1 = bubbled st).
    { subst st1. destruct (kc_state ev); [|reflexivity].
      unfold store_last_tapped. destruct (_ >? _); reflexivity. }
    cbv zeta.
    destruct (undecided_hold_tap st1); rewrite Hb;
      unfold contextual_hold_tap_listener; rewrite Hmod;
      destruct (kc_state ev); reflexivity.
  - intros u ht waiting tail Hmod Hu Hl Hhwu Hc Hw.
    unfold zmk_event_manager_raise. simpl zmk_event_raise.
    unfold event_manager_handle. simpl behavior_contextual_hold_tap_listener.
    unfold keycode_state_changed_listener. rewrite Hmod. simpl negb.
    rewrite andb_false_r. cbv zeta. rewrite Hu, Hl, Hhwu. simpl andb. cbv iota.
    unfold capture_event. rewrite Hc, capture_in_occupied by exact Hw.
    reflexivity.
Qed.

(** *** Looking for a captured key press *)

Lemma have_captured_keydown_event_in_spec pos waiting n :
  Forall occupied waiting ->
  have_captured_keydown_event_in (waiting ++ replicate n ET_NONE) pos = true
  <-> exists d, ET_POS_CHANGED d ∈ waiting /\ ps_position d = pos /\ ps_state d = true.
Proof.
  induction 1 as [|e l He _ IH]; simpl.
  - split.
    + destruct n; simpl; discriminate.
    + intros (d & Hin & _). inversion Hin.
  - destruct e as [|d|d]; [contradiction He; reflexivity| |].
    + destruct ((ps_position d =? pos) && ps_state d) eqn:E.
      * apply andb_true_iff in E as (Ep & Es). apply Z.eqb_eq in Ep.
        split; [intros _|reflexivity]. exists d. split; [left|split; assumption].
      * rewrite IH. split.
        -- intros (d' & Hin & Hp & Hs). exists d'. split; [right; exact Hin|].
           split; assumption.
        -- intros (d' & Hin & Hp & Hs). inversion Hin; subst.
           ++ rewrite Z.eqb_refl, Hs in E. discriminate.
           ++ exists d'. repeat split; assumption.
    + rewrite IH. split.
      * intros (d' & Hin & Hp & Hs). exists d'. split; [right; exact Hin|].
        split; assumption.
      * intros (d' & Hin & Hp & Hs). inversion Hin; subst.
        exists d'. repeat split; assumption.
Qed.

(** X10: in a capture buffer without holes [have_captured_keydown_event]
    holds for a position exactly when a press of that position is waiting;
    capturing a press makes it hold for that position and changes it for no
    other, and capturing a keycode event changes nothing. *)
Theorem captured_key_press_is_found pos st waiting n :
  captured_events st = waiting ++ replicate (S n) ET_NONE ->
  Forall occupied waiting ->
  (have_captured_keydown_event pos st = true
   <-> exists d, ET_POS_CHANGED d ∈ captured_events st
                 /\ ps_position d = pos /\ ps_state d = true)
  /\ (forall ev,
        have_captured_keydown_event pos (snd (capture_event (ET_POS_CHANGED ev) st))
        = have_captured_keydown_event pos st || ((ps_position ev =? pos) && ps_state ev))
  /\ (forall ev,
        have_captured_keydown_event pos (snd (capture_event (ET_CODE_CHANGED ev) st))
        = have_captured_keydown_event pos st).
Proof.
  intros Hc Hw.
  assert (Hin : forall d, ET_POS_CHANGED d ∈ captured_events st
                          <-> ET_POS_CHANGED d ∈ waiting).
  { intros d. rewrite Hc, elem_of_app. split; [|auto].
    intros [H|H]; [exact H|]. apply elem_of_replicate in H as (H & _). discriminate. }
  assert (Hbool : forall (a b : bool), (a = true <-> b = true) -> a = b).
  { intros [|] [|] H; try reflexivity; [symmetry|]; apply H; reflexivity. }
  assert (Hcap : forall data, occupied data ->
            captured_events (snd (capture_event data st))
            = (waiting ++ [data]) ++ replicate n ET_NONE).
  { intros data Hd. unfold capture_event. rewrite Hc. simpl replicate.
    rewrite capture_in_occupied by exact Hw. simpl. rewrite <- app_assoc. reflexivity. }
  assert (Hw' : forall data, occupied data -> Forall occupied (waiting ++ [data])).
  { intros data Hd. apply Forall_app. split; [exact Hw|]. constructor; [exact Hd|constructor]. }
  unfold have_captured_keydown_event. split; [|split].
  - rewrite Hc, have_captured_keydown_event_in_spec by exact Hw.
    split; intros (d & H1 & H2); exists d; (split; [|exact H2]).
    + rewrite <- Hc. apply Hin. exact H1.
    + rewrite <- Hc in H1. apply Hin. exact H1.
  - intros ev. apply Hbool.
    rewrite Hcap by discriminate.
    rewrite have_captured_keydown_event_in_spec by (apply Hw'; discriminate).
    rewrite orb_true_iff, andb_true_iff, Z.eqb_eq.
    rewrite Hc, have_captured_keydown_event_in_spec by exact Hw.
    split.
    + intros (d & Hd & Hp & Hs). apply elem_of_app in Hd as [Hd|Hd].
      * left. exists d. repeat split; assumption.
      * right. apply list_elem_of_singleton in Hd. injection Hd as <-. split; assumption.
    + intros [(d & Hd & Hp & Hs)|(Hp & Hs)].
      * exists d. split; [apply elem_of_app; left; exact Hd|split; assumption].
      * exists ev. split; [|split; assumption].
        apply elem_of_app. right. apply list_elem_of_singleton. reflexivity.
  - intros ev. apply Hbool.
    rewrite Hcap by discriminate.
    rewrite have_captured_keydown_event_in_spec by (apply Hw'; discriminate).
    rewrite Hc, have_captured_keydown_event_in_spec by exact Hw.
    split; intros (d & Hd & H2); exists d; (split; [|exact H2]).
    + apply elem_of_app in Hd as [Hd|Hd]; [exact Hd|].
      apply list_elem_of_singleton in Hd. discriminate.
    + apply elem_of_app. left. exact Hd.
Qed.

(** ** The capture buffer over a run *)

Lemma compact_same_buffer st st' : same_buffer st st' -> compact st -> compact st'.
Proof.
  intros (Hu & Hc) (waiting & n & H). exists waiting, n. rewrite Hu, Hc. exact H.
Qed.

Lemma compact_undecided u st : compact st -> compact (with_undecided (Some u) st).
Proof.
  intros (waiting & n & Hc & Hw & _). exists waiting, n.
  repeat split; try assumption. discriminate.
Qed.

Section Compact.

Variable invoke : zmk_behavior_binding -> zmk_behavior_binding_event -> bool -> Z.
Variable raise : captured_event -> engine -> engine.
Hypothesis raise_ok : raise_keeps_rest raise.

Lemma commit_decision_compact i decided st :
  compact st -> compact (commit_decision invoke raise i decided st).
Proof.
  intros (waiting & n & Hc & Hw & _). unfold commit_decision.
  set (st1 := snd (press_binding invoke decided _)).
  assert (Hb : same_buffer (with_undecided None (set_hold_tap i decided st)) st1)
    by (apply same_store_buffer, press_binding_store).
  destruct Hb as (Hu1 & Hc1). simpl in Hu1, Hc1.
  destruct (release_captured_events_replay raise raise_ok waiting
              (replicate n ET_NONE) st1)
    as (-> & again & g & H1 & H2 & H3 & H4); try assumption.
  - rewrite Hc1. exact Hc.
  - destruct n; [left; reflexivity|right; eexists; reflexivity].
  - exists again, (g + n)%nat. rewrite H1. repeat split; try assumption.
    rewrite replicate_add. reflexivity.
Qed.

Lemma decide_hold_tap_compact i dm st :
  compact st -> compact (decide_hold_tap invoke raise i dm st).
Proof.
  intros Hm. unfold decide_hold_tap.
  destruct (active_hold_taps st !! i) as [hold_tap|]; [|exact Hm].
  destruct (bool_decide (status_of hold_tap = STATUS_UNDECIDED)); simpl;
    [|exact Hm].
  destruct (bool_decide (undecided_hold_tap st = Some i)); simpl; [|exact Hm].
  destruct (hold_while_undecided (config hold_tap) && _).
  { eapply compact_same_buffer; [|exact Hm].
    apply same_store_buffer, invoke_binding_set_store. }
  destruct (bool_decide _); [exact Hm|].
  apply commit_decision_compact. exact Hm.
Qed.

Lemma capture_event_compact data st :
  occupied data ->
  undecided_hold_tap st <> None ->
  compact st -> compact (snd (capture_event data st)).
Proof.
  intros Hd Hu (waiting & n & Hc & Hw & Hn). unfold capture_event. rewrite Hc.
  destruct n as [|n].
  - simpl. rewrite app_nil_r, capture_in_full by exact Hw. simpl.
    exists waiting, 0%nat. rewrite Hc. repeat split; assumption.
  - simpl replicate. rewrite capture_in_occupied by exact Hw. simpl.
    exists (waiting ++ [data]), n. repeat split.
    + rewrite <- app_assoc. reflexivity.
    + apply Forall_app. split; [exact Hw|]. constructor; [exact Hd|constructor].
    + intros H. contradiction.
Qed.

Lemma on_hold_tap_binding_pressed_compact cfg event now st :
  compact st ->
  compact (snd (on_hold_tap_binding_pressed invoke raise cfg event now st)).
Proof.
  intros Hm. unfold on_hold_tap_binding_pressed.
  destruct (undecided_hold_tap st) eqn:Hu; [exact Hm|].
  unfold store_hold_tap.
  destruct (find_hold_tap_from _ _ _) as [i|];
    [|eapply compact_same_buffer; [|exact Hm]; split; reflexivity].
  destruct (active_hold_taps st !! i) as [old|];
    [|eapply compact_same_buffer; [|exact Hm]; split; reflexivity].
  cbv zeta. cbn [snd].
  eapply compact_same_buffer; [apply schedule_tapping_term_timer_same_buffer|].
  apply decide_hold_tap_compact.
  set (st2 := with_undecided (Some i) _).
  assert (Hs : compact st2).
  { subst st2. apply compact_undecided.
    eapply compact_same_buffer; [|exact Hm].
    destruct (active_hold_taps (set_hold_tap i _ st) !! i); split; reflexivity. }
  destruct (active_hold_taps st2 !! i) as [ht|]; [|exact Hs].
  destruct (is_quick_tap _ _); [|exact Hs].
  apply decide_hold_tap_compact. exact Hs.
Qed.

Lemma on_hold_tap_binding_released_compact event result st :
  compact st ->
  compact (snd (on_hold_tap_binding_released invoke raise event result st)).
Proof.
  intros Hm. unfold on_hold_tap_binding_released.
  destruct (find_hold_tap _ _) as [i|];
    [|eapply compact_same_buffer; [|exact Hm]; split; reflexivity].
  cbv zeta. cbn [snd].
  set (st0 := k_work_cancel_delayable i st).
  assert (H0 : compact st0).
  { eapply compact_same_buffer; [|exact Hm]. subst st0.
    unfold k_work_cancel_delayable.
    destruct (active_hold_taps st !! i); split; reflexivity. }
  set (st1 := match active_hold_taps st0 !! i with Some _ => _ | None => _ end).
  assert (H1 : compact st1).
  { subst st1. destruct (active_hold_taps st0 !! i); [|exact H0].
    destruct (_ >? _); [|exact H0]. apply decide_hold_tap_compact, H0. }
  set (st3 := decide_retro_tap invoke i _).
  assert (H3 : compact st3).
  { eapply compact_same_buffer; [apply decide_retro_tap_same_buffer|].
    apply decide_hold_tap_compact, H1. }
  set (st4 := match active_hold_taps st3 !! i with Some _ => _ | None => _ end).
  assert (H4 : compact st4).
  { eapply compact_same_buffer; [|exact H3]. subst st4.
    destruct (active_hold_taps st3 !! i); [|apply same_buffer_refl].
    apply same_store_buffer, release_binding_store. }
  set (st5 := match active_hold_taps st4 !! i with Some _ => _ | None => _ end).
  assert (H5 : compact st5).
  { eapply compact_same_buffer; [|exact H4]. subst st5.
    destruct (active_hold_taps st4 !! i) as [ht|]; [|apply same_buffer_refl].
    destruct (hold_while_undecided (config ht) && _); [|apply same_buffer_refl].
    apply same_store_buffer, invoke_binding_set_store. }
  eapply compact_same_buffer; [|exact H5].
  destruct (result =? _); [|apply clear_hold_tap_same_buffer].
  destruct (active_hold_taps st5 !! i); split; reflexivity.
Qed.

Lemma position_state_changed_listener_compact ev st :
  compact st ->
  compact (snd (position_state_changed_listener invoke raise ev st)).
Proof.
  intros Hm. unfold position_state_changed_listener.
  set (st0 := update_hold_status_for_retro_tap invoke (ps_position ev) st).
  assert (H0 : compact st0).
  { eapply compact_same_buffer; [|exact Hm].
    apply update_hold_status_for_retro_tap_from_same_buffer. }
  clearbody st0. cbv zeta.
  destruct (undecided_hold_tap st0) as [u|] eqn:Hu; [|exact H0].
  destruct (active_hold_taps st0 !! u) as [ht0|]; [|exact H0].
  set (st1 := if negb _ && _ then _ else st0).
  assert (H1 : compact st1).
  { eapply compact_same_buffer; [|exact H0]. subst st1.
    destruct (negb _ && _); split; reflexivity. }
  clearbody st1.
  destruct (position ht0 =? ps_position ev).
  { destruct (ps_state ev); [|exact H1].
    eapply compact_same_buffer; [|exact H1]. split; reflexivity. }
  set (st2 := if _ >? _ then _ else st1).
  assert (H2 : compact st2).
  { subst st2. destruct (_ >? _); [|exact H1].
    apply decide_hold_tap_compact, H1. }
  clearbody st2.
  destruct (undecided_hold_tap st2) as [u'|] eqn:Hu2; [|exact H2].
  destruct (negb (ps_state ev) && negb (have_captured_keydown_event _ st2));
    cbn [snd]; [exact H2|].
  apply decide_hold_tap_compact.
  apply capture_event_compact; [discriminate|congruence|exact H2].
Qed.

Lemma keycode_state_changed_listener_compact ev st :
  compact st -> compact (snd (keycode_state_changed_listener ev st)).
Proof.
  intros Hm. unfold keycode_state_changed_listener.
  set (st0 := if _ && _ then _ else st).
  assert (H0 : compact st0).
  { eapply compact_same_buffer; [|exact Hm]. subst st0.
    destruct (_ && _); [|apply same_buffer_refl].
    unfold store_last_tapped. destruct (_ >? _); split; reflexivity. }
  clearbody st0. cbv zeta.
  destruct (undecided_hold_tap st0) as [u|] eqn:Hu; [|exact H0].
  destruct (negb _); [exact H0|].
  destruct (active_hold_taps st0 !! u) as [ht|]; [|exact H0].
  destruct (hold_while_undecided (config ht) && _); cbn [snd]; [exact H0|].
  apply capture_event_compact; [discriminate|congruence|exact H0].
Qed.

Lemma timer_work_handler_compact i st :
  compact st ->
  compact (behavior_contextual_hold_tap_timer_work_handler invoke raise i st).
Proof.
  intros Hm. unfold behavior_contextual_hold_tap_timer_work_handler.
  destruct (active_hold_taps st !! i) as [ht|]; [|exact Hm].
  assert (H0 : compact (set_hold_tap i (set_work None ht) st)).
  { eapply compact_same_buffer; [|exact Hm]. split; reflexivity. }
  destruct (work_is_cancelled ht).
  - eapply compact_same_buffer; [apply clear_hold_tap_same_buffer|exact H0].
  - apply decide_hold_tap_compact. exact H0.
Qed.

End Compact.

Lemma event_manager_handle_compact env raise now e st :
  raise_keeps_rest raise ->
  compact st -> compact (event_manager_handle env raise now e st).
Proof.
  intros Hr Hm. unfold event_manager_handle.
  assert (Hl : compact (snd (behavior_contextual_hold_tap_listener
                               (invoke_result env) raise e st))).
  { destruct e as [|ev|ev]; simpl.
    - exact Hm.
    - apply position_state_changed_listener_compact; assumption.
    - apply keycode_state_changed_listener_compact; assumption. }
  destruct (behavior_contextual_hold_tap_listener _ raise e st) as [[|] st'];
    simpl in Hl; [|exact Hl].
  cbv zeta.
  assert (Hb : compact (with_bubbled (bubbled st' ++ [e]) st')).
  { eapply compact_same_buffer; [|exact Hl]. split; reflexivity. }
  destruct e as [|ev|ev]; [exact Hb| |].
  - unfold keymap_apply. destruct (keymap env (ps_position ev)); [|exact Hb].
    destruct (ps_state ev).
    + apply on_hold_tap_binding_pressed_compact; assumption.
    + apply on_hold_tap_binding_released_compact; assumption.
  - eapply compact_same_buffer; [|exact Hb].
    unfold contextual_hold_tap_listener, cht_record_last_key.
    repeat match goal with |- context [if ?b then _ else _] => destruct b end;
      split; reflexivity.
Qed.

Lemma run_input_compact env inp st : compact st -> compact (run_input env inp st).
Proof.
  intros Hm. destruct inp as [now e|now i]; simpl.
  - unfold zmk_event_manager_raise. simpl.
    apply event_manager_handle_compact; [apply zmk_event_raise_keeps_rest|exact Hm].
  - unfold timer_fires.
    apply timer_work_handler_compact; [apply zmk_event_raise_keeps_rest|exact Hm].
Qed.

Lemma run_compact env inputs st : compact st -> compact (run env inputs st).
Proof.
  unfold run. revert st. induction inputs as [|inp l IH]; intros st Hm; simpl.
  - exact Hm.
  - apply IH, run_input_compact, Hm.
Qed.

(** X15: after every run from the initial state the capture buffer has no
    holes: the events that wait, all at the front, then free slots only; and
    when no hold-tap is undecided nothing waits. *)
Theorem capture_buffer_has_no_holes env inputs held cap :
  let st := run env inputs (engine_init held cap) in
  exists waiting free,
    captured_events st = waiting ++ replicate free ET_NONE
    /\ Forall occupied waiting
    /\ (undecided_hold_tap st = None -> waiting = []).
Proof.
  apply run_compact. exists [], cap. repeat split. constructor.
Qed.

(** ** The undecided pointer and the last-key tracker over a run *)

Lemma advances_refl st : advances st st.
Proof. repeat split; auto. lia. Qed.

Lemma advances_trans st1 st2 st3 :
  advances st1 st2 -> advances st2 st3 -> advances st1 st3.
Proof.
  intros (H1 & H2 & H3) (H4 & H5 & H6). repeat split; auto. lia.
Qed.

Lemma same_core_refl st : same_core st st.
Proof. repeat split. Qed.

Lemma same_core_trans st1 st2 st3 :
  same_core st1 st2 -> same_core st2 st3 -> same_core st1 st3.
Proof.
  intros (H1 & H2 & H3) (H4 & H5 & H6). repeat split; try congruence.
Qed.

Lemma same_core_advances st st' : same_core st st' -> advances st st'.
Proof.
  intros (Hu & Hk & Hs). unfold advances. rewrite Hk. repeat split; auto; [lia|].
  intros Hv u Hu'. rewrite Hu in Hu'. destruct (Hv u Hu') as (ht & Hl & Hst).
  specialize (Hs u). rewrite Hl in Hs. simpl in Hs.
  destruct (active_hold_taps st' !! u) as [ht'|]; [|discriminate].
  exists ht'. split; [reflexivity|]. simpl in Hs. congruence.
Qed.

Lemma advances_valid st st' :
  last_key st' = last_key st -> undecided_is_valid st' -> advances st st'.
Proof. intros Hk Hv. unfold advances. rewrite Hk. repeat split; auto. lia. Qed.

Lemma advances_valid_from st st' :
  last_key st' = last_key st ->
  (undecided_is_valid st -> undecided_is_valid st') ->
  advances st st'.
Proof. intros Hk Hv. unfold advances. rewrite Hk. repeat split; auto. lia. Qed.

Lemma set_hold_tap_same_core i ht ht' st :
  active_hold_taps st !! i = Some ht ->
  status_of ht' = status_of ht ->
  same_core st (set_hold_tap i ht' st).
Proof.
  intros Hl Hs. repeat split. intros j. simpl.
  destruct (decide (i = j)) as [->|Hne].
  - rewrite list_lookup_insert_eq by (eapply lookup_lt_Some; eauto).
    rewrite Hl. simpl. congruence.
  - rewrite list_lookup_insert_ne by assumption. reflexivity.
Qed.

Lemma set_decided_advances i ht ht' st :
  active_hold_taps st !! i = Some ht ->
  status_of ht <> STATUS_UNDECIDED ->
  advances st (set_hold_tap i ht' st).
Proof.
  intros Hl Hs. apply advances_valid_from; [reflexivity|].
  intros Hv u Hu. simpl in Hu. destruct (Hv u Hu) as (ht0 & Hl0 & Hs0). simpl.
  destruct (decide (i = u)) as [->|Hne]; [congruence|].
  rewrite list_lookup_insert_ne by assumption. eauto.
Qed.

Section Advances.

Variable invoke : zmk_behavior_binding -> zmk_behavior_binding_event -> bool -> Z.
Variable raise : captured_event -> engine -> engine.
Hypothesis raise_ok : raise_advances raise.

Lemma invoke_binding_set_same_core bindings event pressed st :
  same_core st (snd (invoke_binding_set invoke bindings event pressed st)).
Proof. rewrite invoke_binding_set_sink. repeat split. Qed.

Lemma press_binding_same_core hold_tap st :
  same_core st (snd (press_binding invoke hold_tap st)).
Proof.
  unfold press_binding, press_hold_binding, press_tap_binding, release_hold_binding.
  repeat match goal with
         | |- context [if ?b then _ else _] => destruct b
         end;
    try apply same_core_refl;
    rewrite ?invoke_binding_set_sink; repeat split.
Qed.

Lemma release_binding_same_core hold_tap st :
  same_core st (snd (release_binding invoke hold_tap st)).
Proof.
  unfold release_binding, release_hold_binding, release_tap_binding.
  repeat match goal with
         | |- context [if ?b then _ else _] => destruct b
         end;
    try apply same_core_refl;
    rewrite ?invoke_binding_set_sink; repeat split.
Qed.

Lemma release_captured_events_from_advances n i st :
  advances st (release_captured_events_from raise n i st).
Proof.
  revert i st. induction n as [|n IH]; intros i st; simpl.
  { apply advances_refl. }
  destruct (captured_events st !! i) as [[|d|d]|]; try apply advances_refl.
  - eapply advances_trans; [|apply IH].
    eapply advances_trans; [|apply raise_ok].
    apply same_core_advances. simpl.
    destruct (undecided_hold_tap st); repeat split.
  - eapply advances_trans; [|apply IH].
    eapply advances_trans; [|apply raise_ok].
    apply same_core_advances. simpl.
    destruct (undecided_hold_tap st); repeat split.
Qed.

Lemma release_captured_events_advances st :
  advances st (release_captured_events raise st).
Proof.
  unfold release_captured_events.
  destruct (undecided_hold_tap st); [apply advances_refl|].
  apply release_captured_events_from_advances.
Qed.

Lemma commit_decision_advances i decided st :
  advances st (commit_decision invoke raise i decided st).
Proof.
  unfold commit_decision.
  eapply advances_trans; [|apply release_captured_events_advances].
  eapply advances_trans; [|apply same_core_advances, press_binding_same_core].
  apply advances_valid; [reflexivity|]. intros u Hu. discriminate.
Qed.

Lemma decide_hold_tap_advances i dm st :
  advances st (decide_hold_tap invoke raise i dm st).
Proof.
  unfold decide_hold_tap.
  destruct (active_hold_taps st !! i) as [hold_tap|]; [|apply advances_refl].
  destruct (negb _); [apply advances_refl|].
  destruct (negb _); [apply advances_refl|].
  destruct (hold_while_undecided (config hold_tap) && _).
  { apply same_core_advances, invoke_binding_set_same_core. }
  destruct (bool_decide _); [apply advances_refl|].
  apply commit_decision_advances.
Qed.

Lemma decide_retro_tap_advances i st :
  advances st (decide_retro_tap invoke i st).
Proof.
  unfold decide_retro_tap.
  destruct (active_hold_taps st !! i) as [ht|] eqn:Hl; [|apply advances_refl].
  destruct (negb _); [apply advances_refl|].
  destruct (bool_decide (status_of ht = STATUS_HOLD_TIMER)) eqn:Es;
    [|apply advances_refl].
  apply bool_decide_eq_true_1 in Es.
  eapply advances_trans; [apply same_core_advances, release_binding_same_core|].
  eapply advances_trans; [|apply same_core_advances, press_binding_same_core].
  apply (set_decided_advances i ht).
  - rewrite release_binding_slots. exact Hl.
  - rewrite Es. discriminate.
Qed.

Lemma update_hold_status_for_retro_tap_advances pos st :
  advances st (update_hold_status_for_retro_tap invoke pos st).
Proof.
  rewrite update_hold_status_for_retro_tap_spec.
  apply advances_valid_from; [reflexivity|].
  intros Hv u Hu. simpl in Hu. destruct (Hv u Hu) as (ht & Hl & Hst).
  exists ht. simpl. rewrite list_lookup_fmap, Hl. simpl.
  rewrite undecided_is_not_pending by exact Hst. split; [reflexivity|exact Hst].
Qed.

Lemma clear_hold_tap_advances i st : advances st (clear_hold_tap i st).
Proof.
  unfold clear_hold_tap.
  destruct (active_hold_taps st !! i) as [ht|] eqn:Hl; [|apply advances_refl].
  apply advances_valid_from; [reflexivity|].
  intros Hv u Hu. simpl in Hu. destruct (Hv u Hu) as (ht' & Hl' & Hst'). simpl.
  destruct (decide (i = u)) as [->|Hne].
  - rewrite list_lookup_insert_eq by (eapply lookup_lt_Some; eauto).
    eexists. split; reflexivity.
  - rewrite list_lookup_insert_ne by assumption. eauto.
Qed.

Lemma schedule_tapping_term_timer_same_core i cfg now st :
  same_core st (schedule_tapping_term_timer i cfg now st).
Proof.
  unfold schedule_tapping_term_timer, k_work_schedule.
  destruct (active_hold_taps st !! i) as [ht|] eqn:Hl; [|apply same_core_refl].
  destruct (work ht); [apply same_core_refl|].
  eapply set_hold_tap_same_core; [exact Hl|reflexivity].
Qed.

Lemma k_work_cancel_delayable_same_core i st :
  same_core st (k_work_cancel_delayable i st).
Proof.
  unfold k_work_cancel_delayable.
  destruct (active_hold_taps st !! i) as [ht|] eqn:Hl; [|apply same_core_refl].
  eapply set_hold_tap_same_core; [exact Hl|reflexivity].
Qed.

Lemma on_hold_tap_binding_pressed_advances cfg event now st :
  advances st (snd (on_hold_tap_binding_pressed invoke raise cfg event now st)).
Proof.
  destruct (undecided_hold_tap st) as [u|] eqn:Hu.
  { unfold on_hold_tap_binding_pressed. rewrite Hu. apply advances_refl. }
  destruct (find_hold_tap_from (active_hold_taps st) 0 CHT_POSITION_NOT_USED)
    as [i|] eqn:Hf.
  2: { unfold on_hold_tap_binding_pressed, store_hold_tap. rewrite Hu, Hf.
       apply same_core_advances. repeat split. }
  destruct (find_free_slot st i Hf) as (old & Hold).
  rewrite (on_hold_tap_binding_pressed_accepted invoke raise cfg event now st i old)
    by assumption.
  cbn [snd].
  eapply advances_trans;
    [|apply same_core_advances, schedule_tapping_term_timer_same_core].
  eapply advances_trans; [|apply decide_hold_tap_advances].
  set (st2 := keydown_state i cfg event old st).
  assert (H2 : advances st st2).
  { apply advances_valid; [reflexivity|]. intros u Hu2. injection Hu2 as <-.
    exists (keydown_record cfg event old st). split; [|reflexivity].
    subst st2. simpl. apply list_lookup_insert_eq. eapply lookup_lt_Some; eauto. }
  destruct (is_quick_tap _ _); [|exact H2].
  eapply advances_trans; [exact H2|apply decide_hold_tap_advances].
Qed.

Lemma on_hold_tap_binding_released_advances event result st :
  advances st (snd (on_hold_tap_binding_released invoke raise event result st)).
Proof.
  unfold on_hold_tap_binding_released.
  destruct (find_hold_tap _ _) as [i|];
    [|apply same_core_advances; repeat split].
  cbv zeta. cbn [snd].
  set (st0 := k_work_cancel_delayable i st).
  assert (H0 : advances st st0)
    by apply same_core_advances, k_work_cancel_delayable_same_core.
  set (st1 := match active_hold_taps st0 !! i with Some _ => _ | None => _ end).
  assert (H1 : advances st st1).
  { subst st1. destruct (active_hold_taps st0 !! i); [|exact H0].
    destruct (_ >? _); [|exact H0].
    eapply advances_trans; [exact H0|apply decide_hold_tap_advances]. }
  set (st3 := decide_retro_tap invoke i _).
  assert (H3 : advances st st3).
  { eapply advances_trans; [|apply decide_retro_tap_advances].
    eapply advances_trans; [exact H1|apply decide_hold_tap_advances]. }
  set (st4 := match active_hold_taps st3 !! i with Some _ => _ | None => _ end).
  assert (H4 : advances st st4).
  { eapply advances_trans; [exact H3|]. subst st4.
    destruct (active_hold_taps st3 !! i); [|apply advances_refl].
    apply same_core_advances, release_binding_same_core. }
  set (st5 := match active_hold_taps st4 !! i with Some _ => _ | None => _ end).
  assert (H5 : advances st st5).
  { eapply advances_trans; [exact H4|]. subst st5.
    destruct (active_hold_taps st4 !! i) as [ht|]; [|apply advances_refl].
    destruct (hold_while_undecided (config ht) && _); [|apply advances_refl].
    apply same_core_advances, invoke_binding_set_same_core. }
  eapply advances_trans; [exact H5|].
  destruct (result =? _); [|apply clear_hold_tap_advances].
  destruct (active_hold_taps st5 !! i) as [ht|] eqn:Hl; [|apply advances_refl].
  apply same_core_advances.
  eapply set_hold_tap_same_core; [exact Hl|reflexivity].
Qed.

Lemma capture_event_same_core data st : same_core st (snd (capture_event data st)).
Proof.
  unfold capture_event. destruct (capture_in _ _); repeat split.
Qed.

Lemma position_state_changed_listener_advances ev st :
  advances st (snd (position_state_changed_listener invoke raise ev st)).
Proof.
  unfold position_state_changed_listener.
  set (st0 := update_hold_status_for_retro_tap invoke (ps_position ev) st).
  assert (H0 : advances st st0) by apply update_hold_status_for_retro_tap_advances.
  clearbody st0. cbv zeta.
  destruct (undecided_hold_tap st0) as [u|] eqn:Hu; [|exact H0].
  destruct (active_hold_taps st0 !! u) as [ht0|] eqn:Hl; [|exact H0].
  set (st1 := if negb _ && _ then _ else st0).
  assert (H1 : advances st st1).
  { eapply advances_trans; [exact H0|]. subst st1.
    destruct (negb _ && _); [|apply advances_refl].
    apply same_core_advances.
    eapply set_hold_tap_same_core; [exact Hl|reflexivity]. }
  clearbody st1.
  destruct (position ht0 =? ps_position ev).
  { destruct (ps_state ev); [|exact H1].
    eapply advances_trans; [exact H1|]. apply same_core_advances. repeat split. }
  set (st2 := if _ >? _ then _ else st1).
  assert (H2 : advances st st2).
  { subst st2. destruct (_ >? _); [|exact H1].
    eapply advances_trans; [exact H1|apply decide_hold_tap_advances]. }
  clearbody st2.
  destruct (undecided_hold_tap st2) as [u'|] eqn:Hu2; [|exact H2].
  destruct (negb (ps_state ev) && negb (have_captured_keydown_event _ st2));
    cbn [snd]; [exact H2|].
  eapply advances_trans; [|apply decide_hold_tap_advances].
  eapply advances_trans; [exact H2|].
  apply same_core_advances, capture_event_same_core.
Qed.

Lemma keycode_state_changed_listener_advances ev st :
  advances st (snd (keycode_state_changed_listener ev st)).
Proof.
  unfold keycode_state_changed_listener.
  set (st0 := if _ && _ then _ else st).
  assert (H0 : advances st st0).
  { apply same_core_advances. subst st0.
    destruct (_ && _); [|apply same_core_refl].
    unfold store_last_tapped. destruct (_ >? _); repeat split. }
  clearbody st0. cbv zeta.
  destruct (undecided_hold_tap st0) as [u|] eqn:Hu; [|exact H0].
  destruct (negb _); [exact H0|].
  destruct (active_hold_taps st0 !! u) as [ht|]; [|exact H0].
  destruct (hold_while_undecided (config ht) && _); cbn [snd]; [exact H0|].
  eapply advances_trans; [exact H0|].
  apply same_core_advances, capture_event_same_core.
Qed.

Lemma timer_work_handler_advances i st :
  advances st (behavior_contextual_hold_tap_timer_work_handler invoke raise i st).
Proof.
  unfold behavior_contextual_hold_tap_timer_work_handler.
  destruct (active_hold_taps st !! i) as [ht|] eqn:Hl; [|apply advances_refl].
  assert (H0 : advances st (set_hold_tap i (set_work None ht) st)).
  { apply same_core_advances.
    eapply set_hold_tap_same_core; [exact Hl|reflexivity]. }
  destruct (work_is_cancelled ht).
  - eapply advances_trans; [exact H0|apply clear_hold_tap_advances].
  - eapply advances_trans; [exact H0|apply decide_hold_tap_advances].
Qed.

End Advances.

Lemma contextual_hold_tap_listener_advances ev st :
  advances st (snd (contextual_hold_tap_listener ev st)).
Proof.
  unfold contextual_hold_tap_listener, cht_record_last_key.
  destruct (negb _); [apply advances_refl|].
  destruct (is_mod _ _); [apply advances_refl|]. cbn [snd].
  destruct (kc_timestamp ev <? lk_timestamp (last_key st)) eqn:E;
    [apply advances_refl|].
  apply Z.ltb_ge in E. unfold advances. simpl. repeat split; auto.
Qed.

Lemma event_manager_handle_advances env raise now :
  raise_advances raise -> raise_advances (event_manager_handle env raise now).
Proof.
  intros Hr e st. unfold event_manager_handle.
  assert (Hl : advances st (snd (behavior_contextual_hold_tap_listener
                                   (invoke_result env) raise e st))).
  { destruct e as [|ev|ev]; simpl.
    - apply advances_refl.
    - apply position_state_changed_listener_advances; assumption.
    - apply keycode_state_changed_listener_advances. }
  destruct (behavior_contextual_hold_tap_listener _ raise e st) as [[|] st'];
    simpl in Hl; [|exact Hl].
  cbv zeta.
  assert (Hb : advances st (with_bubbled (bubbled st' ++ [e]) st')).
  { eapply advances_trans; [exact Hl|]. apply same_core_advances. repeat split. }
  destruct e as [|ev|ev]; [exact Hb| |].
  - unfold keymap_apply. destruct (keymap env (ps_position ev)); [|exact Hb].
    eapply advances_trans; [exact Hb|].
    destruct (ps_state ev).
    + apply on_hold_tap_binding_pressed_advances; assumption.
    + apply on_hold_tap_binding_released_advances; assumption.
  - eapply advances_trans; [exact Hb|].
    apply contextual_hold_tap_listener_advances.
Qed.

Lemma zmk_event_raise_advances env now depth :
  raise_advances (zmk_event_raise env now depth).
Proof.
  induction depth as [|d IH].
  - intros e st. apply advances_refl.
  - simpl. apply event_manager_handle_advances. exact IH.
Qed.

Lemma run_advances env inputs st : advances st (run env inputs st).
Proof.
  unfold run. revert st. induction inputs as [|inp l IH]; intros st; simpl.
  - apply advances_refl.
  - eapply advances_trans; [|apply IH].
    destruct inp as [now e|now i]; simpl.
    + apply zmk_event_raise_advances.
    + apply timer_work_handler_advances, zmk_event_raise_advances.
Qed.

(** X16: after every run from the initial state [undecided_hold_tap], when it
    is set, points to a slot of [active_hold_taps] whose status is
    UNDECIDED. *)
Theorem undecided_pointer_stays_valid env inputs held cap u :
  undecided_hold_tap (run env inputs (engine_init held cap)) = Some u ->
  exists ht,
    active_hold_taps (run env inputs (engine_init held cap)) !! u = Some ht
    /\ status_of ht = STATUS_UNDECIDED.
Proof.
  destruct (run_advances env inputs (engine_init held cap)) as (_ & _ & Hv).
  apply Hv. intros u' Hu. discriminate.
Qed.

(** X17: over every run, from any state, the timestamp of the last-key tracker
    never decreases, and the tracker, once valid, stays valid. *)
Theorem last_key_never_goes_back env inputs st :
  lk_timestamp (last_key st) <= lk_timestamp (last_key (run env inputs st))
  /\ (lk_valid (last_key st) = true ->
      lk_valid (last_key (run env inputs st)) = true).
Proof.
  destruct (run_advances env inputs st) as (H1 & H2 & _). split; assumption.
Qed.

(** *** Quick taps *)

Section QuickTap.

Variable invoke : zmk_behavior_binding -> zmk_behavior_binding_event -> bool -> Z.
Variable raise : captured_event -> engine -> engine.

(** X25: the keydown of a hold-tap that falls in the quick-tap window (no
    other hold-tap undecided, a free slot, nothing captured,
    [hold_while_undecided] off) is decided tap at once, whatever the flavor: the
    tap bindings are pressed, stamped with the keydown, [last_tapped] becomes
    this key and time, nothing is left undecided, and the tapping-term timer is
    scheduled all the same. *)
Theorem quick_tap_keydown_presses_tap cfg event now st i old :
  undecided_hold_tap st = None ->
  find_hold_tap_from (active_hold_taps st) 0 CHT_POSITION_NOT_USED = Some i ->
  active_hold_taps st !! i = Some old ->
  work old = None ->
  front_free st ->
  is_quick_tap (keydown_record cfg event old st) st = true ->
  hold_while_undecided cfg = false ->
  in_int64 (be_timestamp event + tapping_term_ms cfg) ->
  in_int32 (be_timestamp event + tapping_term_ms cfg - now) ->
  let st' := snd (on_hold_tap_binding_pressed invoke raise cfg event now st) in
  undecided_hold_tap st' = None
  /\ active_hold_taps st' !! i
     = Some (set_work (Some (Z.max 0 (be_timestamp event + tapping_term_ms cfg - now)))
               (set_status STATUS_TAP (keydown_record cfg event old st)))
  /\ sink st' = sink st ++ invocations_of invoke (tap_bindings cfg) event true
  /\ last_tapped st' = mk_last_tapped (be_position event) (be_timestamp event)
  /\ captured_events st' = captured_events st.
Proof.
  intros Hu Hfind Hold Hwork Hff Hq Hhwu Hr64 Hr32. cbv zeta.
  assert (Hlt : (i < length (active_hold_taps st))%nat)
    by (eapply lookup_lt_Some; eauto).
  rewrite (on_hold_tap_binding_pressed_accepted invoke raise cfg event now st i old)
    by assumption.
  cbn [snd].
  set (rec := keydown_record cfg event old st) in *.
  set (st2 := keydown_state i cfg event old st).
  change (is_quick_tap rec st2) with (is_quick_tap rec st). rewrite Hq.
  assert (Hi2 : active_hold_taps st2 !! i = Some rec).
  { subst st2. simpl. apply list_lookup_insert_eq. exact Hlt. }
  assert (Hev : binding_event_of rec = event) by (destruct event; reflexivity).
  rewrite (decide_hold_tap_undecided invoke raise i HT_QUICK_TAP st2 rec Hi2)
    by (try reflexivity; discriminate).
  replace (flavor_transition_table (selected_flavor rec) HT_QUICK_TAP)
    with (Some STATUS_TAP) by (destruct (selected_flavor rec); reflexivity).
  rewrite decide_positional_hold_spec.
  destruct (decide _) as [(_ & H & _)|_]; [exfalso; apply H; reflexivity|].
  set (tap := set_status STATUS_TAP rec).
  assert (E3 : commit_decision invoke raise i tap st2
               = with_sink (sink st ++ invocations_of invoke (tap_bindings cfg) event true)
                   (store_last_hold_tapped tap
                      (with_undecided None (set_hold_tap i tap st2)))).
  { unfold commit_decision.
    assert (Ep : snd (press_binding invoke tap
                        (with_undecided None (set_hold_tap i tap st2)))
                 = with_sink
                     (sink st ++ invocations_of invoke (tap_bindings cfg) event true)
                     (store_last_hold_tapped tap
                        (with_undecided None (set_hold_tap i tap st2)))).
    { unfold press_binding, press_tap_binding.
      change (hold_while_undecided (config tap)) with (hold_while_undecided cfg).
      rewrite Hhwu. simpl status_of. rewrite andb_false_r.
      change (is_hold_status STATUS_TAP) with false. cbv iota. simpl andb. cbv iota.
      rewrite invoke_binding_set_sink.
      change (binding_event_of tap) with (binding_event_of rec). rewrite Hev.
      reflexivity. }
    rewrite Ep. apply release_captured_events_front_free. exact Hff. }
  rewrite E3.
  set (st3 := with_sink _ _).
  assert (Hi3 : active_hold_taps st3 !! i = Some tap).
  { subst st3. simpl. apply list_lookup_insert_eq. rewrite length_insert. exact Hlt. }
  rewrite (decide_hold_tap_decided invoke raise i HT_KEY_DOWN st3 tap Hi3)
    by discriminate.
  unfold schedule_tapping_term_timer, k_work_schedule. rewrite Hi3.
  change (work tap) with (work old). rewrite Hwork.
  change (timestamp tap) with (be_timestamp event).
  rewrite add64_exact by exact Hr64.
  assert (Hr64' : in_int64 (be_timestamp event + tapping_term_ms cfg - now)).
  { unfold in_int64, in_int32 in *. lia. }
  rewrite sub64_exact by exact Hr64'.
  assert (Hw : wrap_int32 (be_timestamp event + tapping_term_ms cfg - now)
               = be_timestamp event + tapping_term_ms cfg - now).
  { unfold in_int32 in Hr32. unfold wrap_int32. rewrite Z.mod_small by lia. lia. }
  rewrite Hw.
  assert (Emax : (if be_timestamp event + tapping_term_ms cfg - now <? 0 then 0
                  else be_timestamp event + tapping_term_ms cfg - now)
                 = Z.max 0 (be_timestamp event + tapping_term_ms cfg - now)).
  { destruct (_ <? 0) eqn:E; [apply Z.ltb_lt in E|apply Z.ltb_ge in E]; lia. }
  rewrite Emax. simpl.
  rewrite list_lookup_insert_eq by (rewrite !length_insert; exact Hlt).
  repeat split; reflexivity.
Qed.

(** X26: the windows of [is_quick_tap] open at a keydown.  After the tap
    bindings of a hold-tap are pressed, a later hold-tap is a quick tap exactly
    when its keydown is less than [require_prior_idle_ms] after the keydown of
    the tapped one, or on the same position less than [quick_tap_ms] after it;
    the release of the tapped key plays no part.  After the press of a key that
    is no modifier, newer than [last_tapped], a hold-tap is a quick tap exactly
    when its keydown is less than [require_prior_idle_ms] after that press
    (the position recorded then is INT32_MIN, which no key has). *)
Theorem quick_tap_window_opens_at_the_keydown hold_tap :
  (forall tapped st,
     in_int64 (timestamp tapped + require_prior_idle_ms (config hold_tap)) ->
     in_int64 (timestamp tapped + quick_tap_ms (config hold_tap)) ->
     is_quick_tap hold_tap (snd (press_tap_binding invoke tapped st)) = true
     <-> timestamp hold_tap < timestamp tapped + require_prior_idle_ms (config hold_tap)
         \/ (position hold_tap = position tapped
             /\ timestamp hold_tap < timestamp tapped + quick_tap_ms (config hold_tap)))
  /\ (forall ev st,
        kc_state ev = true ->
        is_mod (kc_usage_page ev) (kc_keycode ev) = false ->
        lt_timestamp (last_tapped st) < kc_timestamp ev ->
        position hold_tap <> INT32_MIN ->
        in_int64 (kc_timestamp ev + require_prior_idle_ms (config hold_tap)) ->
        in_int64 (kc_timestamp ev + quick_tap_ms (config hold_tap)) ->
        is_quick_tap hold_tap (snd (keycode_state_changed_listener ev st)) = true
        <-> timestamp hold_tap < kc_timestamp ev + require_prior_idle_ms (config hold_tap)).
Proof.
  split.
  - intros tapped st H1 H2.
    assert (Hl : last_tapped (snd (press_tap_binding invoke tapped st))
                 = mk_last_tapped (position tapped) (timestamp tapped)).
    { unfold press_tap_binding. rewrite invoke_binding_set_sink. reflexivity. }
    rewrite is_quick_tap_spec by (rewrite Hl; assumption).
    unfold quick_tap_condition, within_ms. rewrite Hl. simpl.
    split; intros [H|(Hp & H)]; [left; lia|right; split; [congruence|lia]
                                |left; lia|right; split; [congruence|lia]].
  - intros ev st Hst Hmod Hnew Hpos H1 H2.
    assert (Hl : last_tapped (snd (keycode_state_changed_listener ev st))
                 = mk_last_tapped INT32_MIN (kc_timestamp ev)).
    { unfold keycode_state_changed_listener. rewrite Hst, Hmod. simpl negb.
      simpl andb. cbv iota. unfold store_last_tapped.
      replace (kc_timestamp ev >? lt_timestamp (last_tapped st)) with true
        by (symmetry; apply Z.gtb_lt; lia).
      cbv zeta. simpl undecided_hold_tap.
      destruct (undecided_hold_tap st); reflexivity. }
    rewrite is_quick_tap_spec by (rewrite Hl; assumption).
    unfold quick_tap_condition, within_ms. rewrite Hl. simpl.
    split; [intros [H|(Hp & H)]; [lia|congruence]|intros H; left; lia].
Qed.

End QuickTap.

(** ** At concrete inputs *)

Lemma stored_hold_tap_is_found_and_cleared_witness :
  let event := mk_binding_event 10 0 0 in
  let st' := snd (store_hold_tap event (sample_config FLAVOR_BALANCED) (engine_init 2 4)) in
  find_hold_tap 10 st' = Some 0%nat
  /\ find_hold_tap 10 (clear_hold_tap 0 st') = None
  /\ forall event2 cfg2, fst (store_hold_tap event2 cfg2 (clear_hold_tap 0 st')) = Some 0%nat.
Proof.
  intros event st'.
  refine (stored_hold_tap_is_found_and_cleared event (sample_config FLAVOR_BALANCED)
            (engine_init 2 4) 0 st' eq_refl _).
  repeat constructor; discriminate.
Defined.

Lemma hold_tap_table_misses_are_logged_witness :
  on_hold_tap_binding_released accept_all (fun _ s => s) (mk_binding_event 10 50 0) 0
    (engine_init 2 4)
  = (ZMK_BEHAVIOR_OPAQUE,
     LOG_ERR "ACTIVE_HOLD_TAP_CLEANED_UP_TOO_EARLY" (engine_init 2 4)).
Proof.
  refine (proj2 (hold_tap_table_misses_are_logged accept_all (fun _ s => s))
            (mk_binding_event 10 50 0) 0 (engine_init 2 4) _).
  repeat constructor; discriminate.
Defined.

Lemma invoke_binding_set_stops_at_first_failure_witness :
  let event := mk_binding_event 10 0 0 in
  invoke_binding_set reject_5 [kp 4; kp 5; kp 6] event true (engine_init 2 4)
  = (-22, with_sink [mk_invocation (kp 4) event true; mk_invocation (kp 5) event true]
            (engine_init 2 4)).
Proof.
  intros event.
  refine (proj2 (invoke_binding_set_stops_at_first_failure reject_5 event true
                   (engine_init 2 4)) [kp 4] (kp 5) [kp 6] _ _).
  - repeat constructor.
  - discriminate.
Defined.

Lemma idle_engine_lets_every_event_through_witness :
  position_state_changed_listener accept_all (fun _ s => s)
    (mk_position_event 0 20 true 5) (engine_init 2 4)
  = (ZMK_EV_EVENT_BUBBLE, engine_init 2 4).
Proof.
  refine (proj1 (idle_engine_lets_every_event_through accept_all (fun _ s => s)
                   (engine_init 2 4) eq_refl) (mk_position_event 0 20 true 5) _).
  repeat constructor.
Defined.

Lemma own_events_and_earlier_releases_bubble_witness :
  let st := after_keydown (sample_config FLAVOR_BALANCED) in
  let r := position_state_changed_listener accept_all (fun _ s => s)
             (mk_position_event 0 20 false 50) st in
  fst r = ZMK_EV_EVENT_BUBBLE
  /\ captured_events (snd r) = captured_events st
  /\ undecided_hold_tap (snd r) = Some 0%nat
  /\ (status_of <$> active_hold_taps (snd r) !! 0%nat) = Some STATUS_UNDECIDED.
Proof.
  intros st r.
  refine (own_events_and_earlier_releases_bubble accept_all (fun _ s => s)
            (mk_position_event 0 20 false 50) st 0 _ eq_refl eq_refl eq_refl _).
  right. repeat split; try reflexivity; try (unfold in_int64; simpl; lia).
Defined.

Lemma other_key_event_is_captured_then_decides_witness :
  let cfg := sample_config FLAVOR_HOLD_PREFERRED in
  let st' := snd (position_state_changed_listener accept_all
                    (zmk_event_raise (sample_env cfg) 50 3)
                    (mk_position_event 0 20 true 50) (after_keydown cfg)) in
  exists r,
    active_hold_taps st' !! 0%nat = Some r
    /\ after_replay
         (mk_hold_tap 10 0 0 STATUS_HOLD_INTERRUPT FLAVOR_HOLD_PREFERRED cfg
            (Some 200) false 20) r.
Proof.
  intros cfg st'.
  assert (H64 : in_int64 (0 + 200)) by (unfold in_int64; lia).
  assert (Hearly : 50 <= 0 + 200) by lia.
  assert (Hin : in_use (mk_hold_tap 10 0 0 STATUS_UNDECIDED (normal_flavor cfg) cfg
                          (Some 200) false (-1)))
    by (unfold in_use; simpl; discriminate).
  assert (Hno : no_event_of 10 (after_keydown cfg)).
  { apply Forall_forall. intros e He.
    change (e ∈ replicate 40 ET_NONE) in He.
    apply elem_of_replicate in He as (-> & _). simpl. tauto. }
  exact (proj2 (other_key_event_is_captured_then_decides accept_all
                  (zmk_event_raise (sample_env cfg) 50 3)
                  (mk_position_event 0 20 true 50) (after_keydown cfg) 0 _ []
                  (replicate 39 ET_NONE)
                  eq_refl eq_refl eq_refl ltac:(discriminate) H64 Hearly
                  (or_introl eq_refl) eq_refl (List.Forall_nil _))
           (zmk_event_raise_keeps_decided (sample_env cfg) 50 3) Hin Hno
           STATUS_HOLD_INTERRUPT eq_refl).
Defined.

(** The first other key at position 4294967295: the field reads -1, no key,
    so there is no positional override and the hold-preferred hold-tap of
    [positional_config] is decided HOLD_INTERRUPT. *)
Example first_other_key_at_uint32_max :
  let st' := snd (position_state_changed_listener accept_all (fun _ s => s)
                    (mk_position_event 0 4294967295 true 50)
                    (after_keydown positional_config)) in
  active_hold_taps st' !! 0%nat
  = Some (mk_hold_tap 10 0 0 STATUS_HOLD_INTERRUPT FLAVOR_HOLD_PREFERRED
            positional_config (Some 200) false (-1)).
Proof. vm_compute. reflexivity. Qed.

Lemma other_key_turns_retro_tap_into_hold_witness :
  update_hold_status_for_retro_tap accept_all 20 (engine_init 2 4) = engine_init 2 4.
Proof.
  refine (proj2 (other_key_turns_retro_tap_into_hold accept_all 20 (engine_init 2 4)) _).
  repeat constructor.
Defined.

Lemma retro_tap_release_taps_witness :
  sink (snd (on_hold_tap_binding_released accept_all (fun _ s => s)
               (mk_binding_event 10 300 0) 0 retro_held))
  = [mk_invocation (kp 4) (mk_binding_event 10 0 0) true;
     mk_invocation (kp 4) (mk_binding_event 10 0 0) false].
Proof.
  exact (proj1 (retro_tap_release_taps accept_all (fun _ s => s) 0 _
                  (mk_binding_event 10 300 0) 0 retro_held
                  eq_refl eq_refl eq_refl eq_refl eq_refl)).
Defined.

Lemma cancelled_timer_work_frees_the_slot_witness :
  let released :=
    snd (on_hold_tap_binding_released accept_all (fun _ s => s)
           (mk_binding_event 10 50 0) (- EINPROGRESS) tapped_early) in
  let cleaned :=
    behavior_contextual_hold_tap_timer_work_handler accept_all (fun _ s => s) 0
      released in
  (position <$> active_hold_taps released !! 0%nat) = Some 10
  /\ (position <$> active_hold_taps cleaned !! 0%nat) = Some CHT_POSITION_NOT_USED.
Proof.
  intros released cleaned.
  destruct (cancelled_timer_work_frees_the_slot accept_all (fun _ s => s) 0 _
              (mk_binding_event 10 50 0) tapped_early
              eq_refl eq_refl ltac:(discriminate) eq_refl)
    as (H1 & H2 & _).
  split; [|exact H2].
  fold released in H1. rewrite H1. reflexivity.
Defined.


Lemma flavor_follows_the_last_key_press_witness :
  let space := mk_keycode_event HID_USAGE_KEY 44 0 0 true 100 in
  select_flavor contextual_config 200
    (snd (contextual_hold_tap_listener space (engine_init 2 4)))
  = FLAVOR_TAP_PREFERRED.
Proof.
  intros space.
  assert (Hts : 0 <= 100) by lia.
  assert (H64 : in_int64 (200 - 100)) by (unfold in_int64; lia).
  exact (proj1 (flavor_follows_the_last_key_press contextual_config 200 space
                  (engine_init 2 4)) eq_refl eq_refl Hts H64).
Defined.

Lemma keycode_events_pass_unless_modifier_witness :
  let st := after_keydown (sample_config FLAVOR_BALANCED) in
  let shift := mk_keycode_event HID_USAGE_KEY 225 0 0 true 40 in
  zmk_event_manager_raise (sample_env (sample_config FLAVOR_BALANCED)) 40
    (ET_CODE_CHANGED shift) st
  = with_captured (ET_CODE_CHANGED shift :: replicate 39 ET_NONE) st.
Proof.
  intros st shift.
  exact (proj2 (keycode_events_pass_unless_modifier
                  (sample_env (sample_config FLAVOR_BALANCED)) 40 shift st)
           0%nat _ [] (replicate 39 ET_NONE)
           eq_refl eq_refl eq_refl eq_refl eq_refl (List.Forall_nil _)).
Defined.

Lemma captured_key_press_is_found_witness :
  let st := three_waiting in
  have_captured_keydown_event 40
    (snd (capture_event (key_down 40 35) st)) = true.
Proof.
  intros st.
  assert (Hocc : Forall occupied [key_down 30 10; key_down 20 20; key_up 20 30])
    by (repeat constructor; discriminate).
  exact (proj1 (proj2 (captured_key_press_is_found 40 st _ 4 eq_refl Hocc))
           (mk_position_event 0 40 true 35)).
Defined.

Lemma undecided_pointer_stays_valid_witness :
  exists ht,
    active_hold_taps
      (run (sample_env (sample_config FLAVOR_BALANCED)) [Event 0 (key_down 10 0)]
         (engine_init 2 4)) !! 0%nat = Some ht
    /\ status_of ht = STATUS_UNDECIDED.
Proof.
  exact (undecided_pointer_stays_valid (sample_env (sample_config FLAVOR_BALANCED))
           [Event 0 (key_down 10 0)] 2 4 0 eq_refl).
Defined.

Lemma last_key_never_goes_back_witness :
  let env := sample_env (sample_config FLAVOR_BALANCED) in
  let st := run env [Event 100 (letter_pressed 100)] (engine_init 2 4) in
  lk_valid (last_key (run env [Event 50 (letter_pressed 50)] st)) = true.
Proof.
  intros env st.
  exact (proj2 (last_key_never_goes_back env [Event 50 (letter_pressed 50)] st)
           eq_refl).
Defined.

Lemma quick_tap_keydown_presses_tap_witness :
  let st' := snd (on_hold_tap_binding_pressed accept_all (fun _ s => s)
                    quick_config (mk_binding_event 10 50 0) 50 tapped_at_10) in
  undecided_hold_tap st' = None
  /\ active_hold_taps st' !! 0%nat
     = Some (mk_hold_tap 10 0 50 STATUS_TAP FLAVOR_BALANCED quick_config (Some 200)
               false (-1))
  /\ sink st' = [mk_invocation (kp 4) (mk_binding_event 10 50 0) true]
  /\ last_tapped st' = mk_last_tapped 10 50
  /\ captured_events st' = replicate 40 ET_NONE.
Proof.
  intros st'.
  assert (H64 : in_int64 (50 + 200)) by (unfold in_int64; lia).
  assert (H32 : in_int32 (50 + 200 - 50)) by (unfold in_int32; lia).
  exact (quick_tap_keydown_presses_tap accept_all (fun _ s => s) quick_config
           (mk_binding_event 10 50 0) 50 tapped_at_10 0 free_slot
           eq_refl eq_refl eq_refl eq_refl eq_refl eq_refl eq_refl H64 H32).
Defined.

Lemma quick_tap_window_opens_at_the_keydown_witness :
  let tapped := mk_hold_tap 10 0 0 STATUS_TAP FLAVOR_BALANCED quick_config None false (-1) in
  let again := mk_hold_tap 10 0 90 STATUS_UNDECIDED FLAVOR_BALANCED quick_config None
                 false (-1) in
  is_quick_tap again (snd (press_tap_binding accept_all tapped (engine_init 2 4))) = true.
Proof.
  intros tapped again.
  assert (H1 : in_int64 (0 + 0)) by (unfold in_int64; lia).
  assert (H2 : in_int64 (0 + 100)) by (unfold in_int64; lia).
  refine (proj2 (proj1 (quick_tap_window_opens_at_the_keydown accept_all again)
                   tapped (engine_init 2 4) H1 H2) _).
  right. split; [reflexivity|]. simpl. lia.
Defined.

(** * The QMK userspace *)

Import Magic Userspace.

(** ** Keycode arithmetic *)

Lemma land_ones_low (a : Z) (n : Z) :
  0 <= n -> 0 <= Z.land a (2 ^ n - 1) < 2 ^ n.
Proof.
  intros Hn. replace (2 ^ n - 1) with (Z.ones n) by (rewrite Z.ones_equiv; lia).
  rewrite Z.land_ones by exact Hn. apply Z.mod_pos_bound. lia.
Qed.

Lemma lor_shiftl_low (hi lo n : Z) :
  0 <= n -> 0 <= lo < 2 ^ n -> Z.lor (Z.shiftl hi n) lo = hi * 2 ^ n + lo.
Proof.
  intros Hn Hlo.
  assert (Hdisj : Z.land (Z.shiftl hi n) lo = 0).
  { apply Z.bits_inj'. intros i Hi. rewrite Z.land_spec, Z.bits_0.
    destruct (Z.lt_ge_cases i n) as [Hlt|Hge].
    - rewrite Z.shiftl_spec_low by exact Hlt. reflexivity.
    - destruct (Z.eq_dec lo 0) as [->|Hne].
      + rewrite Z.bits_0. apply andb_false_r.
      + rewrite (Z.bits_above_log2 lo i); [apply andb_false_r|lia|].
        apply Z.lt_le_trans with n; [|exact Hge].
        apply Z.log2_lt_pow2; lia. }
  rewrite <- Z.lxor_lor by exact Hdisj.
  rewrite <- Z.add_nocarry_lxor by exact Hdisj.
  rewrite Z.shiftl_mul_pow2 by exact Hn. reflexivity.
Qed.

Lemma MT_value mods kc :
  MT mods kc = 0x2000 + Z.land mods 0x1F * 256 + Z.land kc 0xFF.
Proof.
  unfold MT, QK_MOD_TAP.
  pose proof (land_ones_low mods 5 ltac:(lia)) as Hm.
  pose proof (land_ones_low kc 8 ltac:(lia)) as Hk.
  change (2 ^ 5 - 1) with 0x1F in Hm. change (2 ^ 8 - 1) with 0xFF in Hk.
  change (2 ^ 5) with 32 in Hm. change (2 ^ 8) with 256 in Hk.
  rewrite (lor_shiftl_low (Z.land mods 0x1F) (Z.land kc 0xFF) 8)
    by (change (2 ^ 8) with 256; lia).
  change 0x2000 with (Z.shiftl 1 13).
  rewrite (lor_shiftl_low 1 _ 13)
    by (change (2 ^ 8) with 256; change (2 ^ 13) with 8192; lia).
  change (Z.shiftl 1 13) with 8192. change (2 ^ 8) with 256.
  change (2 ^ 13) with 8192. lia.
Qed.

Lemma LT_value layer kc :
  LT layer kc = 0x4000 + Z.land layer 0xF * 256 + Z.land kc 0xFF.
Proof.
  unfold LT, QK_LAYER_TAP.
  pose proof (land_ones_low layer 4 ltac:(lia)) as Hm.
  pose proof (land_ones_low kc 8 ltac:(lia)) as Hk.
  change (2 ^ 4 - 1) with 0xF in Hm. change (2 ^ 8 - 1) with 0xFF in Hk.
  change (2 ^ 4) with 16 in Hm. change (2 ^ 8) with 256 in Hk.
  rewrite (lor_shiftl_low (Z.land layer 0xF) (Z.land kc 0xFF) 8)
    by (change (2 ^ 8) with 256; lia).
  change 0x4000 with (Z.shiftl 1 14).
  rewrite (lor_shiftl_low 1 _ 14)
    by (change (2 ^ 8) with 256; change (2 ^ 14) with 16384; lia).
  change (Z.shiftl 1 14) with 16384. change (2 ^ 8) with 256.
  change (2 ^ 14) with 16384. lia.
Qed.

Lemma land_low_byte (hi lo : Z) :
  0 <= lo < 256 -> Z.land (hi * 256 + lo) 0xFF = lo.
Proof.
  intros Hlo. change 0xFF with (Z.ones 8). rewrite Z.land_ones by lia.
  change (2 ^ 8) with 256. rewrite Z.add_comm, Z.mod_add by lia.
  apply Z.mod_small. exact Hlo.
Qed.

Lemma MT_tap mods kc :
  IS_QK_MOD_TAP (MT mods kc) = true
  /\ QK_MOD_TAP_GET_TAP_KEYCODE (MT mods kc) = Z.land kc 0xFF.
Proof.
  rewrite MT_value.
  pose proof (land_ones_low mods 5 ltac:(lia)) as Hm.
  pose proof (land_ones_low kc 8 ltac:(lia)) as Hk.
  change (2 ^ 5 - 1) with 0x1F in Hm. change (2 ^ 8 - 1) with 0xFF in Hk.
  change (2 ^ 5) with 32 in Hm. change (2 ^ 8) with 256 in Hk.
  split.
  - unfold IS_QK_MOD_TAP. apply andb_true_iff. split; apply Z.leb_le; lia.
  - unfold QK_MOD_TAP_GET_TAP_KEYCODE.
    replace (0x2000 + Z.land mods 0x1F * 256 + Z.land kc 0xFF)
      with ((32 + Z.land mods 0x1F) * 256 + Z.land kc 0xFF) by lia.
    apply land_low_byte. lia.
Qed.

Lemma LT_tap layer kc :
  IS_QK_MOD_TAP (LT layer kc) = false
  /\ IS_QK_LAYER_TAP (LT layer kc) = true
  /\ QK_LAYER_TAP_GET_TAP_KEYCODE (LT layer kc) = Z.land kc 0xFF.
Proof.
  rewrite LT_value.
  pose proof (land_ones_low layer 4 ltac:(lia)) as Hm.
  pose proof (land_ones_low kc 8 ltac:(lia)) as Hk.
  change (2 ^ 4 - 1) with 0xF in Hm. change (2 ^ 8 - 1) with 0xFF in Hk.
  change (2 ^ 4) with 16 in Hm. change (2 ^ 8) with 256 in Hk.
  split; [|split].
  - unfold IS_QK_MOD_TAP. apply andb_false_iff. right. apply Z.leb_gt. lia.
  - unfold IS_QK_LAYER_TAP. apply andb_true_iff. split; apply Z.leb_le; lia.
  - unfold QK_LAYER_TAP_GET_TAP_KEYCODE.
    replace (0x4000 + Z.land layer 0xF * 256 + Z.land kc 0xFF)
      with ((64 + Z.land layer 0xF) * 256 + Z.land kc 0xFF) by lia.
    apply land_low_byte. lia.
Qed.

Lemma land_basic kc : is_basic_keycode kc -> Z.land kc 0xFF = kc.
Proof.
  intros H. unfold is_basic_keycode in H. change 0xFF with (Z.ones 8).
  rewrite Z.land_ones by lia. apply Z.mod_small. change (2 ^ 8) with 256. lia.
Qed.

Lemma unwrap_mod_tap_magic mods : unwrap_tap_keycode (MT mods QK_AREP) = QK_AREP.
Proof.
  unfold unwrap_tap_keycode. destruct (MT_tap mods QK_AREP) as (-> & ->). reflexivity.
Qed.

(** X18: [unwrap_tap_keycode] inverts QMK's [MT] and [LT] on basic keycodes
    (0x7A apart, under [MT]).  The magic key wrapped in a mod-tap, whose tap
    field truncates to 0x7A, is recovered as [QK_AREP] for every modifier;
    wrapped in a layer-tap it is not: what comes back is 0x7A. *)
Theorem unwrap_tap_keycode_inverts_mod_tap_and_layer_tap :
  (forall mods kc,
     is_basic_keycode kc -> kc <> 0x7A ->
     unwrap_tap_keycode (MT mods kc) = kc)
  /\ (forall layer kc,
        is_basic_keycode kc -> unwrap_tap_keycode (LT layer kc) = kc)
  /\ (forall mods, unwrap_tap_keycode (MT mods QK_AREP) = QK_AREP)
  /\ (forall layer, unwrap_tap_keycode (LT layer QK_AREP) = 0x7A).
Proof.
  repeat split.
  - intros mods kc Hk Hne. unfold unwrap_tap_keycode.
    destruct (MT_tap mods kc) as (-> & ->). rewrite land_basic by exact Hk.
    apply Z.eqb_neq in Hne. rewrite Hne. reflexivity.
  - intros layer kc Hk. unfold unwrap_tap_keycode.
    destruct (LT_tap layer kc) as (-> & -> & ->). apply land_basic. exact Hk.
  - apply unwrap_mod_tap_magic.
  - intros layer. unfold unwrap_tap_keycode.
    destruct (LT_tap layer QK_AREP) as (-> & -> & ->). reflexivity.
Qed.

(** X19: what [unwrap_tap_keycode] returns is never a mod-tap or layer-tap
    keycode, so unwrapping twice is unwrapping once. *)
Theorem unwrap_tap_keycode_is_idempotent k :
  IS_QK_MOD_TAP (unwrap_tap_keycode k) = false
  /\ IS_QK_LAYER_TAP (unwrap_tap_keycode k) = false
  /\ unwrap_tap_keycode (unwrap_tap_keycode k) = unwrap_tap_keycode k.
Proof.
  assert (Hn : IS_QK_MOD_TAP (unwrap_tap_keycode k) = false
               /\ IS_QK_LAYER_TAP (unwrap_tap_keycode k) = false).
  { unfold unwrap_tap_keycode.
    pose proof (land_ones_low k 8 ltac:(lia)) as Hb.
    change (2 ^ 8 - 1) with 0xFF in Hb. change (2 ^ 8) with 256 in Hb.
    destruct (IS_QK_MOD_TAP k) eqn:Em.
    - unfold QK_MOD_TAP_GET_TAP_KEYCODE.
      destruct (Z.land k 0xFF =? 0x7A); [split; reflexivity|].
      unfold IS_QK_MOD_TAP, IS_QK_LAYER_TAP.
      split; apply andb_false_iff; left; apply Z.leb_gt; lia.
    - destruct (IS_QK_LAYER_TAP k) eqn:El.
      + unfold QK_LAYER_TAP_GET_TAP_KEYCODE, IS_QK_MOD_TAP, IS_QK_LAYER_TAP.
        split; apply andb_false_iff; left; apply Z.leb_gt; lia.
      + split; assumption. }
  destruct Hn as (Hm & Hl). repeat split; try assumption.
  unfold unwrap_tap_keycode at 1. rewrite Hm, Hl. reflexivity.
Qed.

(** ** The hooks of the repeat key *)

(** X20: the magic key, plain or as the tap of a mod-tap, is neither eligible
    for the repeat key nor remembered as the last key; [QK_REP] is not
    eligible; and every keycode that is eligible is remembered. *)
Theorem magic_key_is_never_remembered :
  (forall k,
     unwrap_tap_keycode k = QK_AREP ->
     get_repeat_key_eligible_user k = false /\ remember_last_key_user k = false)
  /\ (forall k,
        get_repeat_key_eligible_user k = true -> remember_last_key_user k = true)
  /\ get_repeat_key_eligible_user QK_REP = false
  /\ (forall mods,
        get_repeat_key_eligible_user (MT mods QK_AREP) = false
        /\ remember_last_key_user (MT mods QK_AREP) = false).
Proof.
  assert (H1 : forall k, unwrap_tap_keycode k = QK_AREP ->
               get_repeat_key_eligible_user k = false
               /\ remember_last_key_user k = false).
  { intros k Hk. unfold get_repeat_key_eligible_user, remember_last_key_user.
    rewrite Hk. simpl. split; [|reflexivity].
    destruct (_ || _); reflexivity. }
  split; [exact H1|]. split; [|split; [reflexivity|]].
  - intros k. unfold get_repeat_key_eligible_user, remember_last_key_user.
    destruct (_ || _); [discriminate|].
    destruct (unwrap_tap_keycode k =? QK_AREP); [discriminate|reflexivity].
  - intros mods. apply H1, unwrap_mod_tap_magic.
Qed.

(** ** The magic key with the hooks of the Lulu keymap *)

Lemma lulu_alt_is_not_the_magic_key keycode mods q :
  get_alt_repeat_key_keycode_user keycode mods q <> QK_AREP.
Proof.
  unfold get_alt_repeat_key_keycode_user, alt_of. cbv zeta.
  repeat match goal with
         | |- context [if ?b then _ else _] => destruct b
         end; discriminate.
Qed.

(** X21: with the hooks of the Lulu keymap, [magic_process_record] leaves
    every key alone whose tap keycode is not [QK_AREP] (it returns true and
    sends nothing); for the magic key pressed, or released after a tap of its
    mod-tap, it returns false and sends exactly one thing, a tapped key or a
    text; and it never does anything else. *)
Theorem magic_key_sends_one_thing_or_nothing keycode record q :
  let r := magic_process_record get_alt_repeat_key_keycode_user process_magic_record
             keycode record q in
  (unwrap_tap_keycode keycode <> QK_AREP -> r = (true, q))
  /\ (unwrap_tap_keycode keycode = QK_AREP ->
      (if IS_QK_MOD_TAP keycode
       then event_pressed record = false /\ tap_count record <> 0
            /\ tap_interrupted record = false
       else event_pressed record = true) ->
      exists e, r = (false, send e q))
  /\ ((r = (true, q)) \/ (exists e, r = (false, send e q))).
Proof.
  cbv zeta. unfold magic_process_record.
  assert (Hh : exists e,
             handle_magic_tap get_alt_repeat_key_keycode_user process_magic_record
               keycode record q = (false, send e q)).
  { unfold handle_magic_tap. cbv zeta.
    set (last := unwrap_tap_keycode (last_keycode q)).
    set (alt := get_alt_repeat_key_keycode_user last (last_mods q) q).
    unfold process_magic_record. simpl event_pressed. simpl negb. cbv iota.
    destruct (_ || _); [eexists; reflexivity|].
    destruct (_ || _); [eexists; reflexivity|].
    simpl negb. cbv iota.
    destruct (alt =? QK_REP); eexists; reflexivity. }
  split; [|split].
  - intros Hne. apply Z.eqb_neq in Hne. rewrite Hne, !andb_false_r. reflexivity.
  - intros Hmagic Hfires. rewrite Hmagic, Z.eqb_refl, !andb_true_r.
    destruct (IS_QK_MOD_TAP keycode).
    + destruct Hfires as (-> & Hc & ->). apply Z.eqb_neq in Hc. rewrite Hc.
      exact Hh.
    + rewrite Hfires. exact Hh.
  - destruct (IS_QK_MOD_TAP keycode && _).
    + destruct (event_pressed record); [left; reflexivity|].
      destruct (_ || _); [left; reflexivity|right; exact Hh].
    + destruct (event_pressed record && _); [right; exact Hh|left; reflexivity].
Qed.

(** X22: on each of the three base layers of the Lulu the magic key, pressed
    after a space, types the text of the space macro, and after a comma that
    of the comma macro.  The last key counts by its tap keycode, so a space
    typed on a layer-tap thumb key does as well. *)
Theorem magic_key_after_space_and_comma record q :
  current_base_layer q = BASE_PRIMARY \/ current_base_layer q = BASE_ALT
  \/ current_base_layer q = BASE_ALT2 ->
  event_pressed record = true ->
  (unwrap_tap_keycode (last_keycode q) = KC_SPC ->
   magic_process_record get_alt_repeat_key_keycode_user process_magic_record
     QK_AREP record q = (false, SEND_STRING "the" q))
  /\ (unwrap_tap_keycode (last_keycode q) = KC_COMM ->
      magic_process_record get_alt_repeat_key_keycode_user process_magic_record
        QK_AREP record q = (false, SEND_STRING " but" q)).
Proof.
  intros Hlayer Hp.
  split; intros Hlast; unfold magic_process_record; rewrite Hp; simpl;
    unfold handle_magic_tap; cbv zeta; rewrite Hlast;
    unfold get_alt_repeat_key_keycode_user; cbv zeta;
    destruct Hlayer as [-> | [-> | ->]]; reflexivity.
Qed.

(** X23: the keycodes [process_magic_record] consumes on a press are exactly
    the magic macros, which [magic_training_first_keycode] maps to [KC_NO]. *)
Theorem magic_macros_are_the_consumed_keycodes keycode record q :
  event_pressed record = true ->
  fst (process_magic_record keycode record q) = false
  <-> magic_training_first_keycode keycode = KC_NO /\ keycode <> KC_NO.
Proof.
  intros Hp. unfold process_magic_record, magic_training_first_keycode, case_of,
    magic_macros. rewrite Hp. simpl negb. cbv iota. simpl existsb.
  rewrite orb_false_r.
  destruct (keycode =? MAGIC_ALT2_CHR_32) eqn:E1;
  destruct (keycode =? MAGIC_ALT2_CHR_44) eqn:E2;
  destruct (keycode =? MAGIC_ALT_CHR_32) eqn:E3;
  destruct (keycode =? MAGIC_ALT_CHR_44) eqn:E4;
  destruct (keycode =? MAGIC_PRIMARY_CHR_32) eqn:E5;
  destruct (keycode =? MAGIC_PRIMARY_CHR_44) eqn:E6; simpl;
    try (split; [intros _; split; [reflexivity|]|reflexivity];
         match goal with
         | H : (keycode =? _) = true |- _ => apply Z.eqb_eq in H; rewrite H; discriminate
         end).
  split; [discriminate|]. intros (H & Hne). contradiction.
Qed.

(** ** Per-key tap-hold settings (dario.c) *)

Lemma case_of_spec labels keycode : case_of labels keycode = true <-> In keycode labels.
Proof.
  unfold case_of. rewrite existsb_exists. split.
  - intros (l & Hin & Hl). apply Z.eqb_eq in Hl. congruence.
  - intros Hin. exists keycode. split; [exact Hin|apply Z.eqb_refl].
Qed.

(** X24: the keys with hold-on-other-key-press are exactly the keys with the
    home-row tapping term, whatever the numbers of the layers the header
    leaves undefined; every other key has [TAPPING_TERM]; and such a key is a
    mod-tap whose tap is a letter. *)
Theorem chordal_hold_keys_have_the_home_row_term
    (NAV_NIGHT NUM_NIGHT SYM_NIGHT MEDIA_NIGHT keycode : Z) :
  (get_hold_on_other_key_press keycode = true
   <-> get_tapping_term NAV_NIGHT NUM_NIGHT SYM_NIGHT MEDIA_NIGHT keycode
       = TAPPING_TERM_HRM)
  /\ (get_tapping_term NAV_NIGHT NUM_NIGHT SYM_NIGHT MEDIA_NIGHT keycode
      = TAPPING_TERM_HRM
      \/ get_tapping_term NAV_NIGHT NUM_NIGHT SYM_NIGHT MEDIA_NIGHT keycode
         = TAPPING_TERM)
  /\ (get_hold_on_other_key_press keycode = true ->
      IS_QK_MOD_TAP keycode = true
      /\ KC_A <= unwrap_tap_keycode keycode <= KC_Z).
Proof.
  unfold get_hold_on_other_key_press, get_tapping_term.
  destruct (case_of home_row_mods keycode) eqn:E.
  - split; [split; reflexivity|]. split; [left; reflexivity|]. intros _.
    apply case_of_spec in E. unfold home_row_mods in E. simpl in E.
    repeat (destruct E as [<-|E]; [vm_compute; split; [reflexivity|split; intros H; discriminate H]|]).
    contradiction.
  - repeat match goal with
           | |- context [if case_of ?l keycode then _ else _] =>
               destruct (case_of l keycode)
           end.
    all: split; [split; intros H; vm_compute in H; discriminate H|].
    all: split; [right; reflexivity|discriminate].
Qed.

(** ** At concrete inputs *)

Lemma unwrap_tap_keycode_inverts_mod_tap_and_layer_tap_witness :
  unwrap_tap_keycode (LSFT_T KC_TAB) = KC_TAB.
Proof.
  refine (proj1 unwrap_tap_keycode_inverts_mod_tap_and_layer_tap MOD_LSFT KC_TAB _ _).
  - unfold is_basic_keycode, KC_TAB. lia.
  - discriminate.
Defined.

Lemma magic_key_is_never_remembered_witness :
  get_repeat_key_eligible_user (LSFT_T QK_AREP) = false
  /\ remember_last_key_user (LSFT_T QK_AREP) = false.
Proof.
  exact (proj1 magic_key_is_never_remembered (LSFT_T QK_AREP) eq_refl).
Defined.

Lemma magic_key_sends_one_thing_or_nothing_witness :
  magic_process_record get_alt_repeat_key_keycode_user process_magic_record
    KC_A (mk_keyrecord true 0 false) after_capital_a
  = (true, after_capital_a).
Proof.
  refine (proj1 (magic_key_sends_one_thing_or_nothing KC_A (mk_keyrecord true 0 false)
                   after_capital_a) _).
  discriminate.
Defined.

Lemma magic_key_after_space_and_comma_witness :
  magic_process_record get_alt_repeat_key_keycode_user process_magic_record
    QK_AREP (mk_keyrecord true 0 false) after_thumb_space
  = (false, SEND_STRING "the" after_thumb_space).
Proof.
  exact (proj1 (magic_key_after_space_and_comma (mk_keyrecord true 0 false)
                  after_thumb_space (or_introl eq_refl) eq_refl) eq_refl).
Defined.

Lemma magic_macros_are_the_consumed_keycodes_witness :
  fst (process_magic_record MAGIC_PRIMARY_CHR_32 (mk_keyrecord true 0 false)
         after_capital_a) = false
  <-> magic_training_first_keycode MAGIC_PRIMARY_CHR_32 = KC_NO
      /\ MAGIC_PRIMARY_CHR_32 <> KC_NO.
Proof.
  exact (magic_macros_are_the_consumed_keycodes MAGIC_PRIMARY_CHR_32
           (mk_keyrecord true 0 false) after_capital_a eq_refl).
Defined.

Lemma chordal_hold_keys_have_the_home_row_term_witness :
  IS_QK_MOD_TAP (LGUI_T KC_A) = true
  /\ KC_A <= unwrap_tap_keycode (LGUI_T KC_A) <= KC_Z.
Proof.
  exact (proj2 (proj2 (chordal_hold_keys_have_the_home_row_term 7 8 9 10 (LGUI_T KC_A)))
           eq_refl).
Defined.
